(** * neatlacoche: the ID -> grid-mask index (Block, MultiBlock) and its
      producers (node worker, way worker, Sorter entry), embedded from the Go
      sources and verified against the specification's testable properties.

    Conventions of the embedding.
    - [uint32], [int64] and [int] values are integers of [Z]; the places
      where Go wraps around are written with [u32] / [i64].
    - A Go [panic] is the [Panic] outcome of the [res] monad, tagged with the
      panic site; loops with no syntactic bound take fuel and report
      [OutOfFuel] when it runs out (the theorems show that it does not).
    - A slice is a [list Z] whose capacity is its length (every slice of the
      program comes from [make] with a single size argument).
    - A Go [map] is a [gmap]; the unspecified iteration order of [range] over
      a map is a parameter [range_order] of the operations that iterate. *)

From Stdlib Require Import ZArith Lia Floats.
From stdpp Require Import base option list gmap sorting.

Local Open Scope Z_scope.

(** ** Outcomes: normal return, panic, fuel exhaustion *)

Inductive panic : Type :=
  | BlockIdTooLarge (id : Z)          (* Block.Append: "ID value %d is too large" *)
  | BlockValTooLarge (val : Z)        (* Block.Append: "Val value %d is too large" *)
  | AppendToFrozen                    (* Block.Append on a frozen block *)
  | ArrayModeOverflow (id len : Z)    (* Block.Append: "Unable to push %d into array-mode block" *)
  | ResetFrozen                       (* Block.Reset on a frozen block *)
  | LookupTooLarge (id : Z)           (* Block.Lookup: "Lookup value %d is larger than max" *)
  | UnAppendFrozen                    (* Block.UnAppend on a frozen block *)
  | UnAppendIndexRange (idx : Z)      (* Block.UnAppend: "Block index %d out of range" *)
  | UnAppendValueRange (val : Z)      (* Block.UnAppend: "Block value %d out of range" *)
  | CopyIntoFrozen                    (* Block.CopyFrom on a frozen receiver *)
  | CopyTooSmall (src dst : Z)        (* Block.CopyFrom: "Unable to copy %d bytes into smaller Block" *)
  | IndexOutOfRange                   (* Go runtime: slice index or bound out of range *)
  | IdOutOfOrder (id last : Z)        (* MultiBlock.Append: "ID %d < last ID %d" *)
  | MultiValTooLarge (val : Z)        (* MultiBlock.Append: "Can't append a value of %d" *)
  | NodesWithOthers (nodes ways rels : Z)  (* primitiveBlockKind: nodes and something else *)
  | WaysWithRelations (ways rels : Z)      (* primitiveBlockKind: ways and relations *)
  | NilDereference.                        (* Go runtime: nil pointer dereference *)

Inductive res (A : Type) : Type :=
  | Ok (a : A)
  | Panic (p : panic)
  | OutOfFuel.
Arguments Ok {A} a.
Arguments Panic {A} p.
Arguments OutOfFuel {A}.

#[global] Instance res_ret : MRet res := @Ok.
#[global] Instance res_bind : MBind res := fun A B f r =>
  match r with
  | Ok a => f a
  | Panic p => Panic p
  | OutOfFuel => OutOfFuel
  end.

Fixpoint foldM {A B} (f : B -> A -> res B) (acc : B) (l : list A) : res B :=
  match l with
  | [] => Ok acc
  | x :: l' => acc' ← f acc x; foldM f acc' l'
  end.

(** ** Machine integers *)

Definition u32 (z : Z) : Z := z mod 2 ^ 32.
Definition i64 (z : Z) : Z := (z + 2 ^ 63) mod 2 ^ 64 - 2 ^ 63.

(** ** Slices *)

(* arr[i] *)
Definition zget (arr : list Z) (i : Z) : res Z :=
  if i <? 0 then Panic IndexOutOfRange
  else match arr !! Z.to_nat i with
       | Some v => Ok v
       | None => Panic IndexOutOfRange
       end.

(* arr[i] = x *)
Definition zset (arr : list Z) (i : Z) (x : Z) : res (list Z) :=
  if i <? 0 then Panic IndexOutOfRange
  else if Z.of_nat (length arr) <=? i then Panic IndexOutOfRange
  else Ok (<[Z.to_nat i := x]> arr).

(* arr[:n] *)
Definition slice_to (arr : list Z) (n : Z) : res (list Z) :=
  if n <? 0 then Panic IndexOutOfRange
  else if Z.of_nat (length arr) <? n then Panic IndexOutOfRange
  else Ok (take (Z.to_nat n) arr).

(* make([]uint32, n) *)
Definition make (n : Z) : list Z := replicate (Z.to_nat n) 0.

(* copy(dst, src): the first min(len dst, len src) elements of dst are
   overwritten; the result is the new content of dst. *)
Definition copy (dst src : list Z) : list Z :=
  take (length dst) src ++ drop (length src) dst.

(** ** Block (block.go) *)

Definition BLOCK_IDX_BITS : Z := 16.
Definition BLOCK_VAL_BITS : Z := 16.
Definition BLOCK_IDX_MASK : Z := 65535.
Definition BLOCK_VAL_MASK : Z := 65535.
Definition BLOCK_FULL_LENGTH : Z := Z.shiftl 1 15.
Definition BLOCK_PACKING_BITS : Z := 1.
Definition BLOCK_PACKING_MASK : Z := 1.

Record Block : Type := mkBlock {
  Length : Z;
  Frozen : bool;
  Values : list Z
}.

Definition NewAccumulationBlock : Block :=
  {| Length := 0; Frozen := false; Values := make BLOCK_FULL_LENGTH |}.

Definition NewEmptyBlock : Block :=
  {| Length := 0; Frozen := true; Values := make 0 |}.

Definition writePacked (arr : list Z) (id val : Z) : res (list Z) :=
  let hilo := Z.land id BLOCK_PACKING_MASK in
  let idx := Z.shiftr id BLOCK_PACKING_BITS in
  old ← zget arr idx;
  zset arr idx (Z.lor old (u32 (Z.shiftl val (hilo * BLOCK_VAL_BITS)))).

(* The recursion of [search] halves the slice; [search_go] carries the
   length of the slice as its structural argument. *)
Fixpoint search_go (n : nat) (arr : list Z) (lb : Z) : Z :=
  match n with
  | O => 0
  | S n' =>
    match arr with
    | [] => 0
    | [x] => x
    | _ =>
      let mididx := (length arr / 2)%nat in
      let mid := Z.shiftr (nth mididx arr 0) BLOCK_VAL_BITS in
      if lb <? mid then search_go n' (take mididx arr) lb
      else search_go n' (drop mididx arr) lb
    end
  end.

Definition search (arr : list Z) (lb : Z) : Z := search_go (length arr) arr lb.

(* Array-mode loop of UnAppend, [for i := BLOCK_FULL_LENGTH - 1; i >= 0; i -= 1]:
   [n] is i + 1.  The inner loop runs j = 1, then j = 0. *)
Fixpoint unappend_scan (n : nat) (vs : list Z) : res (Z * Z) :=
  match n with
  | O => Ok (0, 0)
  | S n' =>
    let i := Z.of_nat n' in
    v ← zget vs i;
    if 0 <? v then
      let v1 := Z.land (Z.shiftr v (1 * BLOCK_VAL_BITS)) BLOCK_VAL_MASK in
      if 0 <? v1 then Ok (u32 (Z.lor (Z.shiftl i BLOCK_PACKING_BITS) 1), v1)
      else
        let v0 := Z.land (Z.shiftr v (0 * BLOCK_VAL_BITS)) BLOCK_VAL_MASK in
        if 0 <? v0 then Ok (u32 (Z.lor (Z.shiftl i BLOCK_PACKING_BITS) 0), v0)
        else unappend_scan n' vs
    else unappend_scan n' vs
  end.

(* Array-mode loop of Next, [for j := idx; j < BLOCK_FULL_LENGTH; j += 1]:
   [n] is the number of iterations left, [cur] is i.idx.  The inner loop
   runs k = 0, then k = 1. *)
Fixpoint next_scan (n : nat) (vs : list Z) (j cur : Z) : res Z :=
  match n with
  | O => Ok (Z.shiftl 1 BLOCK_IDX_BITS)
  | S n' =>
    v ← zget vs j;
    if 0 <? v then
      let v0 := Z.land (Z.shiftr v (0 * BLOCK_VAL_BITS)) BLOCK_VAL_MASK in
      let ii0 := Z.lor (Z.shiftl j BLOCK_PACKING_BITS) 0 in
      if (0 <? v0) && (cur <? ii0) then Ok ii0
      else
        let v1 := Z.land (Z.shiftr v (1 * BLOCK_VAL_BITS)) BLOCK_VAL_MASK in
        let ii1 := Z.lor (Z.shiftl j BLOCK_PACKING_BITS) 1 in
        if (0 <? v1) && (cur <? ii1) then Ok ii1
        else next_scan n' vs (j + 1) cur
    else next_scan n' vs (j + 1) cur
  end.

Record Iterator : Type := mkIterator {
  block : Block;
  idx : Z
}.

(** *** Iterator methods *)

Module Iterator.

Definition Valid (i : Iterator) : bool := u32 (idx i) <? Length (block i).

Definition Index (i : Iterator) : res Z :=
  if BLOCK_FULL_LENGTH <? Length (block i) then Ok (u32 (idx i))
  else
    kv ← zget (Values (block i)) (idx i);
    Ok (Z.shiftr kv BLOCK_VAL_BITS).

Definition Value (i : Iterator) : res Z :=
  if BLOCK_FULL_LENGTH <? Length (block i) then
    let hilo := Z.land (u32 (idx i)) BLOCK_PACKING_MASK in
    let idx' := Z.shiftr (idx i) BLOCK_PACKING_BITS in
    v ← zget (Values (block i)) idx';
    Ok (Z.land (Z.shiftr v (hilo * BLOCK_VAL_BITS)) BLOCK_VAL_MASK)
  else
    kv ← zget (Values (block i)) (idx i);
    Ok (Z.land kv BLOCK_VAL_MASK).

Definition Next (i : Iterator) : res Iterator :=
  if BLOCK_FULL_LENGTH <? Length (block i) then
    let j := Z.shiftr (idx i) BLOCK_PACKING_BITS in
    ii ← next_scan (Z.to_nat (BLOCK_FULL_LENGTH - j)) (Values (block i)) j (idx i);
    Ok {| block := block i; idx := ii |}
  else Ok {| block := block i; idx := idx i + 1 |}.

End Iterator.

(** *** Block methods *)

Module Block.

Definition Copy (b : Block) : Block :=
  let n := if BLOCK_FULL_LENGTH <? Length b then BLOCK_FULL_LENGTH else Length b in
  {| Length := Length b; Frozen := true; Values := copy (make n) (Values b) |}.

Definition Append (b : Block) (id val : Z) : res Block :=
  if BLOCK_IDX_MASK <? id then Panic (BlockIdTooLarge id)
  else if BLOCK_VAL_MASK <? val then Panic (BlockValTooLarge val)
  else if Frozen b then Panic AppendToFrozen
  else if BLOCK_FULL_LENGTH <? Length b then
    (* array mode *)
    if Length b <=? id then Panic (ArrayModeOverflow id (Length b))
    else
      vs ← writePacked (Values b) id val;
      Ok {| Length := Length b; Frozen := Frozen b; Values := vs |}
  else if Length b <? BLOCK_FULL_LENGTH then
    (* list-of-pairs mode *)
    vs ← zset (Values b) (Length b) (Z.lor (u32 (Z.shiftl id BLOCK_VAL_BITS)) val);
    Ok {| Length := u32 (Length b + 1); Frozen := Frozen b; Values := vs |}
  else
    (* transition from list-of-pairs mode to array mode *)
    tmp ← foldM (fun tmp kv =>
                   writePacked tmp (Z.shiftr kv BLOCK_VAL_BITS) (Z.land kv BLOCK_VAL_MASK))
                (make BLOCK_FULL_LENGTH) (Values b);
    tmp ← writePacked tmp id val;
    Ok {| Length := Z.shiftl 1 BLOCK_IDX_BITS; Frozen := Frozen b;
          Values := copy (Values b) tmp |}.

Definition Reset (b : Block) : res Block :=
  if Frozen b then Panic ResetFrozen
  else Ok {| Length := 0; Frozen := Frozen b;
             Values := replicate (length (Values b)) 0 |}.

Definition Lookup (b : Block) (id : Z) : res Z :=
  if BLOCK_IDX_MASK <? id then Panic (LookupTooLarge id)
  else if BLOCK_FULL_LENGTH <? Length b then
    let hilo := Z.land id BLOCK_PACKING_MASK in
    let idx := Z.shiftr id BLOCK_PACKING_BITS in
    v ← zget (Values b) idx;
    Ok (Z.land (Z.shiftr v (hilo * BLOCK_VAL_BITS)) BLOCK_VAL_MASK)
  else
    s ← slice_to (Values b) (Length b);
    let lb := search s id in
    if Z.shiftr lb BLOCK_VAL_BITS =? id then Ok (Z.land lb BLOCK_VAL_MASK)
    else Ok 0.

Definition UnAppend (b : Block) : res (Block * Z * Z) :=
  if Frozen b then Panic UnAppendFrozen
  else
    '(b', idx, val) ←
      (if BLOCK_FULL_LENGTH <? Length b then
         '(idx, val) ← unappend_scan (Z.to_nat BLOCK_FULL_LENGTH) (Values b);
         Ok (b, idx, val)
       else if 0 <? Length b then
         let len := Length b - 1 in
         kv ← zget (Values b) len;
         Ok ({| Length := len; Frozen := Frozen b; Values := Values b |},
             Z.shiftr kv BLOCK_VAL_BITS, Z.land kv BLOCK_VAL_MASK)
       else Ok (b, 0, 0));
    if BLOCK_IDX_MASK <? idx then Panic (UnAppendIndexRange idx)
    else if BLOCK_VAL_MASK <? val then Panic (UnAppendValueRange val)
    else Ok (b', idx, val).

Definition CopyFrom (b b2 : Block) : res Block :=
  if Frozen b then Panic CopyIntoFrozen
  else
    b0 ← Reset b;
    if Z.of_nat (length (Values b0)) <? Z.of_nat (length (Values b2))
    then Panic (CopyTooSmall (Z.of_nat (length (Values b2))) (Z.of_nat (length (Values b0))))
    else Ok {| Length := Length b2; Frozen := Frozen b0;
               Values := copy (Values b0) (Values b2) |}.

(** ResetAndMergeFrom: its three loops, then the method. *)

(* [for it1.Valid() && it2.Valid() { ... }] *)
Fixpoint merge_both (fuel : nat) (b : Block) (it1 it2 : Iterator)
  : res (Block * Iterator * Iterator) :=
  match fuel with
  | O => OutOfFuel
  | S fuel' =>
    if Iterator.Valid it1 && Iterator.Valid it2 then
      i1 ← Iterator.Index it1;
      i2 ← Iterator.Index it2;
      if i1 <? i2 then
        v1 ← Iterator.Value it1;
        b' ← Append b i1 v1;
        it1' ← Iterator.Next it1;
        merge_both fuel' b' it1' it2
      else if i1 =? i2 then
        v1 ← Iterator.Value it1;
        v2 ← Iterator.Value it2;
        b' ← Append b i1 (Z.lor v1 v2);
        it1' ← Iterator.Next it1;
        it2' ← Iterator.Next it2;
        merge_both fuel' b' it1' it2'
      else
        v2 ← Iterator.Value it2;
        b' ← Append b i2 v2;
        it2' ← Iterator.Next it2;
        merge_both fuel' b' it1 it2'
    else Ok (b, it1, it2)
  end.

(* [for it.Valid() { b.Append(it.Index(), it.Value()); it = it.Next() }] *)
Fixpoint drain (fuel : nat) (b : Block) (it : Iterator) : res Block :=
  match fuel with
  | O => OutOfFuel
  | S fuel' =>
    if Iterator.Valid it then
      i ← Iterator.Index it;
      v ← Iterator.Value it;
      b' ← Append b i v;
      it' ← Iterator.Next it;
      drain fuel' b' it'
    else Ok b
  end.

(* Every pass of the three loops moves an iterator forward, and a valid
   iterator's position is below its block's Length. *)
Definition merge_fuel (block1 block2 : Block) : nat :=
  S (Z.to_nat (Length block1) + Z.to_nat (Length block2)).

Definition Iterator (b : Block) : Iterator := {| block := b; idx := 0 |}.

Definition ResetAndMergeFrom (b block1 block2 : Block) : res Block :=
  b0 ← Reset b;
  let it1 := Iterator block1 in
  let it2 := Iterator block2 in
  let fuel := merge_fuel block1 block2 in
  '(b1, it1, it2) ← merge_both fuel b0 it1 it2;
  b2 ← drain fuel b1 it1;
  drain fuel b2 it2.

End Block.

(** *** Sequences of appends *)

Definition Appends (b : Block) (l : list (Z * Z)) : res Block :=
  foldM (fun b kv => Block.Append b kv.1 kv.2) b l.

(** ** MultiBlock (multi_block.go) *)

Record MultiBlock : Type := mkMultiBlock {
  Blocks : gmap Z Block;
  Current : Block;
  LastId : Z;
  LastVal : Z
}.

Definition NewMultiBlock : MultiBlock :=
  {| Blocks := ∅; Current := NewAccumulationBlock; LastId := 0; LastVal := 0 |}.

(* int64((^uint64(0)) >> 1) *)
Definition maxLastId : Z := Z.shiftr (2 ^ 64 - 1) 1.

Module MultiBlock.

Definition Append (m : MultiBlock) (id val : Z) : res MultiBlock :=
  if id <? LastId m then Panic (IdOutOfOrder id (LastId m))
  else if BLOCK_VAL_MASK <? val then Panic (MultiValTooLarge val)
  else if id =? LastId m then
    Ok {| Blocks := Blocks m; Current := Current m; LastId := LastId m;
          LastVal := Z.lor (LastVal m) val |}
  else
    cur ← Block.Append (Current m) (u32 (Z.land (LastId m) BLOCK_IDX_MASK)) (LastVal m);
    let upper := Z.shiftr id BLOCK_IDX_BITS in
    let lastUpper := Z.shiftr (LastId m) BLOCK_IDX_BITS in
    '(blocks, cur) ←
      (if negb (upper =? lastUpper) then
         let block := Block.Copy cur in
         cur' ← Block.Reset cur;
         Ok (<[lastUpper := block]> (Blocks m), cur')
       else Ok (Blocks m, cur));
    Ok {| Blocks := blocks; Current := cur; LastId := id; LastVal := val |}.

Definition pushCurrent (m : MultiBlock) : res MultiBlock :=
  cur ← Block.Append (Current m) (u32 (Z.land (LastId m) BLOCK_IDX_MASK)) (LastVal m);
  let lastUpper := Z.shiftr (LastId m) BLOCK_IDX_BITS in
  let block := Block.Copy cur in
  cur' ← Block.Reset cur;
  Ok {| Blocks := <[lastUpper := block]> (Blocks m); Current := cur';
        LastId := maxLastId; LastVal := 0 |}.

Definition Lookup (m : MultiBlock) (id : Z) : res Z :=
  if id =? LastId m then Ok (LastVal m)
  else
    let upper := Z.shiftr id BLOCK_IDX_BITS in
    let lastUpper := Z.shiftr (LastId m) BLOCK_IDX_BITS in
    let blockIdx := u32 (Z.land id BLOCK_IDX_MASK) in
    if upper =? lastUpper then Block.Lookup (Current m) blockIdx
    else match Blocks m !! upper with
         | Some block => Block.Lookup block blockIdx
         | None => Ok 0
         end.

Section GoMap.
(* The order in which [range] enumerates a map of blocks. *)
Context (range_order : gmap Z Block -> list (Z * Block)).

Definition sortedBlockKeys (m : MultiBlock) : list Z :=
  merge_sort Z.le ((range_order (Blocks m)).*1).

Definition unPushCurrent (m : MultiBlock) : res MultiBlock :=
  let blockKeys := sortedBlockKeys m in
  if (0 <? length blockKeys)%nat then
    lastKey ← zget blockKeys (Z.of_nat (length blockKeys) - 1);
    match Blocks m !! lastKey with
    | None => Panic NilDereference
    | Some lastBlock =>
      cur ← Block.CopyFrom (Current m) lastBlock;
      '(cur', lastIdx, lastVal) ← Block.UnAppend cur;
      Ok {| Blocks := delete lastKey (Blocks m); Current := cur';
            LastId := Z.lor (i64 (Z.shiftl lastKey BLOCK_IDX_BITS)) lastIdx;
            LastVal := lastVal |}
    end
  else
    cur ← Block.Reset (Current m);
    Ok {| Blocks := Blocks m; Current := cur; LastId := 0; LastVal := 0 |}.

(* Body of [for upper, block2 := range mb2.Blocks] in Merge: the state is
   mb.Blocks and the accumulation block new_block. *)
Definition merge_shard (st : gmap Z Block * Block) (kb : Z * Block)
  : res (gmap Z Block * Block) :=
  let '(blocks, new_block) := st in
  let '(upper, block2) := kb in
  match blocks !! upper with
  | Some block =>
    new_block' ← Block.ResetAndMergeFrom new_block block block2;
    Ok (<[upper := Block.Copy new_block']> blocks, new_block')
  | None => Ok (<[upper := block2]> blocks, new_block)
  end.

(* Merge returns the receiver and the (blanked) argument. *)
Definition Merge (mb mb2 : MultiBlock) : res (MultiBlock * MultiBlock) :=
  let new_block := NewAccumulationBlock in
  mb ← pushCurrent mb;
  mb2 ← pushCurrent mb2;
  '(blocks, _) ← foldM merge_shard (Blocks mb, new_block) (range_order (Blocks mb2));
  mb ← unPushCurrent {| Blocks := blocks; Current := Current mb;
                        LastId := LastId mb; LastVal := LastVal mb |};
  Ok (mb, {| Blocks := ∅; Current := NewEmptyBlock; LastId := 0; LastVal := 0 |}).

End GoMap.

End MultiBlock.

(** ** Way worker (way_worker.go) *)

Module wayWorker.

Record t : Type := mk {
  Ways : MultiBlock;
  ExtraNodes : gmap Z Z;
  Id : Z;
  Nodes : MultiBlock
}.

(* First loop of putWay: nd_masks[i] = w.Nodes.Lookup(n); mask |= nd_masks[i]. *)
Definition lookup_masks (nodes : MultiBlock) (nds : list Z) : res (Z * list Z) :=
  foldM (fun '(mask, nd_masks) n =>
           nd_mask ← MultiBlock.Lookup nodes n;
           Ok (Z.lor mask nd_mask, nd_masks ++ [nd_mask]))
        (0, []) nds.

(* Second loop of putWay, over the pairs (n, nd_masks[i]). *)
Definition record_extra (mask : Z) (extra : gmap Z Z) (n_mask : Z * Z) : gmap Z Z :=
  let '(n, nd_mask) := n_mask in
  if negb (nd_mask =? mask) then
    <[n := Z.lor (default 0 (extra !! n)) (Z.land mask (u32 (Z.lnot nd_mask)))]> extra
  else extra.

Definition putWay (w : t) (id : Z) (nds : list Z) : res t :=
  '(mask, nd_masks) ← lookup_masks (Nodes w) nds;
  ways ← MultiBlock.Append (Ways w) id mask;
  let extra := fold_left (record_extra mask) (zip nds nd_masks) (ExtraNodes w) in
  Ok {| Ways := ways; ExtraNodes := extra; Id := Id w; Nodes := Nodes w |}.

End wayWorker.

(** ** Node worker (node_worker.go) *)

(* float64(n) for an integer n, and int(f) for a float64 f.  Go leaves int(f)
   implementation-defined when f is an infinity or a NaN; 0 stands for it. *)
Definition float64_of_int (z : Z) : float := SF2Prim (binary_normalize prec emax z 0 false).
Definition int_of_float64 (f : float) : Z :=
  match Prim2SF f with
  | S754_finite s m e =>
    let mag := if 0 <=? e then Z.pos m * 2 ^ e else Z.pos m / 2 ^ (- e) in
    if s then - mag else mag
  | _ => 0
  end.

Definition SCALE : float := (1 / 10000000)%float.
Definition MAX_LAT : Z := 850511287.

Definition quadrant (coordRange : float * float) (coord : float) : Z :=
  let i := (4 * (coord - coordRange.1) / (coordRange.2 - coordRange.1))%float in
  if PrimFloat.leb 0 i && PrimFloat.ltb i 4 then int_of_float64 i else -1.

Module nodeWorker.

Record t : Type := mk {
  Nodes : MultiBlock;
  XRange : float * float;
  YRange : float * float;
  Id : Z
}.

Section Geo.
(* geo.Mercator.Project of github.com/paulmach/go.geo, an external package. *)
Context (Project : float * float -> float * float).

Definition putNode (w : t) (id lon lat : Z) : res t :=
  if (- MAX_LAT <? lat) && (lat <? MAX_LAT) then
    let p := Project ((float64_of_int lon * SCALE)%float, (float64_of_int lat * SCALE)%float) in
    let x := quadrant (XRange w) p.1 in
    let y := quadrant (YRange w) p.2 in
    if (0 <=? x) && (0 <=? y) then
      let mask := u32 (Z.shiftl 1 (u32 (x + 4 * y))) in
      nodes ← MultiBlock.Append (Nodes w) id mask;
      Ok {| Nodes := nodes; XRange := XRange w; YRange := YRange w; Id := Id w |}
    else Ok w
  else Ok w.

End Geo.

End nodeWorker.

(** ** Sorter entry (sorter.go, pbf_reader.go) *)

Record Node : Type := { Node_Id : Z; Node_Lon : Z; Node_Lat : Z }.
Record DenseNodes : Type := { Dense_Id : list Z; Dense_Lon : list Z; Dense_Lat : list Z }.
Record Way : Type := { Way_Id : Z; Way_Refs : list Z }.
Record Relation : Type := { Relation_Id : Z }.
Record PrimitiveGroup : Type := {
  Nodes : list Node;
  Dense : DenseNodes;
  Ways : list Way;
  Relations : list Relation
}.
Record PrimitiveBlock : Type := { Primitivegroup : list PrimitiveGroup }.

Definition PKIND_NODE : Z := 0.
Definition PKIND_WAY : Z := 1.
Definition PKIND_REL : Z := 2.

Definition primCount (p : PrimitiveBlock) : Z * Z * Z :=
  fold_left (fun '(nodes, ways, rels) g =>
               (nodes + (Z.of_nat (length (Nodes g)) + Z.of_nat (length (Dense_Id (Dense g)))),
                ways + Z.of_nat (length (Ways g)),
                rels + Z.of_nat (length (Relations g))))
            (Primitivegroup p) (0, 0, 0).

Definition primitiveBlockKind (p : PrimitiveBlock) : res Z :=
  let '(nodes, ways, rels) := primCount p in
  if 0 <? nodes then
    if (0 <? ways) || (0 <? rels) then Panic (NodesWithOthers nodes ways rels)
    else Ok PKIND_NODE
  else if 0 <? ways then
    if 0 <? rels then Panic (WaysWithRelations ways rels)
    else Ok PKIND_WAY
  else Ok PKIND_REL.

(* What Sorter.Append does with its workers; the goroutines and channels
   themselves are outside this model. *)
Inductive sorter_action : Type :=
  | CollectNodes          (* s.Nodes = NewMultiBlock(); s.collect(s.Nodes) *)
  | StartWaysWorkers      (* s.startWaysWorkers(s.Nodes) *)
  | CollectWays           (* s.Ways = NewMultiBlock(); s.collect(s.Ways) *)
  | Dispatch (p : PrimitiveBlock).  (* req := <-s.workQueue; req <- p *)

(* The value of the [error] that Sorter.Append returns. *)
Inductive error : Type :=
  | KindOutOfOrder (kind lastKind : Z).   (* "Block kind %q cannot follow kind %d" *)

Module Sorter.

Record t : Type := mk {
  lastKind : Z;
  actions : list sorter_action
}.

Definition Append (s : t) (p : PrimitiveBlock) : res (t * option error) :=
  kind ← primitiveBlockKind p;
  if negb (kind =? lastKind s) && (kind <? lastKind s) then
    Ok (s, Some (KindOutOfOrder kind (lastKind s)))
  else
    let s1 :=
      if negb (kind =? lastKind s) then
        let a1 := if lastKind s =? PKIND_NODE then [CollectNodes] else [] in
        let a2 := if kind =? PKIND_WAY then [StartWaysWorkers] else [] in
        let a3 := if lastKind s =? PKIND_WAY then [CollectWays] else [] in
        {| lastKind := kind; actions := actions s ++ a1 ++ a2 ++ a3 |}
      else s in
    let s2 :=
      if negb (kind =? PKIND_REL)
      then {| lastKind := lastKind s1; actions := actions s1 ++ [Dispatch p] |}
      else s1 in
    Ok (s2, None).

End Sorter.

(** ** Requests to the workers (way_worker.go, node_worker.go) *)

Definition processWayRequest (w : wayWorker.t) (b : PrimitiveBlock) : res wayWorker.t :=
  foldM (fun w g =>
           foldM (fun w way => wayWorker.putWay w (Way_Id way) (Way_Refs way)) w (Ways g))
        w (Primitivegroup b).

(* int32(x) *)
Definition i32 (z : Z) : Z := (z + 2 ^ 31) mod 2 ^ 32 - 2 ^ 31.

(* The panic that processNodeRequest raises itself:
   "Last index %d should be before current index %d."  The functions below
   return inl of it when it is raised, inr of the worker when they return. *)
Inductive request_panic : Type :=
  | IndexBackwards (last_i i : Z).

Section Requests.
Context (Project : float * float -> float * float).

(* [for i, delta_id := range g.Dense.Id { ... }]: the list holds the deltas
   from index [i] on; the state is the worker and the locals id, lon, lat
   and last_i. *)
Fixpoint dense_loop (g : DenseNodes) (deltas : list Z) (i : Z)
    (w : nodeWorker.t) (id lon lat last_i : Z) : res (request_panic + nodeWorker.t) :=
  match deltas with
  | [] => Ok (inr w)
  | delta_id :: deltas' =>
    if i <? last_i then Ok (inl (IndexBackwards last_i i))
    else
      let id := i64 (id + delta_id) in
      dlon ← zget (Dense_Lon g) i;
      let lon := i64 (lon + dlon) in
      dlat ← zget (Dense_Lat g) i;
      let lat := i64 (lat + dlat) in
      w' ← nodeWorker.putNode Project w id (i32 lon) (i32 lat);
      dense_loop g deltas' (i + 1) w' id lon lat i
  end.

Definition processNodeGroup (w : nodeWorker.t) (g : PrimitiveGroup)
  : res (request_panic + nodeWorker.t) :=
  w ← foldM (fun w n =>
               nodeWorker.putNode Project w (Node_Id n) (i32 (Node_Lon n)) (i32 (Node_Lat n)))
            w (Nodes g);
  dense_loop (Dense g) (Dense_Id (Dense g)) 0 w 0 0 0 0.

Fixpoint processNodeGroups (w : nodeWorker.t) (gs : list PrimitiveGroup)
  : res (request_panic + nodeWorker.t) :=
  match gs with
  | [] => Ok (inr w)
  | g :: gs' =>
    r ← processNodeGroup w g;
    match r with
    | inl p => Ok (inl p)
    | inr w' => processNodeGroups w' gs'
    end
  end.

Definition processNodeRequest (w : nodeWorker.t) (b : PrimitiveBlock)
  : res (request_panic + nodeWorker.t) :=
  processNodeGroups w (Primitivegroup b).

End Requests.

(** ** The reader's split of mixed blocks (pbf_reader.go) *)

(* OSMPBF.PrimitiveGroup{Nodes: ...}, {Dense: ...}, {Ways: ...} and
   {Relations: ...}: the fields not named take their zero values.  (The
   record PrimitiveBlock holds the one field of OSMPBF.PrimitiveBlock that
   the program inspects; the string table, granularity and offsets, which
   primBlockSplit copies over as they are, are not part of it.) *)
Definition no_dense : DenseNodes := {| Dense_Id := []; Dense_Lon := []; Dense_Lat := [] |}.
Definition group_Nodes (ns : list Node) : PrimitiveGroup :=
  {| Nodes := ns; Dense := no_dense; Ways := []; Relations := [] |}.
Definition group_Dense (d : DenseNodes) : PrimitiveGroup :=
  {| Nodes := []; Dense := d; Ways := []; Relations := [] |}.
Definition group_Ways (ws : list Way) : PrimitiveGroup :=
  {| Nodes := []; Dense := no_dense; Ways := ws; Relations := [] |}.
Definition group_Relations (rs : list Relation) : PrimitiveGroup :=
  {| Nodes := []; Dense := no_dense; Ways := []; Relations := rs |}.

(* A nil *PrimitiveBlock is None. *)
Definition primBlockSplit (p : PrimitiveBlock)
  : option PrimitiveBlock * option PrimitiveBlock * option PrimitiveBlock :=
  let '(n, w, r) := primCount p in
  let nodes :=
    if 0 <? n then
      Some {| Primitivegroup :=
                fold_left (fun gs g =>
                             let gs := if (0 <? length (Nodes g))%nat
                                       then gs ++ [group_Nodes (Nodes g)] else gs in
                             if (0 <? length (Dense_Id (Dense g)))%nat
                             then gs ++ [group_Dense (Dense g)] else gs)
                          (Primitivegroup p) [] |}
    else None in
  let ways :=
    if 0 <? w then
      Some {| Primitivegroup :=
                fold_left (fun gs g =>
                             if (0 <? length (Ways g))%nat
                             then gs ++ [group_Ways (Ways g)] else gs)
                          (Primitivegroup p) [] |}
    else None in
  let rels :=
    if 0 <? r then
      Some {| Primitivegroup :=
                fold_left (fun gs g =>
                             if (0 <? length (Relations g))%nat
                             then gs ++ [group_Relations (Relations g)] else gs)
                          (Primitivegroup p) [] |}
    else None in
  (nodes, ways, rels).

(* What readDataBlock sends on its channel once readBlob has returned
   [block]: the Primitives of the BlockOrError values, in order. *)
Definition readDataBlock_sends (block : PrimitiveBlock) : list PrimitiveBlock :=
  let '(nodes, ways, rels) := primCount block in
  let numTypes := 0 in
  let numTypes := if 0 <? nodes then numTypes + 1 else numTypes in
  let numTypes := if 0 <? ways then numTypes + 1 else numTypes in
  let numTypes := if 0 <? rels then numTypes + 1 else numTypes in
  if numTypes <=? 1 then [block]
  else
    let '(nodeBlock, wayBlock, relBlock) := primBlockSplit block in
    option_list nodeBlock ++ option_list wayBlock ++ option_list relBlock.

(** ** The driver's loop (main.go) *)

(* A value received from ReadBlocks: a primitive block, or the reader's
   error. *)
Inductive BlockOrError (E : Type) : Type :=
  | Primitives (p : PrimitiveBlock)
  | Err (e : E).
Arguments Primitives {E} p.
Arguments Err {E} e.

(* [for block_or_error := range reader.ReadBlocks() { ... }] of FirstPass:
   the state is the Sorter and the local err. *)
Definition FirstPass_loop {E} (sorter : Sorter.t) (received : list (BlockOrError E))
  : res (Sorter.t * option E) :=
  foldM (fun '(sorter, err) block_or_error =>
           match block_or_error with
           | Err e => Ok (sorter, Some e)
           | Primitives p =>
             match err with
             | None => '(sorter', _) ← Sorter.Append sorter p; Ok (sorter', err)
             | Some _ => Ok (sorter, err)
             end
           end)
        (sorter, None) received.

(** * Specification-level definitions *)

(* One 16-bit half of a packed word, and one cell of a packed array. *)
Definition half (v h : Z) : Z := Z.land (Z.shiftr v (h * 16)) 65535.

Definition cell (vs : list Z) (k : Z) : Z :=
  half (nth (Z.to_nat (Z.shiftr k 1)) vs 0) (Z.land k 1).

(* A packed list-of-pairs record and its two fields. *)
Definition pack (kv : Z * Z) : Z := Z.lor (u32 (Z.shiftl kv.1 16)) kv.2.

Definition unpack (w : Z) : Z * Z := (Z.shiftr w 16, Z.land w 65535).

(* The value of the last record appended under [id], and the bitwise OR
   of all of them; 0 when there is none. *)
Definition last_val (id : Z) (l : list (Z * Z)) : Z :=
  fold_left (fun acc kv => if kv.1 =? id then kv.2 else acc) l 0.

Definition or_vals (id : Z) (l : list (Z * Z)) : Z :=
  fold_left (fun acc kv => if kv.1 =? id then Z.lor acc kv.2 else acc) l 0.

Definition words (vs : list Z) : Prop := Forall (fun w => 0 <= w < 2 ^ 32) vs.

(* The orders on record lists: ids never go down / ids go strictly up. *)
Definition ascending (l : list (Z * Z)) : Prop := StronglySorted Z.le (l.*1).

Definition strictly_ascending (l : list (Z * Z)) : Prop := StronglySorted Z.lt (l.*1).

Definition in_range (l : list (Z * Z)) : Prop :=
  Forall (fun kv => 0 <= kv.1 < 65536 /\ 0 <= kv.2 < 65536) l.

Definition key (w : Z) : Z := Z.shiftr w 16.

Definition sorted_words (ws : list Z) : Prop := StronglySorted Z.le (key <$> ws).

(* What a block holds, read off its representation. *)
Definition entries (b : Block) : list (Z * Z) :=
  unpack <$> take (Z.to_nat (Length b)) (Values b).

Definition get (b : Block) (id : Z) : Z :=
  if BLOCK_FULL_LENGTH <? Length b then cell (Values b) id
  else last_val id (entries b).

(* Representation invariant: words are 32-bit; an array-mode block has
   Length 2^16 and BLOCK_FULL_LENGTH words; a list-of-pairs block has its
   live records within the slice, in non-decreasing id order. *)
Definition blk_ok (b : Block) : Prop :=
  words (Values b) /\
  if BLOCK_FULL_LENGTH <? Length b
  then Length b = 65536 /\ length (Values b) = Z.to_nat BLOCK_FULL_LENGTH
  else 0 <= Length b <= Z.of_nat (length (Values b)) /\ ascending (entries b).

(* Ids are unique (the contract of Block.Append). *)
Definition uniq (b : Block) : Prop :=
  Length b <= BLOCK_FULL_LENGTH -> strictly_ascending (entries b).

(* An accumulation block: mutable, with BLOCK_FULL_LENGTH words of storage. *)
Definition acc_blk (b : Block) : Prop :=
  Frozen b = false /\ length (Values b) = Z.to_nat BLOCK_FULL_LENGTH.

(* [built l b]: [b] is the accumulation block after the appends [l]. *)
Definition built (l : list (Z * Z)) (b : Block) : Prop :=
  acc_blk b /\ words (Values b) /\
  if Z.of_nat (length l) <=? BLOCK_FULL_LENGTH
  then Length b = Z.of_nat (length l) /\ entries b = l
  else Length b = 65536 /\ forall k, 0 <= k < 65536 -> cell (Values b) k = or_vals k l.

(* The records an iterator yields from its position on. *)
Fixpoint iter_collect (fuel : nat) (it : Iterator) : res (list (Z * Z)) :=
  match fuel with
  | O => OutOfFuel
  | S fuel' =>
    if Iterator.Valid it then
      i ← Iterator.Index it;
      v ← Iterator.Value it;
      it' ← Iterator.Next it;
      l ← iter_collect fuel' it';
      Ok ((i, v) :: l)
    else Ok []
  end.

(* The non-zero cells of a packed array among the [n] cells from [from] on. *)
Fixpoint nonzero_cells (vs : list Z) (from : Z) (n : nat) : list (Z * Z) :=
  match n with
  | O => []
  | S n' =>
    (if cell vs from =? 0 then [] else [(from, cell vs from)])
    ++ nonzero_cells vs (from + 1) n'
  end.

(* The merge of two record lists that Block.ResetAndMergeFrom performs. *)
Fixpoint merge_records (l1 : list (Z * Z)) : list (Z * Z) -> list (Z * Z) :=
  fix go (l2 : list (Z * Z)) : list (Z * Z) :=
    match l1, l2 with
    | [], _ => l2
    | _, [] => l1
    | kv1 :: l1', kv2 :: l2' =>
      if kv1.1 <? kv2.1 then kv1 :: merge_records l1' l2
      else if kv1.1 =? kv2.1 then (kv1.1, Z.lor kv1.2 kv2.2) :: merge_records l1' l2'
      else kv2 :: go l2'
    end.

(* A block fit to reside in the shard map. *)
Definition shard_ok (b : Block) : Prop :=
  Frozen b = true /\ blk_ok b /\ uniq b /\ 0 < Length b /\
  (length (Values b) <= Z.to_nat BLOCK_FULL_LENGTH)%nat.

(* The pending record sits above everything in the current block. *)
Definition tail_ok (m : MultiBlock) : Prop :=
  let i := Z.land (LastId m) 65535 in
  if BLOCK_FULL_LENGTH <? Length (Current m)
  then (forall k, i < k < 65536 -> cell (Values (Current m)) k = 0) /\
       Z.lor (cell (Values (Current m)) i) (LastVal m) = LastVal m
  else Forall (fun kv : Z * Z => kv.1 < i) (entries (Current m)).

Definition shards_ok (blocks : gmap Z Block) (bound : Z) : Prop :=
  forall k b, blocks !! k = Some b -> shard_ok b /\ 0 <= k < bound.

Definition mb_ok (m : MultiBlock) : Prop :=
  acc_blk (Current m) /\ blk_ok (Current m) /\ uniq (Current m) /\
  0 <= LastId m < 2 ^ 63 /\ 0 <= LastVal m < 65536 /\
  tail_ok m /\
  shards_ok (Blocks m) (Z.shiftr (LastId m) 16).

(* The value the shard map holds for an id, and the value a MultiBlock
   holds for it. *)
Definition sget (blocks : gmap Z Block) (id : Z) : Z :=
  match blocks !! Z.shiftr id 16 with
  | Some b => get b (Z.land id 65535)
  | None => 0
  end.

Definition mget (m : MultiBlock) (id : Z) : Z :=
  if id =? LastId m then LastVal m
  else if Z.shiftr id 16 =? Z.shiftr (LastId m) 16 then get (Current m) (Z.land id 65535)
  else sget (Blocks m) id.

(* A legitimate [range] order enumerates every entry of the map once. *)
Definition range_complete (range_order : gmap Z Block -> list (Z * Block)) : Prop :=
  forall blocks, range_order blocks ≡ₚ map_to_list blocks.

(* A run of appends to a MultiBlock. *)
Definition MAppends (m : MultiBlock) (l : list (Z * Z)) : res MultiBlock :=
  foldM (fun m kv => MultiBlock.Append m kv.1 kv.2) m l.

(* Every shard block in the map is frozen. *)
Definition all_frozen (m : MultiBlock) : Prop :=
  forall k b, Blocks m !! k = Some b -> Frozen b = true.

(* The MultiBlocks a program can hold: a new one, one appended to (the
   arguments being an int64 and a uint32), or the receiver of a Merge. *)
Inductive reachable (range_order : gmap Z Block -> list (Z * Block)) : MultiBlock -> Prop :=
  | reach_new : reachable range_order NewMultiBlock
  | reach_append m id val m' :
      reachable range_order m ->
      - 2 ^ 63 <= id < 2 ^ 63 -> 0 <= val < 2 ^ 32 ->
      MultiBlock.Append m id val = Ok m' ->
      reachable range_order m'
  | reach_merge X Y X' Y' :
      reachable range_order X -> reachable range_order Y ->
      MultiBlock.Merge range_order X Y = Ok (X', Y') ->
      reachable range_order X'.

Definition not_too_large {A} (r : res A) : Prop :=
  forall v, r <> Panic (MultiValTooLarge v).

(* Inputs used below: scenario S1 of the specification, and a run that
   appends twice under one id. *)
Definition S1_appends : list (Z * Z) := [(0, 1); (1, 2); (2, 65535); (65535, 7)].

Definition repeated_id_appends : list (Z * Z) := [(5, 1); (5, 2)].

(* Two small MultiBlocks: NewMultiBlock after Append(5, 4), and after
   Append(5, 1).  The sentinel record (0, 0) is in the current block and
   (5, _) is pending. *)
Definition sample_current : Block :=
  {| Length := 1; Frozen := false; Values := <[0%nat := 0]> (make BLOCK_FULL_LENGTH) |}.

Definition sample_X : MultiBlock :=
  {| Blocks := ∅; Current := sample_current; LastId := 5; LastVal := 4 |}.

Definition sample_Y : MultiBlock :=
  {| Blocks := ∅; Current := sample_current; LastId := 5; LastVal := 1 |}.

(* Scenario S5: the global node index, and a fresh way worker over it. *)
Definition S5_nodes : res MultiBlock :=
  MAppends NewMultiBlock [(10, 1); (11, 2); (12, 1)].

Definition S5_worker (nodes : MultiBlock) : wayWorker.t :=
  {| wayWorker.Ways := NewMultiBlock; wayWorker.ExtraNodes := ∅;
     wayWorker.Id := 0; wayWorker.Nodes := nodes |}.

(* What S5 observes: the node masks of the seed, the pending record and
   the lookup of the Ways MultiBlock, and the extra-nodes map. *)
Definition S5_run : res (list Z * (Z * Z * Z) * list (option Z) * nat) :=
  nodes ← S5_nodes;
  n10 ← MultiBlock.Lookup nodes 10;
  n11 ← MultiBlock.Lookup nodes 11;
  n12 ← MultiBlock.Lookup nodes 12;
  w ← wayWorker.putWay (S5_worker nodes) 100 [10; 11; 12];
  v ← MultiBlock.Lookup (wayWorker.Ways w) 100;
  Ok ([n10; n11; n12],
      (LastId (wayWorker.Ways w), LastVal (wayWorker.Ways w), v),
      [wayWorker.ExtraNodes w !! 10; wayWorker.ExtraNodes w !! 11;
       wayWorker.ExtraNodes w !! 12],
      size (wayWorker.ExtraNodes w)).

Definition sorter_start : Sorter.t := {| Sorter.lastKind := PKIND_NODE; Sorter.actions := [] |}.

(* A primitive block with one plain node and one way in a single group. *)
Definition mixed_block : PrimitiveBlock :=
  {| Primitivegroup :=
       [ {| Nodes := [ {| Node_Id := 1; Node_Lon := 0; Node_Lat := 0 |} ];
            Dense := {| Dense_Id := []; Dense_Lon := []; Dense_Lat := [] |};
            Ways := [ {| Way_Id := 100; Way_Refs := [1] |} ];
            Relations := [] |} ] |}.

(* main.go: the grid covers the Web Mercator world extent. *)
Set Warnings "-inexact-float".

Definition merc_extent : float * float := ((-20037508.34)%float, 20037508.34%float).

Set Warnings "inexact-float".

(* The stand-in projection of the run above, and the worker it starts from. *)
Definition linear_project (p : float * float) : float * float :=
  ((p.1 * 100000)%float, (p.2 * 100000)%float).

Definition world_worker : nodeWorker.t :=
  {| nodeWorker.Nodes := NewMultiBlock;
     nodeWorker.XRange := merc_extent; nodeWorker.YRange := merc_extent;
     nodeWorker.Id := 0 |}.

(* More records than the list-of-pairs mode holds: the ids 0 .. 39999,
   each with val 1. *)
Definition dense_appends : list (Z * Z) := (fun i => (Z.of_nat i, 1)) <$> seq 0 (Z.to_nat 40000).

(* [bits_in v mask]: every bit of [v] is set in [mask]. *)
Definition bits_in (v mask : Z) : Prop := Z.land mask v = v.

(* The mask putWay computes for a way: the OR of its nodes' values. *)
Definition way_mask (nodes : MultiBlock) (nds : list Z) : Z :=
  fold_left (fun acc n => Z.lor acc (mget nodes n)) nds 0.

(* The ways of a primitive block, group after group. *)
Definition ways_of (b : PrimitiveBlock) : list Way :=
  mjoin (Ways <$> Primitivegroup b).

(* A block of two ways, in two groups, over the nodes of sample_X. *)
Definition two_ways : PrimitiveBlock :=
  {| Primitivegroup := [ group_Ways [ {| Way_Id := 100; Way_Refs := [5; 6] |} ];
                         group_Ways [ {| Way_Id := 101; Way_Refs := [5] |} ] ] |}.

(* The three counts of primCount, over a list of groups. *)
Definition count_nodes (gs : list PrimitiveGroup) : Z :=
  Z.of_nat (sum_list_with (fun g => length (Nodes g) + length (Dense_Id (Dense g)))%nat gs).

Definition count_ways (gs : list PrimitiveGroup) : Z :=
  Z.of_nat (sum_list_with (fun g => length (Ways g)) gs).

Definition count_rels (gs : list PrimitiveGroup) : Z :=
  Z.of_nat (sum_list_with (fun g => length (Relations g)) gs).

(* The groups that primBlockSplit makes of one group, and the groups of
   the three blocks it builds. *)
Definition node_parts (g : PrimitiveGroup) : list PrimitiveGroup :=
  (if (0 <? length (Nodes g))%nat then [group_Nodes (Nodes g)] else [])
  ++ (if (0 <? length (Dense_Id (Dense g)))%nat then [group_Dense (Dense g)] else []).

Definition way_parts (g : PrimitiveGroup) : list PrimitiveGroup :=
  if (0 <? length (Ways g))%nat then [group_Ways (Ways g)] else [].

Definition rel_parts (g : PrimitiveGroup) : list PrimitiveGroup :=
  if (0 <? length (Relations g))%nat then [group_Relations (Relations g)] else [].

Definition node_groups (gs : list PrimitiveGroup) : list PrimitiveGroup :=
  mjoin (node_parts <$> gs).

Definition way_groups (gs : list PrimitiveGroup) : list PrimitiveGroup :=
  mjoin (way_parts <$> gs).

Definition rel_groups (gs : list PrimitiveGroup) : list PrimitiveGroup :=
  mjoin (rel_parts <$> gs).

(* Component-wise sum of the counts of a list of blocks. *)
Definition total_count (ps : list PrimitiveBlock) : Z * Z * Z :=
  foldr (fun p '(n, w, r) =>
           let '(n', w', r') := primCount p in (n' + n, w' + w, r' + r))
        (0, 0, 0) ps.

(* The reader's errors among the values received. *)
Definition read_errors {E} (received : list (BlockOrError E)) : list E :=
  omap (fun x => match x with Err e => Some e | Primitives _ => None end) received.

(* A Dispatch of a block of the given kind. *)
Definition dispatch_of (kind : Z) (a : sorter_action) : Prop :=
  exists p, a = Dispatch p /\ primitiveBlockKind p = Ok kind.

(* The shapes of the Sorter's log of actions, by phase. *)
Inductive phase_log : Z -> list sorter_action -> Prop :=
  | log_nodes ns :
      Forall (dispatch_of PKIND_NODE) ns -> phase_log PKIND_NODE ns
  | log_ways ns ws :
      Forall (dispatch_of PKIND_NODE) ns -> Forall (dispatch_of PKIND_WAY) ws ->
      phase_log PKIND_WAY (ns ++ [CollectNodes; StartWaysWorkers] ++ ws)
  | log_rels_after_nodes ns :
      Forall (dispatch_of PKIND_NODE) ns ->
      phase_log PKIND_REL (ns ++ [CollectNodes])
  | log_rels_after_ways ns ws :
      Forall (dispatch_of PKIND_NODE) ns -> Forall (dispatch_of PKIND_WAY) ws ->
      phase_log PKIND_REL (ns ++ [CollectNodes; StartWaysWorkers] ++ ws ++ [CollectWays]).

(* Delta decoding: the k-th value is the sum of the first k+1 deltas, as
   an int64. *)
Definition prefix_sums (xs : list Z) : list Z :=
  (fun k => i64 (foldr Z.add 0 (take (S k) xs))) <$> seq 0 (length xs).

(* The (id, lon, lat) triples that a group stands for: its plain nodes,
   then its dense nodes, decoded; lon and lat cut to 32 bits. *)
Definition dense_nodes (d : DenseNodes) : list (Z * Z * Z) :=
  let n := length (Dense_Id d) in
  zip (zip (prefix_sums (Dense_Id d)) (i32 <$> prefix_sums (take n (Dense_Lon d))))
      (i32 <$> prefix_sums (take n (Dense_Lat d))).

Definition group_nodes (g : PrimitiveGroup) : list (Z * Z * Z) :=
  ((fun n => (Node_Id n, i32 (Node_Lon n), i32 (Node_Lat n))) <$> Nodes g)
  ++ dense_nodes (Dense g).

(* putNode on a triple. *)
Definition putNode3 (Project : float * float -> float * float)
    (w : nodeWorker.t) (n : Z * Z * Z) : res nodeWorker.t :=
  nodeWorker.putNode Project w n.1.1 n.1.2 n.2.

(* A group of three dense nodes, delta-coded: ids 10, 11, 13. *)
Definition dense_block : PrimitiveBlock :=
  {| Primitivegroup :=
       [ group_Dense {| Dense_Id := [10; 1; 2]; Dense_Lon := [5; -1; 0];
                         Dense_Lat := [7; 0; 1] |} ] |}.

(** * Verification *)

(** Small runs of the definitions on the inputs of the repository's tests. *)

Example TestAppend_run :
  (b ← Block.Append NewAccumulationBlock 2 65535; Block.Lookup b 2) = Ok 65535.
Proof. vm_compute. reflexivity. Qed.

Example TestUnAppend_run :
  (b ← Appends NewAccumulationBlock [(1, 1); (2, 2)];
   '(b1, i1, v1) ← Block.UnAppend b;
   '(b2, i2, v2) ← Block.UnAppend b1;
   Ok (i1, v1, i2, v2)) = Ok (2, 2, 1, 1).
Proof. vm_compute. reflexivity. Qed.

Example TestIterator_run :
  (b ← Appends NewAccumulationBlock [(2, 15); (7, 1); (8, 10); (12, 5)];
   c ← Block.ResetAndMergeFrom NewAccumulationBlock b NewEmptyBlock;
   v2 ← Block.Lookup c 2; v7 ← Block.Lookup c 7; v8 ← Block.Lookup c 8; v12 ← Block.Lookup c 12;
   v9 ← Block.Lookup c 9;
   Ok (Length c, [v2; v7; v8; v12; v9])) = Ok (4, [15; 1; 10; 5; 0]).
Proof. vm_compute. reflexivity. Qed.

(** ** The constants of block.go, evaluated *)

Ltac consts :=
  unfold BLOCK_IDX_BITS, BLOCK_VAL_BITS, BLOCK_IDX_MASK, BLOCK_VAL_MASK,
         BLOCK_FULL_LENGTH, BLOCK_PACKING_BITS, BLOCK_PACKING_MASK in *;
  change (Z.shiftl 1 15) with 32768 in *;
  change (Z.shiftl 1 16) with 65536 in *.

Ltac clia := consts; lia.

(** ** Bit-level facts *)

Lemma testbit_small v n k : 0 <= v < 2 ^ k -> k <= n -> Z.testbit v n = false.
Proof.
  intros [H0 Hk] Hn.
  destruct (Z.eq_dec v 0) as [->|Hv]; [apply Z.bits_0|].
  apply Z.bits_above_log2; [lia|].
  assert (0 <= k) by (destruct (Z.le_gt_cases 0 k); [done|];
    rewrite Z.pow_neg_r in Hk by lia; lia).
  apply Z.lt_le_trans with k; [|done].
  apply Z.log2_lt_pow2; lia.
Qed.

Lemma testbit_land_mask v n : 0 <= n -> Z.testbit (Z.land v 65535) n = Z.testbit v n && (n <? 16).
Proof.
  intros Hn. rewrite Z.land_spec. f_equal.
  change 65535 with (Z.ones 16). rewrite Z.testbit_ones_nonneg by lia. done.
Qed.

Lemma testbit_u32 v n : 0 <= n -> Z.testbit (u32 v) n = (n <? 32) && Z.testbit v n.
Proof. intros Hn. unfold u32. apply Z.testbit_mod_pow2; lia. Qed.

Lemma land_mask_range v : 0 <= Z.land v 65535 < 65536.
Proof.
  change 65535 with (Z.ones 16). rewrite Z.land_ones by lia.
  apply Z.mod_pos_bound. lia.
Qed.

Lemma half_range v h : 0 <= half v h < 65536.
Proof. apply land_mask_range. Qed.

Lemma u32_small v : 0 <= v < 2 ^ 32 -> u32 v = v.
Proof. intros. unfold u32. apply Z.mod_small. lia. Qed.

Lemma u32_range v : 0 <= u32 v < 2 ^ 32.
Proof. unfold u32. apply Z.mod_pos_bound. lia. Qed.

Ltac bitblast :=
  apply Z.bits_inj'; intros ?n ?Hn;
  repeat first
    [ rewrite testbit_land_mask by lia
    | rewrite testbit_u32 by lia
    | rewrite Z.lor_spec
    | rewrite Z.land_spec
    | rewrite Z.shiftr_spec by lia
    | rewrite Z.shiftl_spec by lia
    | rewrite Z.bits_0 ].

Lemma unpack_pack k v :
  0 <= k < 65536 -> 0 <= v < 65536 -> unpack (pack (k, v)) = (k, v).
Proof.
  intros Hk Hv. unfold unpack, pack; cbn [fst snd]. f_equal.
  - bitblast.
    rewrite (testbit_small v (n + 16) 16) by lia.
    replace (n + 16 - 16) with n by lia.
    destruct (Z.ltb_spec (n + 16) 32); cbn; rewrite ?orb_false_r; [done|].
    symmetry. apply (testbit_small k n 16); lia.
  - bitblast.
    destruct (Z.ltb_spec n 16); cbn.
    + rewrite andb_true_r. rewrite (Z.testbit_neg_r _ (n - 16)) by lia.
      by rewrite andb_false_r.
    + rewrite andb_false_r. symmetry. apply (testbit_small v n 16); lia.
Qed.

Lemma pack_range k v : 0 <= k < 65536 -> 0 <= v < 65536 -> 0 <= pack (k, v) < 2 ^ 32.
Proof.
  intros Hk Hv. unfold pack; cbn [fst snd].
  pose proof (u32_range (Z.shiftl k 16)) as Hu.
  split.
  - apply Z.lor_nonneg. lia.
  - destruct (Z.eq_dec (Z.lor (u32 (Z.shiftl k 16)) v) 0) as [->|Hne]; [lia|].
    assert (0 <= Z.lor (u32 (Z.shiftl k 16)) v) by (apply Z.lor_nonneg; lia).
    apply Z.log2_lt_pow2; [lia|].
    rewrite Z.log2_lor by lia.
    apply Z.max_lub_lt.
    + destruct (Z.eq_dec (u32 (Z.shiftl k 16)) 0) as [->|?]; [done|].
      apply Z.log2_lt_pow2; lia.
    + destruct (Z.eq_dec v 0) as [->|?]; [done|].
      apply Z.log2_lt_pow2; lia.
Qed.

Lemma unpack_range w : 0 <= w < 2 ^ 32 -> 0 <= (unpack w).1 < 65536 /\ 0 <= (unpack w).2 < 65536.
Proof.
  intros Hw. unfold unpack; cbn [fst snd]. split; [|apply land_mask_range].
  rewrite Z.shiftr_div_pow2 by lia. split.
  - apply Z.div_pos; lia.
  - apply Z.div_lt_upper_bound; lia.
Qed.

(* Writing [val] into half [h] of a word ORs it into that half and leaves
   the other half alone. *)
Lemma half_write old val h h' :
  0 <= val < 65536 -> (h = 0 \/ h = 1) -> (h' = 0 \/ h' = 1) ->
  half (Z.lor old (u32 (Z.shiftl val (h * 16)))) h'
  = if h' =? h then Z.lor (half old h') val else half old h'.
Proof.
  intros Hv Hh Hh'. unfold half.
  destruct (Z.eqb_spec h' h) as [->|Hne].
  - bitblast.
    replace (n + h * 16 - h * 16) with n by lia.
    destruct (Z.ltb_spec n 16); cbn.
    + rewrite !andb_true_r.
      assert ((n + h * 16 <? 32) = true) as -> by (apply Z.ltb_lt; lia). done.
    + rewrite !andb_false_r. symmetry. cbn. apply (testbit_small val n 16); lia.
  - bitblast.
    destruct (Z.ltb_spec n 16); cbn; [|by rewrite !andb_false_r].
    rewrite !andb_true_r.
    assert (Z.testbit val (n + h' * 16 - h * 16) = false) as ->.
    { destruct Hh as [->| ->], Hh' as [->| ->]; try lia.
      - apply (testbit_small val _ 16); lia.
      - apply Z.testbit_neg_r; lia. }
    by rewrite andb_false_r, orb_false_r.
Qed.

Lemma halves_zero v : 0 <= v < 2 ^ 32 -> half v 0 = 0 -> half v 1 = 0 -> v = 0.
Proof.
  intros Hv H0 H1. apply Z.bits_inj'; intros n Hn. rewrite Z.bits_0.
  destruct (Z.ltb_spec n 16).
  - assert (Z.testbit (half v 0) n = false) as Hb by (rewrite H0; apply Z.bits_0).
    unfold half in Hb. rewrite testbit_land_mask, Z.shiftr_spec in Hb by lia.
    replace (n + 0 * 16) with n in Hb by lia.
    assert ((n <? 16) = true) as Hlt by (apply Z.ltb_lt; lia).
    rewrite Hlt, andb_true_r in Hb. done.
  - destruct (Z.ltb_spec n 32).
    + assert (Z.testbit (half v 1) (n - 16) = false) as Hb by (rewrite H1; apply Z.bits_0).
      unfold half in Hb. rewrite testbit_land_mask, Z.shiftr_spec in Hb by lia.
      replace (n - 16 + 1 * 16) with n in Hb by lia.
      assert ((n - 16 <? 16) = true) as Hlt by (apply Z.ltb_lt; lia).
      rewrite Hlt, andb_true_r in Hb. done.
    + apply (testbit_small v n 32); lia.
Qed.

Lemma half_zero h : half 0 h = 0.
Proof. unfold half. by rewrite Z.shiftr_0_l. Qed.

(* Iterator.Index arithmetic of the packed array: cell k lives in half (k & 1) of
   word (k >> 1). *)
Lemma split_index k : 0 <= k -> k = 2 * Z.shiftr k 1 + Z.land k 1 /\ (Z.land k 1 = 0 \/ Z.land k 1 = 1).
Proof.
  intros Hk. rewrite Z.shiftr_div_pow2 by lia.
  change 1 with (Z.ones 1) at 2 3 4. rewrite Z.land_ones by lia.
  change (2 ^ 1) with 2. pose proof (Z.div_mod k 2). pose proof (Z.mod_pos_bound k 2). lia.
Qed.

Lemma join_index j h : 0 <= j -> (h = 0 \/ h = 1) ->
  Z.lor (Z.shiftl j 1) h = 2 * j + h /\ Z.shiftr (2 * j + h) 1 = j /\ Z.land (2 * j + h) 1 = h.
Proof.
  intros Hj Hh.
  assert (Z.shiftr (2 * j + h) 1 = j) as E1.
  { rewrite Z.shiftr_div_pow2 by lia. change (2 ^ 1) with 2.
    symmetry. apply (Z.div_unique _ 2 j h); lia. }
  assert (Z.land (2 * j + h) 1 = h) as E2.
  { change 1 with (Z.ones 1). rewrite Z.land_ones by lia. change (2 ^ 1) with 2.
    symmetry. apply (Z.mod_unique _ 2 j h); lia. }
  split; [|done].
  rewrite Z.shiftl_mul_pow2 by lia. change (2 ^ 1) with 2.
  destruct Hh as [->| ->]; [rewrite Z.lor_0_r; lia|].
  replace (j * 2) with (2 * j) by lia.
  apply Z.bits_inj'; intros n Hn.
  rewrite Z.lor_spec.
  destruct (Z.eq_dec n 0) as [->|Hn0].
  - rewrite Z.testbit_even_0. rewrite Z.testbit_odd_0. done.
  - replace n with (Z.succ (n - 1)) by lia.
    rewrite Z.testbit_even_succ, Z.testbit_odd_succ by lia.
    change 1 with (2 * 0 + 1) at 2. rewrite Z.testbit_odd_succ by lia.
    by rewrite Z.bits_0, orb_false_r.
Qed.

(** ** Slices and the outcome monad *)

Ltac rsimpl := cbn [mbind res_bind mret res_ret].

Lemma foldM_app {A B} (f : B -> A -> res B) acc l1 l2 :
  foldM f acc (l1 ++ l2) = (acc' ← foldM f acc l1; foldM f acc' l2).
Proof.
  revert acc. induction l1 as [|x l1 IH]; intros acc; [done|].
  cbn. destruct (f acc x); cbn; auto.
Qed.

Lemma zget_ok arr i :
  0 <= i < Z.of_nat (length arr) -> zget arr i = Ok (nth (Z.to_nat i) arr 0).
Proof.
  intros Hi. unfold zget.
  destruct (Z.ltb_spec i 0); [lia|].
  rewrite nth_lookup.
  destruct (lookup_lt_is_Some_2 arr (Z.to_nat i)) as [v ->]; [lia|]. done.
Qed.

Lemma zset_ok arr i x :
  0 <= i < Z.of_nat (length arr) -> zset arr i x = Ok (<[Z.to_nat i := x]> arr).
Proof.
  intros Hi. unfold zset.
  destruct (Z.ltb_spec i 0); [lia|].
  destruct (Z.leb_spec (Z.of_nat (length arr)) i); [lia|]. done.
Qed.

Lemma slice_to_ok arr n :
  0 <= n <= Z.of_nat (length arr) -> slice_to arr n = Ok (take (Z.to_nat n) arr).
Proof.
  intros Hn. unfold slice_to.
  destruct (Z.ltb_spec n 0); [lia|].
  destruct (Z.ltb_spec (Z.of_nat (length arr)) n); [lia|]. done.
Qed.

Lemma length_make n : length (make n) = Z.to_nat n.
Proof. unfold make. apply length_replicate. Qed.

Lemma length_copy dst src : length (copy dst src) = length dst.
Proof.
  unfold copy. rewrite length_app, length_take, length_drop. lia.
Qed.

Lemma copy_same_length dst src : length dst = length src -> copy dst src = src.
Proof.
  intros E. unfold copy. rewrite E, firstn_all, drop_ge by lia. apply app_nil_r.
Qed.

Lemma take_copy dst src n :
  (n <= length src)%nat -> (length src <= length dst)%nat ->
  take n (copy dst src) = take n src.
Proof.
  intros Hn Hl. unfold copy. rewrite (take_ge src) by lia.
  rewrite take_app_le by lia. done.
Qed.

Lemma nth_replicate_0 (n i : nat) : nth i (replicate n 0) 0 = 0.
Proof.
  rewrite nth_lookup. destruct (replicate n 0 !! i) eqn:E; [|done].
  apply lookup_replicate in E as [-> _]. done.
Qed.

Lemma cell_make n k : cell (make n) k = 0.
Proof. unfold cell, make. rewrite nth_replicate_0. apply half_zero. Qed.

Lemma cell_replicate n k : cell (replicate n 0) k = 0.
Proof. unfold cell. rewrite nth_replicate_0. apply half_zero. Qed.

Lemma cell_range vs k : 0 <= cell vs k < 65536.
Proof. apply half_range. Qed.

(** ** writePacked *)

Lemma words_replicate n : words (replicate n 0).
Proof. apply Forall_replicate. lia. Qed.

Lemma words_make n : words (make n).
Proof. apply words_replicate. Qed.

Lemma words_nth vs i : words vs -> 0 <= nth i vs 0 < 2 ^ 32.
Proof.
  intros Hw. rewrite nth_lookup. destruct (vs !! i) eqn:E; cbn; [|lia].
  eapply (Forall_lookup_1 _ _ _ _ Hw E).
Qed.

Lemma lor_u32_range a b : 0 <= a < 2 ^ 32 -> 0 <= Z.lor a (u32 b) < 2 ^ 32.
Proof.
  intros Ha. pose proof (u32_range b) as Hb.
  split; [apply Z.lor_nonneg; lia|].
  destruct (Z.eq_dec (Z.lor a (u32 b)) 0) as [->|Hne]; [lia|].
  assert (0 <= Z.lor a (u32 b)) by (apply Z.lor_nonneg; lia).
  apply Z.log2_lt_pow2; [lia|].
  rewrite Z.log2_lor by lia.
  apply Z.max_lub_lt.
  - destruct (Z.eq_dec a 0) as [->|?]; [done|]. apply Z.log2_lt_pow2; lia.
  - destruct (Z.eq_dec (u32 b) 0) as [->|?]; [done|]. apply Z.log2_lt_pow2; lia.
Qed.

Lemma writePacked_ok arr id val :
  0 <= id < 2 * Z.of_nat (length arr) -> 0 <= val < 65536 ->
  exists arr', writePacked arr id val = Ok arr' /\
    length arr' = length arr /\
    (words arr -> words arr') /\
    forall k, 0 <= k -> cell arr' k = if k =? id then Z.lor (cell arr k) val else cell arr k.
Proof.
  intros Hid Hval.
  destruct (split_index id) as [Eid Hh]; [lia|].
  unfold writePacked. consts.
  set (j := Z.shiftr id 1) in *. set (h := Z.land id 1) in *.
  assert (0 <= j < Z.of_nat (length arr)) as Hj by lia.
  rewrite zget_ok by done. cbn.
  rewrite zset_ok by done.
  eexists; split; [done|]. split; [apply length_insert|]. split.
  { intros Hw. apply Forall_insert; [done|]. apply lor_u32_range. by apply words_nth. }
  intros k Hk.
  destruct (split_index k) as [Ek Hkh]; [lia|].
  unfold cell at 1.
  destruct (Z.eq_dec (Z.shiftr k 1) j) as [Ej|Ej].
  - rewrite Ej, nth_lookup, list_lookup_insert_eq by lia. cbn.
    rewrite half_write by done.
    unfold cell. rewrite Ej.
    destruct (Z.eqb_spec (Z.land k 1) h), (Z.eqb_spec k id); try done; lia.
  - rewrite nth_lookup, list_lookup_insert_ne by lia. rewrite <- nth_lookup.
    destruct (Z.eqb_spec k id) as [->|]; [done|]. done.
Qed.

(** ** The two readings of a record list *)

Lemma or_vals_acc id l acc :
  fold_left (fun acc kv => if kv.1 =? id then Z.lor acc kv.2 else acc) l acc
  = Z.lor acc (or_vals id l).
Proof.
  unfold or_vals. revert acc. induction l as [|kv l IH]; intros acc; cbn [fold_left].
  - by rewrite Z.lor_0_r.
  - rewrite (IH (if kv.1 =? id then Z.lor acc kv.2 else acc)).
    rewrite (IH (if kv.1 =? id then Z.lor 0 kv.2 else 0)).
    destruct (kv.1 =? id); [|done].
    by rewrite Z.lor_0_l, Z.lor_assoc.
Qed.

Lemma or_vals_nil id : or_vals id [] = 0.
Proof. done. Qed.

Lemma or_vals_cons id kv l :
  or_vals id (kv :: l) = Z.lor (if kv.1 =? id then kv.2 else 0) (or_vals id l).
Proof.
  unfold or_vals at 1. cbn. rewrite or_vals_acc.
  destruct (kv.1 =? id); done.
Qed.

Lemma or_vals_app id l1 l2 :
  or_vals id (l1 ++ l2) = Z.lor (or_vals id l1) (or_vals id l2).
Proof.
  unfold or_vals at 1. rewrite fold_left_app. apply or_vals_acc.
Qed.

Lemma or_vals_snoc id l kv :
  or_vals id (l ++ [kv]) = if kv.1 =? id then Z.lor (or_vals id l) kv.2 else or_vals id l.
Proof.
  rewrite or_vals_app, or_vals_cons, or_vals_nil, Z.lor_0_r.
  destruct (kv.1 =? id); [done|]. by rewrite Z.lor_0_r.
Qed.

Lemma last_val_snoc id l kv :
  last_val id (l ++ [kv]) = if kv.1 =? id then kv.2 else last_val id l.
Proof. unfold last_val. by rewrite fold_left_app. Qed.

Lemma last_val_absent id l :
  Forall (fun kv => kv.1 <> id) l -> last_val id l = 0.
Proof.
  induction l as [|kv l IH] using rev_ind; [done|].
  rewrite Forall_app, Forall_singleton. intros [Hl Hkv].
  rewrite last_val_snoc. destruct (Z.eqb_spec kv.1 id); [done|]. auto.
Qed.

Lemma or_vals_absent id l :
  Forall (fun kv => kv.1 <> id) l -> or_vals id l = 0.
Proof.
  induction l as [|kv l IH] using rev_ind; [done|].
  rewrite Forall_app, Forall_singleton. intros [Hl Hkv].
  rewrite or_vals_snoc. destruct (Z.eqb_spec kv.1 id); [done|]. auto.
Qed.

Lemma or_vals_range id l :
  Forall (fun kv => 0 <= kv.2 < 65536) l -> 0 <= or_vals id l < 65536.
Proof.
  induction l as [|kv l IH] using rev_ind; [cbn; lia|].
  rewrite Forall_app, Forall_singleton. intros [Hl Hkv].
  rewrite or_vals_snoc. destruct (kv.1 =? id); [|auto].
  specialize (IH Hl).
  split; [apply Z.lor_nonneg; lia|].
  destruct (Z.eq_dec (Z.lor (or_vals id l) kv.2) 0) as [->|Hne]; [lia|].
  assert (0 <= Z.lor (or_vals id l) kv.2) by (apply Z.lor_nonneg; lia).
  change 65536 with (2 ^ 16). apply Z.log2_lt_pow2; [lia|].
  rewrite Z.log2_lor by lia.
  apply Z.max_lub_lt.
  - destruct (Z.eq_dec (or_vals id l) 0) as [->|?]; [done|]. apply Z.log2_lt_pow2; lia.
  - destruct (Z.eq_dec kv.2 0) as [->|?]; [done|]. apply Z.log2_lt_pow2; lia.
Qed.

Lemma strictly_ascending_ascending l : strictly_ascending l -> ascending l.
Proof.
  unfold strictly_ascending, ascending. induction 1 as [|x l' Hs IH Hx]; constructor; [done|].
  eapply Forall_impl; [exact Hx|]. cbn. lia.
Qed.

Lemma ascending_snoc l kv :
  ascending (l ++ [kv]) <-> ascending l /\ Forall (fun kv' => kv'.1 <= kv.1) l.
Proof.
  unfold ascending. rewrite fmap_app, StronglySorted_app. cbn. split.
  - intros (H & Hl & _). split; [done|]. apply Forall_forall. intros kv' Hin.
    apply H; [|by left]. by apply list_elem_of_fmap_2.
  - intros (Hl & H). split; [|split; [done|repeat constructor]].
    intros x1 x2 Hx1 Hx2. apply list_elem_of_singleton in Hx2 as ->.
    apply list_elem_of_fmap in Hx1 as (kv' & -> & Hin).
    rewrite Forall_forall in H. by apply H.
Qed.

Lemma strictly_ascending_snoc l kv :
  strictly_ascending (l ++ [kv]) <-> strictly_ascending l /\ Forall (fun kv' => kv'.1 < kv.1) l.
Proof.
  unfold strictly_ascending. rewrite fmap_app, StronglySorted_app. cbn. split.
  - intros (H & Hl & _). split; [done|]. apply Forall_forall. intros kv' Hin.
    apply H; [|by left]. by apply list_elem_of_fmap_2.
  - intros (Hl & H). split; [|split; [done|repeat constructor]].
    intros x1 x2 Hx1 Hx2. apply list_elem_of_singleton in Hx2 as ->.
    apply list_elem_of_fmap in Hx1 as (kv' & -> & Hin).
    rewrite Forall_forall in H. by apply H.
Qed.

(* With unique ids the last value under an id is the OR of all of them. *)
Lemma strict_or_last id l : strictly_ascending l -> or_vals id l = last_val id l.
Proof.
  induction l as [|kv l IH] using rev_ind; [done|].
  rewrite strictly_ascending_snoc. intros [Hl Hlt].
  rewrite or_vals_snoc, last_val_snoc.
  destruct (Z.eqb_spec kv.1 id) as [<-|]; [|auto].
  rewrite or_vals_absent; [done|].
  eapply Forall_impl; [exact Hlt|]. cbn. lia.
Qed.

(** ** Binary search *)

Lemma search_go_S n x y arr lb :
  search_go (S n) (x :: y :: arr) lb =
  if lb <? key (nth (length (x :: y :: arr) / 2) (x :: y :: arr) 0)
  then search_go n (take (length (x :: y :: arr) / 2) (x :: y :: arr)) lb
  else search_go n (drop (length (x :: y :: arr) / 2) (x :: y :: arr)) lb.
Proof. reflexivity. Qed.

Lemma half_length_bounds (n : nat) : (2 <= n)%nat -> (1 <= n / 2 < n)%nat.
Proof.
  intros Hn. split.
  - apply (Nat.div_le_lower_bound n 2 1); lia.
  - apply Nat.div_lt; lia.
Qed.

Lemma search_go_fuel n m arr lb :
  (length arr <= n)%nat -> (length arr <= m)%nat ->
  search_go n arr lb = search_go m arr lb.
Proof.
  revert m arr. induction n as [|n IH]; intros m arr Hn Hm.
  - destruct arr; [by destruct m|cbn in Hn; lia].
  - destruct m as [|m]; [destruct arr; [done|cbn in Hm; lia]|].
    destruct arr as [|x [|y arr]]; [done..|].
    rewrite !search_go_S.
    set (a := x :: y :: arr) in *.
    pose proof (half_length_bounds (length a)) as Hh.
    assert (2 <= length a)%nat as H2 by (cbn; lia). specialize (Hh H2).
    destruct (lb <? _); apply IH; rewrite ?length_take, ?length_drop; lia.
Qed.

Lemma search_nil lb : search [] lb = 0.
Proof. done. Qed.

Lemma search_one x lb : search [x] lb = x.
Proof. done. Qed.

Lemma search_eq arr lb :
  (2 <= length arr)%nat ->
  search arr lb =
  if lb <? key (nth (length arr / 2) arr 0)
  then search (take (length arr / 2) arr) lb
  else search (drop (length arr / 2) arr) lb.
Proof.
  intros H2. unfold search at 1.
  destruct arr as [|x [|y arr]]; [cbn in H2; lia..|].
  change (length (x :: y :: arr)) with (S (length (y :: arr))) at 1.
  rewrite search_go_S.
  set (a := x :: y :: arr) in *.
  pose proof (half_length_bounds (length a) H2) as Hh.
  unfold search.
  destruct (lb <? _); apply search_go_fuel; rewrite ?length_take, ?length_drop;
    change (length (y :: arr)) with (pred (length a)); lia.
Qed.

Lemma nth_elem_of (arr : list Z) i : (i < length arr)%nat -> arr !! i = Some (nth i arr 0).
Proof.
  intros Hi. rewrite nth_lookup. by destruct (lookup_lt_is_Some_2 arr i Hi) as [v ->].
Qed.

(* The search returns the last record whose id is at most [lb] ... *)
Lemma search_last_le lb l1 x l2 :
  Forall (fun w => key w <= lb) (l1 ++ [x]) ->
  Forall (fun w => lb < key w) l2 ->
  search (l1 ++ x :: l2) lb = x.
Proof.
  remember (length (l1 ++ x :: l2)) as n eqn:En.
  revert l1 l2 En. induction n as [n IH] using lt_wf_ind. intros l1 l2 En H1 H2.
  destruct (decide (2 <= n)%nat) as [Hn|Hn].
  2:{ destruct l1 as [|a l1]; [|rewrite length_app in En; cbn in En; lia].
      destruct l2; [done|cbn in En; lia]. }
  rewrite search_eq by lia. rewrite <- En.
  pose proof (half_length_bounds n Hn) as Hh.
  set (m := (n / 2)%nat) in *.
  assert ((l1 ++ x :: l2) !! m = Some (nth m (l1 ++ x :: l2) 0)) as Hnth
    by (apply nth_elem_of; lia).
  set (w := nth m (l1 ++ x :: l2) 0) in *.
  destruct (decide (m <= length l1)%nat) as [Hm|Hm].
  - assert (key w <= lb) as Hk.
    { rewrite (cons_middle x), app_assoc in Hnth.
      rewrite lookup_app_l in Hnth by (rewrite length_app; cbn [length]; lia).
      eapply (Forall_lookup_1 _ _ _ _ H1 Hnth). }
    destruct (Z.ltb_spec lb (key w)); [lia|].
    rewrite drop_app_le by lia.
    apply (IH (length (drop m l1 ++ x :: l2))); [|done| |done].
    + rewrite length_app, length_drop. rewrite length_app in En.
      cbn [length] in *. lia.
    + apply Forall_app in H1 as [H1 Hx]. apply Forall_app. split; [|done].
      by apply Forall_drop.
  - assert (lb < key w) as Hk.
    { rewrite lookup_app_r in Hnth by lia.
      destruct (m - length l1)%nat as [|j] eqn:Ej; [lia|].
      change ((x :: l2) !! S j) with (l2 !! j) in Hnth.
      eapply (Forall_lookup_1 _ _ _ _ H2 Hnth). }
    destruct (Z.ltb_spec lb (key w)); [|lia].
    rewrite take_app_ge by lia.
    destruct (m - length l1)%nat as [|j] eqn:Ej; [lia|]. cbn [take firstn].
    apply (IH (length (l1 ++ x :: take j l2))); [|done|done|].
    + rewrite length_app. rewrite length_app in En.
      cbn [length] in *. rewrite length_take. lia.
    + by apply Forall_take.
Qed.

(* ... and the first record when every id is above [lb]. *)
Lemma search_all_gt lb x l :
  Forall (fun w => lb < key w) (x :: l) -> search (x :: l) lb = x.
Proof.
  remember (length (x :: l)) as n eqn:En.
  revert l En. induction n as [n IH] using lt_wf_ind. intros l En H.
  destruct l as [|y l]; [done|].
  assert (2 <= n)%nat as Hn by (cbn in En; lia).
  rewrite search_eq by (cbn; lia). rewrite <- En.
  pose proof (half_length_bounds n Hn) as Hh.
  set (m := (n / 2)%nat) in *.
  assert ((x :: y :: l) !! m = Some (nth m (x :: y :: l) 0)) as Hnth
    by (apply nth_elem_of; lia).
  pose proof (Forall_lookup_1 _ _ _ _ H Hnth) as Hk. cbn beta in Hk.
  destruct (Z.ltb_spec lb (key (nth m (x :: y :: l) 0))); [|lia].
  destruct m as [|j] eqn:Em; [lia|]. cbn [take firstn].
  apply (IH (length (x :: take j (y :: l)))); [|done|].
  - cbn [length]. rewrite length_take. cbn [length]. cbn [length] in En. lia.
  - apply Forall_cons in H as [Hx Hl]. apply Forall_cons. split; [done|].
    by apply Forall_take.
Qed.

Lemma sorted_split ws id :
  sorted_words ws ->
  exists l1 l2, ws = l1 ++ l2 /\
    Forall (fun w => key w <= id) l1 /\ Forall (fun w => id < key w) l2.
Proof.
  unfold sorted_words. induction ws as [|w ws IH]; intros Hs.
  - exists [], []. by repeat split.
  - rewrite fmap_cons in Hs. apply StronglySorted_cons in Hs as [Hw Hs].
    destruct (Z.le_gt_cases (key w) id) as [Hle|Hgt].
    + destruct (IH Hs) as (l1 & l2 & -> & H1 & H2).
      exists (w :: l1), l2. repeat split; [by constructor|done].
    + exists [], (w :: ws). repeat split; [constructor|].
      constructor; [lia|]. rewrite Forall_fmap in Hw.
      eapply Forall_impl; [exact Hw|]. cbn. lia.
Qed.

Lemma last_val_app_absent id l l' :
  Forall (fun kv => kv.1 <> id) l' -> last_val id (l ++ l') = last_val id l.
Proof.
  induction l' as [|kv l' IH] using rev_ind; [by rewrite app_nil_r|].
  rewrite Forall_app, Forall_singleton. intros [Hl Hkv].
  rewrite app_assoc, last_val_snoc.
  destruct (Z.eqb_spec kv.1 id); [done|]. auto.
Qed.

Lemma search_last_val ws id :
  sorted_words ws ->
  (if key (search ws id) =? id then Z.land (search ws id) 65535 else 0)
  = last_val id (unpack <$> ws).
Proof.
  intros Hs. destruct (sorted_split ws id Hs) as (l1 & l2 & -> & H1 & H2).
  assert (Forall (fun kv : Z * Z => kv.1 <> id) (unpack <$> l2)) as Habs2.
  { rewrite Forall_fmap. eapply Forall_impl; [exact H2|]. cbn. unfold key. lia. }
  rewrite fmap_app, last_val_app_absent by done.
  destruct l1 as [|x l1 _] using rev_ind.
  - cbn [app fmap list_fmap]. change (last_val id []) with 0.
    destruct l2 as [|y l2]; [rewrite search_nil; by destruct (_ =? _)|].
    rewrite search_all_gt by done.
    apply Forall_cons in H2 as [Hy _].
    destruct (Z.eqb_spec (key y) id); [lia|done].
  - rewrite <- app_assoc. cbn [app]. rewrite search_last_le by done.
    rewrite fmap_app. change (unpack <$> [x]) with [unpack x].
    rewrite last_val_snoc. cbn [unpack fst snd].
    fold (key x). destruct (Z.eqb_spec (key x) id) as [E|E]; [done|].
    symmetry. apply last_val_absent.
    apply Forall_app in H1 as [H1 Hx]. apply Forall_inv in Hx. cbn beta in Hx.
    unfold sorted_words in Hs. rewrite !fmap_app in Hs.
    apply StronglySorted_app_1_l in Hs.
    apply StronglySorted_app in Hs as (Hlt & _ & _).
    rewrite Forall_fmap. apply Forall_forall. intros w Hw. cbn. fold (key w).
    specialize (Hlt (key w) (key x)).
    assert (key w <= key x); [|lia].
    apply Hlt; [by apply list_elem_of_fmap_2|]. cbn. by left.
Qed.

Lemma ascending_sorted_words ws : ascending (unpack <$> ws) <-> sorted_words ws.
Proof.
  unfold ascending, sorted_words.
  rewrite <- list_fmap_compose.
  assert (fst ∘ unpack = key) as -> by done. done.
Qed.

(** ** Block.Lookup reads the abstract content *)

Lemma shiftr1_bounds id : 0 <= id < 65536 -> 0 <= Z.shiftr id 1 < 32768.
Proof.
  intros H. rewrite Z.shiftr_div_pow2 by lia. change (2 ^ 1) with 2.
  split; [apply Z.div_pos; lia|]. apply Z.div_lt_upper_bound; lia.
Qed.

Lemma Lookup_get b id :
  blk_ok b -> 0 <= id < 65536 -> Block.Lookup b id = Ok (get b id).
Proof.
  intros [Hw Hb] Hid. unfold Block.Lookup, get.
  assert ((BLOCK_IDX_MASK <? id) = false) as -> by (apply Z.ltb_ge; clia).
  destruct (BLOCK_FULL_LENGTH <? Length b) eqn:Hmode.
  - destruct Hb as [HL Hlen].
    pose proof (shiftr1_bounds id Hid).
    rewrite zget_ok by (consts; lia). cbn. consts. done.
  - destruct Hb as [HL Hasc].
    rewrite slice_to_ok by done. cbn.
    unfold entries in *. apply ascending_sorted_words in Hasc.
    pose proof (search_last_val _ id Hasc) as E. unfold key in E. consts.
    rewrite <- E. by destruct (_ =? _).
Qed.

(** ** Block.Append, mode by mode *)

Lemma acc_blk_mk L vs :
  length vs = Z.to_nat BLOCK_FULL_LENGTH ->
  acc_blk {| Length := L; Frozen := false; Values := vs |}.
Proof. done. Qed.

Lemma transition_fold kvs tmp :
  words kvs -> 65536 <= 2 * Z.of_nat (length tmp) ->
  exists tmp',
    foldM (fun tmp kv =>
             writePacked tmp (Z.shiftr kv BLOCK_VAL_BITS) (Z.land kv BLOCK_VAL_MASK))
          tmp kvs = Ok tmp' /\
    length tmp' = length tmp /\
    (words tmp -> words tmp') /\
    forall k, 0 <= k -> cell tmp' k = Z.lor (cell tmp k) (or_vals k (unpack <$> kvs)).
Proof.
  revert tmp. induction kvs as [|kv kvs IH]; intros tmp Hkvs Hlen.
  - exists tmp. repeat split; [done|]. intros k Hk. cbn. by rewrite Z.lor_0_r.
  - apply Forall_cons in Hkvs as [Hkv Hkvs].
    destruct (unpack_range kv Hkv) as [Hk1 Hk2]. unfold unpack in Hk1, Hk2; cbn in Hk1, Hk2.
    cbn [foldM]. consts.
    destruct (writePacked_ok tmp (Z.shiftr kv 16) (Z.land kv 65535)) as (tmp1 & -> & Hl1 & Hw1 & Hc1);
      [lia|lia|].
    rsimpl. destruct (IH tmp1 Hkvs) as (tmp' & -> & Hl' & Hw' & Hc'); [lia|].
    exists tmp'. split; [done|]. split; [lia|]. split; [auto|].
    intros k Hk. rewrite Hc', Hc1 by done.
    rewrite fmap_cons, or_vals_cons. cbn [unpack fst snd].
    destruct (Z.eqb_spec k (Z.shiftr kv 16)) as [->|Hne].
    + rewrite Z.eqb_refl. by rewrite Z.lor_assoc.
    + destruct (Z.eqb_spec (Z.shiftr kv 16) k); [lia|]. by rewrite Z.lor_0_l.
Qed.

Lemma Append_pairs b id val :
  acc_blk b -> 0 <= Length b < BLOCK_FULL_LENGTH ->
  0 <= id < 65536 -> 0 <= val < 65536 ->
  Block.Append b id val =
    Ok {| Length := Length b + 1; Frozen := false;
          Values := <[Z.to_nat (Length b) := pack (id, val)]> (Values b) |}.
Proof.
  intros [Hf Hlen] HL Hid Hval. unfold Block.Append.
  assert ((BLOCK_IDX_MASK <? id) = false) as -> by (apply Z.ltb_ge; clia).
  assert ((BLOCK_VAL_MASK <? val) = false) as -> by (apply Z.ltb_ge; clia).
  rewrite Hf.
  assert ((BLOCK_FULL_LENGTH <? Length b) = false) as -> by (apply Z.ltb_ge; lia).
  assert ((Length b <? BLOCK_FULL_LENGTH) = true) as -> by (apply Z.ltb_lt; lia).
  rewrite zset_ok by lia. cbn.
  rewrite u32_small by clia. done.
Qed.

Lemma entries_snoc b id val :
  0 <= Length b -> (Z.to_nat (Length b) < length (Values b))%nat ->
  entries {| Length := Length b + 1; Frozen := false;
             Values := <[Z.to_nat (Length b) := pack (id, val)]> (Values b) |}
  = entries b ++ [unpack (pack (id, val))].
Proof.
  intros HL Hlt. unfold entries. cbn [Length Values].
  replace (Z.to_nat (Length b + 1)) with (S (Z.to_nat (Length b))) by lia.
  erewrite take_S_r by (by apply list_lookup_insert_eq).
  rewrite take_insert_ge by lia. by rewrite fmap_app.
Qed.

Lemma Append_array b id val :
  Frozen b = false -> Length b = 65536 ->
  length (Values b) = Z.to_nat BLOCK_FULL_LENGTH ->
  0 <= id < 65536 -> 0 <= val < 65536 ->
  exists vs, Block.Append b id val = Ok {| Length := 65536; Frozen := false; Values := vs |} /\
    length vs = length (Values b) /\
    (words (Values b) -> words vs) /\
    forall k, 0 <= k -> cell vs k = if k =? id then Z.lor (cell (Values b) k) val
                                   else cell (Values b) k.
Proof.
  intros Hf HL Hlen Hid Hval. unfold Block.Append.
  assert ((BLOCK_IDX_MASK <? id) = false) as -> by (apply Z.ltb_ge; clia).
  assert ((BLOCK_VAL_MASK <? val) = false) as -> by (apply Z.ltb_ge; clia).
  rewrite Hf, HL.
  assert ((BLOCK_FULL_LENGTH <? 65536) = true) as -> by done.
  assert ((65536 <=? id) = false) as -> by (apply Z.leb_gt; lia).
  destruct (writePacked_ok (Values b) id val) as (vs & -> & Hl & Hw & Hc); [clia|done|].
  exists vs. done.
Qed.

Lemma Append_transition b id val :
  acc_blk b -> Length b = BLOCK_FULL_LENGTH -> words (Values b) ->
  0 <= id < 65536 -> 0 <= val < 65536 ->
  exists vs, Block.Append b id val = Ok {| Length := 65536; Frozen := false; Values := vs |} /\
    length vs = length (Values b) /\ words vs /\
    forall k, 0 <= k -> cell vs k = or_vals k (entries b ++ [(id, val)]).
Proof.
  intros [Hf Hlen] HL Hw Hid Hval. unfold Block.Append.
  assert ((BLOCK_IDX_MASK <? id) = false) as -> by (apply Z.ltb_ge; clia).
  assert ((BLOCK_VAL_MASK <? val) = false) as -> by (apply Z.ltb_ge; clia).
  rewrite Hf, HL.
  assert ((BLOCK_FULL_LENGTH <? BLOCK_FULL_LENGTH) = false) as -> by done.
  destruct (transition_fold (Values b) (make BLOCK_FULL_LENGTH)) as (tmp & -> & Hl & Hwt & Hc);
    [done|rewrite length_make; clia|].
  cbn. rewrite length_make in Hl.
  destruct (writePacked_ok tmp id val) as (vs & -> & Hl' & Hw' & Hc'); [clia|done|].
  cbn. rewrite copy_same_length by lia.
  exists vs. split; [done|]. split; [lia|]. split; [apply Hw', Hwt, words_make|].
  intros k Hk. rewrite Hc', Hc, cell_make, Z.lor_0_l by done.
  unfold entries. rewrite HL, take_ge by lia.
  rewrite or_vals_snoc. cbn [fst snd].
  destruct (Z.eqb_spec k id), (Z.eqb_spec id k); try done; lia.
Qed.

(** ** What a run of appends leaves in an accumulation block *)

Lemma built_nil : built [] NewAccumulationBlock.
Proof.
  split; [split; [done|apply length_make]|]. split; [apply words_make|].
  cbn. done.
Qed.

Lemma Appends_snoc b l kv :
  Appends b (l ++ [kv]) = (b' ← Appends b l; Block.Append b' kv.1 kv.2).
Proof.
  unfold Appends. rewrite foldM_app. destruct (foldM _ b l); cbn; [|done..].
  by destruct (Block.Append a kv.1 kv.2).
Qed.

Lemma built_snoc l b kv :
  built l b -> 0 <= kv.1 < 65536 -> 0 <= kv.2 < 65536 ->
  exists b', Block.Append b kv.1 kv.2 = Ok b' /\ built (l ++ [kv]) b'.
Proof.
  intros (Hacc & Hw & Hb) Hk Hv. destruct kv as [id val]; cbn [fst snd] in *.
  pose proof Hacc as [Hf Hlen].
  unfold built. rewrite length_app. cbn [length].
  destruct (Z.leb_spec (Z.of_nat (length l)) BLOCK_FULL_LENGTH) as [Hle|Hgt].
  - destruct Hb as [HL He].
    destruct (Z.eq_dec (Z.of_nat (length l)) BLOCK_FULL_LENGTH) as [Efull|Hne].
    + destruct (Append_transition b id val) as (vs & -> & Hl & Hws & Hc); [done|lia|done..|].
      eexists; split; [done|]. cbn [Values Length Frozen].
      split; [apply acc_blk_mk; lia|]. split; [done|].
      destruct (Z.leb_spec (Z.of_nat (length l + 1)) BLOCK_FULL_LENGTH); [lia|].
      split; [done|]. intros k Hk'. rewrite Hc by lia. by rewrite He.
    + rewrite Append_pairs by (done || lia).
      eexists; split; [done|]. cbn [Values Length Frozen].
      split; [apply acc_blk_mk; by rewrite length_insert|].
      split. { apply Forall_insert; [done|]. by apply pack_range. }
      destruct (Z.leb_spec (Z.of_nat (length l + 1)) BLOCK_FULL_LENGTH); [|lia].
      split; [lia|].
      rewrite entries_snoc by lia. rewrite unpack_pack by done. by rewrite He.
  - destruct Hb as [HL Hc].
    destruct (Append_array b id val) as (vs & -> & Hl & Hws & Hc'); [done..|].
    eexists; split; [done|]. cbn [Values Length Frozen].
    split; [apply acc_blk_mk; lia|]. split; [auto|].
    destruct (Z.leb_spec (Z.of_nat (length l + 1)) BLOCK_FULL_LENGTH); [lia|].
    split; [done|]. intros k Hk'. rewrite Hc' by lia. rewrite or_vals_snoc. cbn [fst snd].
    rewrite Hc by done.
    destruct (Z.eqb_spec k id), (Z.eqb_spec id k); try done; lia.
Qed.

Lemma Appends_built l :
  in_range l -> exists b, Appends NewAccumulationBlock l = Ok b /\ built l b.
Proof.
  induction l as [|kv l IH] using rev_ind; intros Hr.
  - exists NewAccumulationBlock. split; [done|apply built_nil].
  - apply Forall_app in Hr as [Hl Hkv]. apply Forall_inv in Hkv as [Hk Hv].
    destruct (IH Hl) as (b & Hb & Hbuilt).
    destruct (built_snoc l b kv Hbuilt Hk Hv) as (b' & Hb' & Hbuilt').
    exists b'. split; [|done]. rewrite Appends_snoc, Hb. done.
Qed.

Lemma built_mode l b :
  built l b -> (BLOCK_FULL_LENGTH <? Length b) = negb (Z.of_nat (length l) <=? BLOCK_FULL_LENGTH).
Proof.
  intros (_ & _ & Hb).
  destruct (Z.leb_spec (Z.of_nat (length l)) BLOCK_FULL_LENGTH); destruct Hb as [-> _]; cbn.
  - apply Z.ltb_ge. lia.
  - done.
Qed.

Lemma built_blk_ok l b : built l b -> ascending l -> blk_ok b.
Proof.
  intros Hb Hasc. pose proof (built_mode l b Hb) as Hm.
  destruct Hb as ([Hf Hlen] & Hw & Hb). split; [done|]. rewrite Hm.
  destruct (Z.leb_spec (Z.of_nat (length l)) BLOCK_FULL_LENGTH); cbn.
  - destruct Hb as [HL He]. rewrite He. split; [lia|done].
  - destruct Hb as [HL _]. done.
Qed.

Lemma built_uniq l b : built l b -> strictly_ascending l -> uniq b.
Proof.
  intros Hb Hasc HL. pose proof (built_mode l b Hb) as Hm.
  destruct Hb as (_ & _ & Hb).
  destruct (Z.leb_spec (Z.of_nat (length l)) BLOCK_FULL_LENGTH).
  - destruct Hb as [_ ->]. done.
  - destruct Hb as [E _]. rewrite E in HL. clia.
Qed.

Lemma built_get l b id :
  built l b -> 0 <= id < 65536 ->
  get b id = if BLOCK_FULL_LENGTH <? Length b then or_vals id l else last_val id l.
Proof.
  intros Hb Hid. pose proof (built_mode l b Hb) as Hm.
  destruct Hb as (_ & _ & Hb). unfold get. rewrite Hm.
  destruct (Z.leb_spec (Z.of_nat (length l)) BLOCK_FULL_LENGTH); cbn.
  - destruct Hb as [_ ->]. done.
  - destruct Hb as [_ Hc]. auto.
Qed.

(** ** Iteration over a block *)

Lemma nonzero_cells_keys vs from n :
  Forall (fun kv : Z * Z => from <= kv.1 < from + Z.of_nat n /\ kv.2 = cell vs kv.1)
         (nonzero_cells vs from n).
Proof.
  revert from. induction n as [|n IH]; intros from; [constructor|].
  cbn [nonzero_cells]. apply Forall_app. split.
  - destruct (cell vs from =? 0); constructor; [|constructor]. cbn. lia.
  - eapply Forall_impl; [apply IH|]. cbn. lia.
Qed.

Lemma nonzero_cells_sorted vs from n : strictly_ascending (nonzero_cells vs from n).
Proof.
  revert from. induction n as [|n IH]; intros from; [constructor|].
  cbn [nonzero_cells]. unfold strictly_ascending. rewrite fmap_app.
  apply StronglySorted_app_2; [| |apply IH].
  - intros x1 x2 H1 H2.
    apply list_elem_of_fmap in H2 as (kv & -> & Hkv).
    pose proof (nonzero_cells_keys vs (from + 1) n) as Hk.
    rewrite Forall_forall in Hk. specialize (Hk kv Hkv).
    destruct (cell vs from =? 0); cbn in H1; [by apply elem_of_nil in H1|].
    apply list_elem_of_singleton in H1 as ->. lia.
  - destruct (cell vs from =? 0); repeat constructor.
Qed.

Lemma or_vals_nonzero_cells vs from n id :
  or_vals id (nonzero_cells vs from n)
  = if (from <=? id) && (id <? from + Z.of_nat n) then cell vs id else 0.
Proof.
  revert from. induction n as [|n IH]; intros from.
  - cbn [nonzero_cells]. rewrite or_vals_nil.
    destruct (Z.leb_spec from id), (Z.ltb_spec id (from + Z.of_nat 0)); cbn [andb]; try done; lia.
  - cbn [nonzero_cells]. rewrite or_vals_app, IH.
    destruct (Z.eq_dec id from) as [->|Hne].
    + assert ((from + 1 <=? from) = false) as -> by (apply Z.leb_gt; lia).
      assert ((from <=? from) = true) as -> by (apply Z.leb_le; lia).
      assert ((from <? from + Z.of_nat (S n)) = true) as -> by (apply Z.ltb_lt; lia).
      cbn [andb]. rewrite Z.lor_0_r.
      destruct (Z.eqb_spec (cell vs from) 0) as [->|]; [done|].
      rewrite or_vals_cons, or_vals_nil. cbn [fst snd]. rewrite Z.eqb_refl.
      by rewrite Z.lor_0_r.
    + assert (or_vals id (if cell vs from =? 0 then [] else [(from, cell vs from)]) = 0) as ->.
      { destruct (cell vs from =? 0); [done|].
        rewrite or_vals_cons, or_vals_nil. cbn [fst snd].
        destruct (Z.eqb_spec from id); [lia|done]. }
      rewrite Z.lor_0_l.
      destruct (Z.leb_spec (from + 1) id), (Z.leb_spec from id); try lia;
      destruct (Z.ltb_spec id (from + 1 + Z.of_nat n)), (Z.ltb_spec id (from + Z.of_nat (S n)));
        cbn [andb]; try lia; done.
Qed.

Lemma nonzero_cells_skip vs from n r :
  from <= r <= from + Z.of_nat n ->
  (forall k, from <= k < r -> cell vs k = 0) ->
  nonzero_cells vs from n = nonzero_cells vs r (n - Z.to_nat (r - from)).
Proof.
  revert from. induction n as [|n IH]; intros from Hr Hz.
  - done.
  - destruct (Z.eq_dec r from) as [->|Hne].
    + by replace (S n - Z.to_nat (from - from))%nat with (S n) by lia.
    + cbn [nonzero_cells]. rewrite (Hz from) by lia. cbn [app Z.eqb].
      rewrite (IH (from + 1)) by (lia || (intros; apply Hz; lia)).
      f_equal. lia.
Qed.

Lemma length_nonzero_cells vs from n : (length (nonzero_cells vs from n) <= n)%nat.
Proof.
  revert from. induction n as [|n IH]; intros from; [done|].
  cbn [nonzero_cells]. rewrite length_app. specialize (IH (from + 1)).
  destruct (cell vs from =? 0); cbn [length]; lia.
Qed.

(** *** Iterator.Next in array mode *)

Lemma cell_join vs j h :
  0 <= j -> (h = 0 \/ h = 1) -> cell vs (2 * j + h) = half (nth (Z.to_nat j) vs 0) h.
Proof.
  intros Hj Hh. unfold cell.
  destruct (join_index j h Hj Hh) as (_ & -> & ->). done.
Qed.

Lemma next_scan_spec vs cur n j :
  words vs -> length vs = Z.to_nat BLOCK_FULL_LENGTH ->
  0 <= cur < 65536 -> 0 <= j -> j + Z.of_nat n = BLOCK_FULL_LENGTH ->
  (forall k, cur < k < 2 * j -> cell vs k = 0) ->
  exists r, next_scan n vs j cur = Ok r /\
    cur < r <= 65536 /\
    (r < 65536 -> cell vs r <> 0) /\
    forall k, cur < k < r -> cell vs k = 0.
Proof.
  intros Hw Hlen Hcur. revert j.
  induction n as [|n IH]; intros j Hj Hn Hz.
  - exists 65536. cbn. split; [done|]. split; [clia|]. split; [lia|].
    intros k Hk. apply Hz. clia.
  - cbn [next_scan]. rewrite zget_ok by clia. rsimpl.
    set (v := nth (Z.to_nat j) vs 0).
    pose proof (words_nth vs (Z.to_nat j) Hw) as Hv. fold v in Hv.
    pose proof (cell_join vs j 0 Hj (or_introl eq_refl)) as Hc0.
    pose proof (cell_join vs j 1 Hj (or_intror eq_refl)) as Hc1.
    fold v in Hc0, Hc1. rewrite Z.add_0_r in Hc0.
    destruct (join_index j 0 Hj (or_introl eq_refl)) as (Ej0 & _ & _).
    destruct (join_index j 1 Hj (or_intror eq_refl)) as (Ej1 & _ & _).
    rewrite Z.add_0_r in Ej0.
    consts. fold (half v 0) (half v 1). rewrite Ej0, Ej1.
    destruct (Z.ltb_spec 0 v) as [Hpos|Hzero].
    + destruct (Z.ltb_spec 0 (half v 0)) as [H0|H0];
        [destruct (Z.ltb_spec cur (2 * j)) as [Hc|Hc]|]; cbn [andb].
      * exists (2 * j). split; [done|]. split; [lia|]. split; [rewrite Hc0; lia|]. done.
      * destruct (Z.ltb_spec 0 (half v 1)) as [H1|H1];
          [destruct (Z.ltb_spec cur (2 * j + 1)) as [Hc'|Hc']|]; cbn [andb].
        -- exists (2 * j + 1). split; [done|]. split; [lia|]. split; [rewrite Hc1; lia|].
           intros k Hk. lia.
        -- apply IH; [lia|lia|]. intros k Hk. lia.
        -- apply IH; [lia|lia|]. intros k Hk.
           pose proof (half_range v 1).
           destruct (Z.eq_dec k (2 * j + 1)) as [->|]; [rewrite Hc1; lia|lia].
      * pose proof (half_range v 0).
        destruct (Z.ltb_spec 0 (half v 1)) as [H1|H1];
          [destruct (Z.ltb_spec cur (2 * j + 1)) as [Hc'|Hc']|]; cbn [andb].
        -- exists (2 * j + 1). split; [done|]. split; [lia|]. split; [rewrite Hc1; lia|].
           intros k Hk.
           destruct (Z.eq_dec k (2 * j)) as [->|]; [rewrite Hc0; lia|apply Hz; lia].
        -- apply IH; [lia|lia|]. intros k Hk.
           destruct (Z.eq_dec k (2 * j)) as [->|]; [rewrite Hc0; lia|apply Hz; lia].
        -- apply IH; [lia|lia|]. intros k Hk.
           pose proof (half_range v 1).
           destruct (Z.eq_dec k (2 * j)) as [->|]; [rewrite Hc0; lia|].
           destruct (Z.eq_dec k (2 * j + 1)) as [->|]; [rewrite Hc1; lia|apply Hz; lia].
    + assert (v = 0) as Ev by lia.
      apply IH; [lia|lia|]. intros k Hk.
      destruct (Z.eq_dec k (2 * j)) as [->|]; [rewrite Hc0, Ev; apply half_zero|].
      destruct (Z.eq_dec k (2 * j + 1)) as [->|]; [rewrite Hc1, Ev; apply half_zero|apply Hz; lia].
Qed.

Lemma merge_nil_l l2 : merge_records [] l2 = l2.
Proof. by destruct l2. Qed.

Lemma merge_nil_r l1 : merge_records l1 [] = l1.
Proof. by destruct l1. Qed.

Lemma merge_cons kv1 l1 kv2 l2 :
  merge_records (kv1 :: l1) (kv2 :: l2) =
  if kv1.1 <? kv2.1 then kv1 :: merge_records l1 (kv2 :: l2)
  else if kv1.1 =? kv2.1 then (kv1.1, Z.lor kv1.2 kv2.2) :: merge_records l1 l2
  else kv2 :: merge_records (kv1 :: l1) l2.
Proof. done. Qed.

Lemma lor_range a b : 0 <= a < 65536 -> 0 <= b < 65536 -> 0 <= Z.lor a b < 65536.
Proof.
  intros Ha Hb. split; [apply Z.lor_nonneg; lia|].
  destruct (Z.eq_dec (Z.lor a b) 0) as [->|Hne]; [lia|].
  assert (0 <= Z.lor a b) by (apply Z.lor_nonneg; lia).
  change 65536 with (2 ^ 16). apply Z.log2_lt_pow2; [lia|].
  rewrite Z.log2_lor by lia.
  apply Z.max_lub_lt.
  - destruct (Z.eq_dec a 0) as [->|?]; [done|]. apply Z.log2_lt_pow2; lia.
  - destruct (Z.eq_dec b 0) as [->|?]; [done|]. apply Z.log2_lt_pow2; lia.
Qed.

Lemma merge_ind (P : list (Z * Z) -> list (Z * Z) -> Prop) :
  (forall l2, P [] l2) ->
  (forall l1, P l1 []) ->
  (forall kv1 l1 kv2 l2,
     P l1 (kv2 :: l2) -> P l1 l2 -> P (kv1 :: l1) l2 -> P (kv1 :: l1) (kv2 :: l2)) ->
  forall l1 l2, P l1 l2.
Proof.
  intros Hl Hr Hc. induction l1 as [|kv1 l1 IH1]; [done|].
  induction l2 as [|kv2 l2 IH2]; [done|]. apply Hc; auto.
Qed.

Lemma merge_Forall (P : Z * Z -> Prop) l1 l2 :
  (forall kv1 kv2, P kv1 -> P kv2 -> kv1.1 = kv2.1 -> P (kv1.1, Z.lor kv1.2 kv2.2)) ->
  Forall P l1 -> Forall P l2 -> Forall P (merge_records l1 l2).
Proof.
  intros HP. revert l1 l2. apply (merge_ind (fun l1 l2 => Forall P l1 -> Forall P l2 -> Forall P (merge_records l1 l2))).
  - intros l2 _ H. by rewrite merge_nil_l.
  - intros l1 H _. by rewrite merge_nil_r.
  - intros kv1 l1 kv2 l2 IHa IHb IHc H1 H2. rewrite merge_cons.
    pose proof H1 as H1'. pose proof H2 as H2'.
    apply Forall_cons in H1' as [Hk1 Hl1]. apply Forall_cons in H2' as [Hk2 Hl2].
    destruct (Z.ltb_spec kv1.1 kv2.1); [constructor; auto|].
    destruct (Z.eqb_spec kv1.1 kv2.1); constructor; auto.
Qed.

Lemma merge_in_range l1 l2 : in_range l1 -> in_range l2 -> in_range (merge_records l1 l2).
Proof.
  apply merge_Forall. intros kv1 kv2 [H1 H1'] [H2 H2'] _. cbn [fst snd].
  split; [done|]. by apply lor_range.
Qed.

Lemma merge_or_vals id l1 l2 :
  or_vals id (merge_records l1 l2) = Z.lor (or_vals id l1) (or_vals id l2).
Proof.
  revert l1 l2. apply merge_ind.
  - intros l2. by rewrite merge_nil_l, or_vals_nil, Z.lor_0_l.
  - intros l1. by rewrite merge_nil_r, or_vals_nil, Z.lor_0_r.
  - intros kv1 l1 kv2 l2 IHa IHb IHc. rewrite merge_cons.
    destruct (Z.ltb_spec kv1.1 kv2.1).
    + rewrite (or_vals_cons id kv1), IHa, (or_vals_cons id kv1). by rewrite Z.lor_assoc.
    + destruct (Z.eqb_spec kv1.1 kv2.1) as [E|E].
      * rewrite !or_vals_cons, IHb. cbn [fst snd]. rewrite <- E.
        destruct (kv1.1 =? id).
        -- rewrite <- !Z.lor_assoc. f_equal.
           rewrite !Z.lor_assoc. f_equal. apply Z.lor_comm.
        -- by rewrite !Z.lor_0_l.
      * rewrite (or_vals_cons id kv2), IHc, (or_vals_cons id kv2).
        rewrite !Z.lor_assoc. f_equal. apply Z.lor_comm.
Qed.

Lemma merge_strict l1 l2 :
  strictly_ascending l1 -> strictly_ascending l2 -> strictly_ascending (merge_records l1 l2).
Proof.
  revert l1 l2.
  apply (merge_ind (fun l1 l2 => strictly_ascending l1 -> strictly_ascending l2 ->
                                 strictly_ascending (merge_records l1 l2))).
  - intros l2 _ H. by rewrite merge_nil_l.
  - intros l1 H _. by rewrite merge_nil_r.
  - intros kv1 l1 kv2 l2 IHa IHb IHc H1 H2. rewrite merge_cons.
    unfold strictly_ascending in *. rewrite fmap_cons in H1, H2.
    pose proof H1 as H1'. pose proof H2 as H2'.
    apply StronglySorted_cons in H1' as [Hk1 Hl1].
    apply StronglySorted_cons in H2' as [Hk2 Hl2].
    rewrite Forall_fmap in Hk1, Hk2.
    destruct (Z.ltb_spec kv1.1 kv2.1) as [Hlt|Hge].
    + rewrite fmap_cons. apply StronglySorted_cons. split; [|by apply IHa; rewrite ?fmap_cons].
      rewrite Forall_fmap. apply merge_Forall; [cbn; lia|done|].
      constructor; [done|]. eapply Forall_impl; [exact Hk2|]. cbn. lia.
    + destruct (Z.eqb_spec kv1.1 kv2.1) as [E|E].
      * rewrite fmap_cons. apply StronglySorted_cons. split; [|by apply IHb].
        rewrite Forall_fmap. cbn [fst]. apply merge_Forall; [cbn; lia|done|].
        eapply Forall_impl; [exact Hk2|]. cbn. lia.
      * rewrite fmap_cons. apply StronglySorted_cons. split; [|by apply IHc; rewrite ?fmap_cons].
        rewrite Forall_fmap. apply merge_Forall; [cbn; lia| |done].
        constructor; [cbn; lia|]. eapply Forall_impl; [exact Hk1|]. cbn. lia.
Qed.

(** *** The three loops of Block.ResetAndMergeFrom append the merged records *)

Lemma Appends_cons b kv l :
  Appends b (kv :: l) = (b' ← Block.Append b kv.1 kv.2; Appends b' l).
Proof. done. Qed.

Lemma iter_collect_inv fuel it l :
  iter_collect fuel it = Ok l ->
  (Iterator.Valid it = false /\ l = []) \/
  (exists fuel' i v it' l',
     fuel = S fuel' /\ Iterator.Valid it = true /\ Iterator.Index it = Ok i /\ Iterator.Value it = Ok v /\
     Iterator.Next it = Ok it' /\ iter_collect fuel' it' = Ok l' /\ l = (i, v) :: l').
Proof.
  destruct fuel as [|fuel']; [done|]. cbn [iter_collect].
  destruct (Iterator.Valid it); [|intros [= <-]; by left].
  destruct (Iterator.Index it) as [i| |]; [|done..]. rsimpl.
  destruct (Iterator.Value it) as [v| |]; [|done..]. rsimpl.
  destruct (Iterator.Next it) as [it'| |]; [|done..]. rsimpl.
  destruct (iter_collect fuel' it') as [l'| |] eqn:E; [|done..]. rsimpl.
  intros [= <-]. right. by exists fuel', i, v, it', l'.
Qed.

Lemma drain_collect fuel f it l b :
  iter_collect f it = Ok l -> (length l < fuel)%nat ->
  Block.drain fuel b it = Appends b l.
Proof.
  revert f it l b. induction fuel as [|fuel IH]; intros f it l b Hc Hf; [lia|].
  cbn [Block.drain].
  apply iter_collect_inv in Hc as [[-> ->]|(f' & i & v & it' & l' & -> & -> & -> & -> & -> & Hc & ->)];
    [done|].
  rsimpl. rewrite Appends_cons. cbn [fst snd].
  destruct (Block.Append b i v) as [b'| |]; [|done..]. rsimpl.
  apply (IH f'); [done|]. cbn [length] in Hf. lia.
Qed.

Lemma drain_invalid fuel it b : Iterator.Valid it = false -> Block.drain (S fuel) b it = Ok b.
Proof. intros H. cbn [Block.drain]. by rewrite H. Qed.

Lemma merge_loops fuel fuelD f1 f2 it1 it2 l1 l2 b :
  iter_collect f1 it1 = Ok l1 -> iter_collect f2 it2 = Ok l2 ->
  (length l1 + length l2 < fuel)%nat -> (length l1 + length l2 < fuelD)%nat ->
  ('(b1, it1', it2') ← Block.merge_both fuel b it1 it2;
   b2 ← Block.drain fuelD b1 it1';
   Block.drain fuelD b2 it2') = Appends b (merge_records l1 l2).
Proof.
  revert f1 f2 it1 it2 l1 l2 b.
  induction fuel as [|fuel IH]; intros f1 f2 it1 it2 l1 l2 b Hc1 Hc2 Hf HfD; [lia|].
  cbn [Block.merge_both].
  destruct fuelD as [|fD]; [lia|].
  pose proof Hc1 as Hc1'. pose proof Hc2 as Hc2'.
  apply iter_collect_inv in Hc1' as [[Hv1 ->]|(f1' & i1 & v1 & it1' & l1' & -> & Hv1 & Hi1 & Hx1 & Hn1 & Hr1 & ->)].
  { rewrite Hv1. cbn [andb]. rsimpl. rewrite drain_invalid by done. rsimpl.
    rewrite merge_nil_l. apply (drain_collect _ f2); [done|]. cbn [length] in HfD. lia. }
  apply iter_collect_inv in Hc2' as [[Hv2 ->]|(f2' & i2 & v2 & it2' & l2' & -> & Hv2 & Hi2 & Hx2 & Hn2 & Hr2 & ->)].
  { rewrite Hv1, Hv2. cbn [andb]. rsimpl. rewrite merge_nil_r.
    rewrite (drain_collect _ _ _ _ _ Hc1) by (cbn [length] in *; lia).
    destruct (Appends b ((i1, v1) :: l1')) as [b'| |]; [|done..]. rsimpl.
    by apply drain_invalid. }
  rewrite Hv1, Hv2. cbn [andb]. rewrite Hi1, Hi2. rsimpl.
  rewrite merge_cons. cbn [fst snd]. cbn [length] in Hf, HfD.
  destruct (i1 <? i2).
  - rewrite Hx1. rsimpl. rewrite Appends_cons. cbn [fst snd].
    destruct (Block.Append b i1 v1) as [b'| |]; [|done..]. rsimpl. rewrite Hn1. rsimpl.
    apply (IH f1' (S f2')); [done|done|cbn [length]; lia..].
  - destruct (i1 =? i2).
    + rewrite Hx1, Hx2. rsimpl. rewrite Appends_cons. cbn [fst snd].
      destruct (Block.Append b i1 (Z.lor v1 v2)) as [b'| |]; [|done..]. rsimpl.
      rewrite Hn1, Hn2. rsimpl.
      apply (IH f1' f2'); [done|done|lia..].
    + rewrite Hx2. rsimpl. rewrite Appends_cons. cbn [fst snd].
      destruct (Block.Append b i2 v2) as [b'| |]; [|done..]. rsimpl. rewrite Hn2. rsimpl.
      apply (IH (S f1') f2'); [done|done|cbn [length]; lia..].
Qed.

(** *** What the iterator of a block yields *)

Lemma iter_collect_S fuel it :
  iter_collect (S fuel) it =
  if Iterator.Valid it then
    i ← Iterator.Index it; v ← Iterator.Value it; it' ← Iterator.Next it;
    l ← iter_collect fuel it'; Ok ((i, v) :: l)
  else Ok [].
Proof. done. Qed.

Lemma iter_pairs b n i :
  Length b <= BLOCK_FULL_LENGTH -> Length b <= Z.of_nat (length (Values b)) ->
  0 <= i <= Length b -> n = Z.to_nat (Length b - i) ->
  iter_collect (S n) {| block := b; idx := i |}
  = Ok (unpack <$> drop (Z.to_nat i) (take (Z.to_nat (Length b)) (Values b))).
Proof.
  intros HL Hlen. revert i. induction n as [|n IH]; intros i Hi Hn.
  - cbn [iter_collect]. unfold Iterator.Valid. cbn [block idx].
    rewrite u32_small by clia.
    assert ((i <? Length b) = false) as -> by (apply Z.ltb_ge; lia).
    rewrite drop_ge; [done|]. rewrite length_take. lia.
  - rewrite iter_collect_S. unfold Iterator.Valid, Iterator.Index, Iterator.Value, Iterator.Next. cbn [block idx].
    rewrite u32_small by clia.
    assert ((i <? Length b) = true) as -> by (apply Z.ltb_lt; lia).
    assert ((BLOCK_FULL_LENGTH <? Length b) = false) as -> by (apply Z.ltb_ge; lia).
    rewrite zget_ok by lia. rsimpl.
    rewrite IH by lia. rsimpl.
    erewrite (drop_S _ _ (Z.to_nat i)).
    2:{ rewrite lookup_take_lt by lia. apply nth_elem_of. lia. }
    rewrite fmap_cons. replace (Z.to_nat (i + 1)) with (S (Z.to_nat i)) by lia.
    consts. done.
Qed.

Lemma iter_array b cur fuel :
  blk_ok b -> BLOCK_FULL_LENGTH < Length b -> 0 <= cur < 65536 ->
  (Z.to_nat (65536 - cur) < fuel)%nat ->
  iter_collect fuel {| block := b; idx := cur |}
  = Ok ((cur, cell (Values b) cur)
          :: nonzero_cells (Values b) (cur + 1) (Z.to_nat (65535 - cur))).
Proof.
  intros [Hw Hb] Hmode.
  assert ((BLOCK_FULL_LENGTH <? Length b) = true) as Hm by (apply Z.ltb_lt; lia).
  rewrite Hm in Hb. destruct Hb as [HL Hlen].
  revert cur. induction fuel as [|fuel IH]; intros cur Hcur Hf; [lia|].
  rewrite iter_collect_S. unfold Iterator.Valid, Iterator.Index, Iterator.Value, Iterator.Next. cbn [block idx]. rewrite Hm.
  rewrite u32_small by lia.
  assert ((cur <? Length b) = true) as -> by (apply Z.ltb_lt; lia).
  rsimpl.
  pose proof (shiftr1_bounds cur Hcur) as Hj.
  destruct (split_index cur) as [Ecur Hh]; [lia|].
  consts. rewrite zget_ok by lia. rsimpl.
  destruct (next_scan_spec (Values b) cur (Z.to_nat (32768 - Z.shiftr cur 1)) (Z.shiftr cur 1))
    as (r & -> & Hr & Hnz & Hz); [done|done|done|lia|clia|intros; lia|].
  rsimpl. fold (half (nth (Z.to_nat (Z.shiftr cur 1)) (Values b) 0) (Z.land cur 1)).
  fold (cell (Values b) cur).
  rewrite (nonzero_cells_skip (Values b) (cur + 1) _ r) by (lia || (intros; apply Hz; lia)).
  destruct (Z.eq_dec r 65536) as [->|Hne].
  - destruct fuel as [|fuel]; [lia|]. rewrite iter_collect_S. unfold Iterator.Valid. cbn [block idx].
    rewrite HL. change (u32 65536 <? 65536) with false. cbn iota. rsimpl.
    replace (Z.to_nat (65535 - cur) - Z.to_nat (65536 - (cur + 1)))%nat with 0%nat by lia.
    done.
  - rewrite IH by lia. rsimpl.
    replace (Z.to_nat (65535 - cur) - Z.to_nat (r - (cur + 1)))%nat
      with (S (Z.to_nat (65535 - r))) by lia.
    cbn [nonzero_cells].
    destruct (Z.eqb_spec (cell (Values b) r) 0) as [E|_]; [exfalso; apply Hnz; [lia|done]|].
    done.
Qed.

Lemma entries_in_range b : words (Values b) -> in_range (entries b).
Proof.
  intros Hw. unfold in_range, entries. rewrite Forall_fmap.
  apply Forall_take. eapply Forall_impl; [exact Hw|].
  intros w Hw'. by apply unpack_range.
Qed.

Lemma iter_block b :
  blk_ok b ->
  exists fuel l,
    iter_collect fuel (Block.Iterator b) = Ok l /\
    (length l <= Z.to_nat (Length b))%nat /\
    in_range l /\
    (uniq b -> strictly_ascending l) /\
    (uniq b -> forall id, 0 <= id < 65536 -> or_vals id l = get b id).
Proof.
  intros Hok. pose proof Hok as [Hw Hb]. unfold Block.Iterator, get.
  destruct (Z.ltb_spec BLOCK_FULL_LENGTH (Length b)) as [Hmode|Hmode].
  - destruct Hb as [HL Hlen].
    exists (S (Z.to_nat 65536)). eexists. split; [apply iter_array; (done || lia)|].
    split.
    { cbn [length]. pose proof (length_nonzero_cells (Values b) (0 + 1) (Z.to_nat (65535 - 0))). lia. }
    split.
    { constructor; [split; [cbn [fst]; lia|apply cell_range]|].
      eapply Forall_impl; [apply nonzero_cells_keys|].
      intros kv [Hk Hv]. rewrite Hv. split; [lia|apply cell_range]. }
    split.
    { intros _. unfold strictly_ascending. rewrite fmap_cons.
      apply StronglySorted_cons. split; [|apply nonzero_cells_sorted].
      rewrite Forall_fmap. eapply Forall_impl; [apply nonzero_cells_keys|].
      cbn. lia. }
    intros _ id Hid. rewrite or_vals_cons, or_vals_nonzero_cells. cbn [fst snd].
    destruct (Z.eqb_spec 0 id) as [<-|Hne].
    + cbn. by rewrite Z.lor_0_r.
    + assert ((0 + 1 <=? id) = true) as -> by (apply Z.leb_le; lia).
      assert ((id <? 0 + 1 + Z.of_nat (Z.to_nat (65535 - 0))) = true) as -> by (apply Z.ltb_lt; lia).
      done.
  - destruct Hb as [HL Hasc].
    exists (S (Z.to_nat (Length b - 0))), (entries b).
    split. { rewrite iter_pairs by lia. by rewrite drop_0. }
    split. { unfold entries. rewrite length_fmap, length_take. lia. }
    split; [by apply entries_in_range|].
    split; [intros Hu; by apply Hu|].
    intros Hu id Hid. apply strict_or_last. by apply Hu.
Qed.

(** *** Block.ResetAndMergeFrom *)

Lemma Reset_acc c : acc_blk c -> Block.Reset c = Ok NewAccumulationBlock.
Proof.
  intros [Hf Hlen]. unfold Block.Reset, NewAccumulationBlock, make. by rewrite Hf, Hlen.
Qed.

Lemma ResetAndMergeFrom_spec c a b :
  acc_blk c -> blk_ok a -> uniq a -> blk_ok b -> uniq b ->
  exists c', Block.ResetAndMergeFrom c a b = Ok c' /\
    acc_blk c' /\ blk_ok c' /\ uniq c' /\
    (0 < Length a -> 0 < Length c') /\
    forall id, 0 <= id < 65536 -> get c' id = Z.lor (get a id) (get b id).
Proof.
  intros Hc Ha Hua Hb Hub.
  destruct (iter_block a Ha) as (f1 & l1 & Hc1 & Hlen1 & Hr1 & Hs1 & Hg1).
  destruct (iter_block b Hb) as (f2 & l2 & Hc2 & Hlen2 & Hr2 & Hs2 & Hg2).
  unfold Block.ResetAndMergeFrom. rewrite Reset_acc by done. rsimpl.
  rewrite (merge_loops _ _ f1 f2 _ _ l1 l2) by (done || unfold Block.merge_fuel; lia).
  destruct (Appends_built (merge_records l1 l2)) as (c' & -> & Hbuilt);
    [by apply merge_in_range|].
  assert (strictly_ascending (merge_records l1 l2)) as Hs by (apply merge_strict; auto).
  exists c'. split; [done|]. split; [apply Hbuilt|].
  split; [eapply built_blk_ok; [done|by apply strictly_ascending_ascending]|].
  split; [by eapply built_uniq|].
  split.
  { intros HLa. destruct Hbuilt as (_ & _ & HL).
    destruct (Z.leb_spec (Z.of_nat (length (merge_records l1 l2))) BLOCK_FULL_LENGTH);
      destruct HL as [-> _]; [|lia].
    destruct l1 as [|kv1 l1].
    - apply iter_collect_inv in Hc1 as [[Hv _]|(? & ? & ? & ? & ? & _ & _ & _ & _ & _ & _ & ?)]; [|done].
      unfold Iterator.Valid, Block.Iterator in Hv. cbn [block idx] in Hv.
      change (u32 0) with 0 in Hv. apply Z.ltb_ge in Hv. lia.
    - destruct l2 as [|kv2 l2]; [rewrite merge_nil_r; cbn [length]; lia|].
      rewrite merge_cons.
      destruct (_ <? _); [cbn [length]; lia|]. destruct (_ =? _); cbn [length]; lia. }
  intros id Hid. rewrite (built_get _ _ _ Hbuilt Hid).
  rewrite <- (strict_or_last id _ Hs), Tauto.if_same.
  rewrite merge_or_vals, Hg1, Hg2 by done. done.
Qed.

(** ** Copy, CopyFrom and UnAppend on well-formed blocks *)

Lemma copy_make n vs :
  0 <= n <= Z.of_nat (length vs) -> copy (make n) vs = take (Z.to_nat n) vs.
Proof.
  intros Hn. unfold copy. rewrite length_make.
  rewrite drop_ge by (rewrite length_make; lia). apply app_nil_r.
Qed.

Lemma blk_ok_NewAccumulationBlock : blk_ok NewAccumulationBlock.
Proof. eapply built_blk_ok; [apply built_nil|constructor]. Qed.

Lemma uniq_NewAccumulationBlock : uniq NewAccumulationBlock.
Proof. eapply built_uniq; [apply built_nil|constructor]. Qed.

Lemma acc_NewAccumulationBlock : acc_blk NewAccumulationBlock.
Proof. apply built_nil. Qed.

Lemma get_NewAccumulationBlock k : get NewAccumulationBlock k = 0.
Proof. done. Qed.

Lemma Copy_spec b :
  acc_blk b -> blk_ok b -> uniq b -> 0 < Length b ->
  shard_ok (Block.Copy b) /\ forall k, get (Block.Copy b) k = get b k.
Proof.
  intros [Hf Hlen] [Hw Hb] Hu HL. unfold Block.Copy, shard_ok, blk_ok, uniq, get, entries.
  cbn [Length Frozen Values].
  destruct (Z.ltb_spec BLOCK_FULL_LENGTH (Length b)) as [Hm|Hm].
  - destruct Hb as [HL' _]. rewrite copy_make by clia.
    rewrite take_ge by lia. repeat split; try done; try clia.
  - destruct Hb as [HL' Hasc]. rewrite copy_make by lia.
    rewrite take_idemp.
    repeat split;
      first [done | lia | by apply Forall_take | rewrite length_take; lia
            | intros _; by apply Hu].
Qed.

Lemma CopyFrom_spec c b :
  acc_blk c -> blk_ok b -> uniq b ->
  (length (Values b) <= Z.to_nat BLOCK_FULL_LENGTH)%nat ->
  exists c', Block.CopyFrom c b = Ok c' /\
    acc_blk c' /\ blk_ok c' /\ uniq c' /\ Length c' = Length b /\
    forall k, get c' k = get b k.
Proof.
  intros Hc [Hw Hb] Hu Hlen. pose proof Hc as [Hf Hlc].
  unfold Block.CopyFrom. rewrite Hf, Reset_acc by done. rsimpl.
  cbn [NewAccumulationBlock Values Frozen]. rewrite length_make.
  destruct (Z.ltb_spec (Z.of_nat (Z.to_nat BLOCK_FULL_LENGTH)) (Z.of_nat (length (Values b)))); [lia|].
  eexists. split; [done|].
  assert (copy (make BLOCK_FULL_LENGTH) (Values b)
          = Values b ++ replicate (Z.to_nat BLOCK_FULL_LENGTH - length (Values b)) 0) as Ecopy.
  { unfold copy, make. rewrite length_replicate, take_ge by lia.
    by rewrite drop_replicate. }
  rewrite Ecopy.
  assert (words (Values b ++ replicate (Z.to_nat BLOCK_FULL_LENGTH - length (Values b)) 0)) as Hw'.
  { apply Forall_app. split; [done|apply words_replicate]. }
  unfold acc_blk, blk_ok, uniq, get, entries. cbn [Length Frozen Values].
  destruct (Z.ltb_spec BLOCK_FULL_LENGTH (Length b)) as [Hm|Hm].
  - destruct Hb as [HL Hl]. rewrite Hl, Nat.sub_diag. cbn [replicate]. rewrite app_nil_r.
    repeat split; first [done | clia | intros ?; clia].
  - destruct Hb as [HL Hasc]. rewrite take_app_le by lia.
    repeat split;
      first [done | lia | rewrite length_app, length_replicate; lia
            | intros _; by apply Hu].
Qed.

Lemma unappend_scan_spec vs n :
  words vs -> length vs = Z.to_nat BLOCK_FULL_LENGTH ->
  Z.of_nat n <= BLOCK_FULL_LENGTH ->
  (forall k, 2 * Z.of_nat n <= k < 65536 -> cell vs k = 0) ->
  exists idx val, unappend_scan n vs = Ok (idx, val) /\
    0 <= idx < 65536 /\ val = cell vs idx /\
    forall k, idx < k < 65536 -> cell vs k = 0.
Proof.
  intros Hw Hlen. induction n as [|n IH]; intros Hn Hz.
  - exists 0, 0. cbn [unappend_scan]. split; [done|]. split; [lia|].
    split; [symmetry; apply Hz; lia|]. intros k Hk. apply Hz. lia.
  - cbn [unappend_scan]. rewrite zget_ok by clia. rsimpl.
    rewrite Nat2Z.id.
    set (v := nth n vs 0).
    pose proof (words_nth vs n Hw) as Hv. fold v in Hv.
    assert (0 <= Z.of_nat n) as Hn0 by lia.
    pose proof (cell_join vs (Z.of_nat n) 0 Hn0 (or_introl eq_refl)) as Hc0.
    pose proof (cell_join vs (Z.of_nat n) 1 Hn0 (or_intror eq_refl)) as Hc1.
    rewrite Nat2Z.id in Hc0, Hc1. fold v in Hc0, Hc1. rewrite Z.add_0_r in Hc0.
    destruct (join_index (Z.of_nat n) 0 Hn0 (or_introl eq_refl)) as (Ej0 & _ & _).
    destruct (join_index (Z.of_nat n) 1 Hn0 (or_intror eq_refl)) as (Ej1 & _ & _).
    rewrite Z.add_0_r in Ej0.
    consts. fold (half v 0) (half v 1). rewrite Ej0, Ej1.
    pose proof (half_range v 0). pose proof (half_range v 1).
    assert (forall k, 2 * Z.of_nat n <= k < 65536 ->
            half v 0 = 0 -> half v 1 = 0 -> cell vs k = 0) as Hz'.
    { intros k Hk E0 E1.
      destruct (Z.eq_dec k (2 * Z.of_nat n)) as [->|]; [by rewrite Hc0|].
      destruct (Z.eq_dec k (2 * Z.of_nat n + 1)) as [->|]; [by rewrite Hc1|].
      apply Hz. lia. }
    destruct (Z.ltb_spec 0 v) as [Hpos|Hzero].
    + destruct (Z.ltb_spec 0 (half v 1)) as [H1|H1].
      * exists (2 * Z.of_nat n + 1), (half v 1). rewrite u32_small by lia.
        split; [done|]. split; [lia|]. split; [done|].
        intros k Hk. apply Hz. lia.
      * destruct (Z.ltb_spec 0 (half v 0)) as [H0'|H0'].
        -- exists (2 * Z.of_nat n), (half v 0). rewrite u32_small by lia.
           split; [done|]. split; [lia|]. split; [done|].
           intros k Hk.
           destruct (Z.eq_dec k (2 * Z.of_nat n + 1)) as [->|]; [rewrite Hc1; lia|].
           apply Hz. lia.
        -- apply IH; [lia|]. intros k Hk. apply Hz'; lia.
    + assert (v = 0) as Ev by lia.
      apply IH; [lia|]. intros k Hk. apply Hz'; [lia|rewrite Ev; apply half_zero..].
Qed.

Lemma entries_unsnoc b :
  0 < Length b <= Z.of_nat (length (Values b)) ->
  entries b = entries {| Length := Length b - 1; Frozen := Frozen b; Values := Values b |}
              ++ [unpack (nth (Z.to_nat (Length b - 1)) (Values b) 0)].
Proof.
  intros HL. unfold entries. cbn [Length Values].
  replace (Z.to_nat (Length b)) with (S (Z.to_nat (Length b - 1))) by lia.
  erewrite take_S_r by (apply nth_elem_of; lia).
  by rewrite fmap_app.
Qed.

Lemma UnAppend_spec c :
  acc_blk c -> blk_ok c -> uniq c -> 0 < Length c ->
  exists c' idx val, Block.UnAppend c = Ok (c', idx, val) /\
    acc_blk c' /\ blk_ok c' /\ uniq c' /\
    0 <= idx < 65536 /\ 0 <= val < 65536 /\
    get c idx = val /\
    (forall k, k <> idx -> get c' k = get c k) /\
    (if BLOCK_FULL_LENGTH <? Length c'
     then (forall k, idx < k < 65536 -> cell (Values c') k = 0) /\ cell (Values c') idx = val
     else Forall (fun kv : Z * Z => kv.1 < idx) (entries c')).
Proof.
  intros Hacc Hok Hu HL. pose proof Hacc as [Hf Hlen]. pose proof Hok as [Hw Hb].
  unfold Block.UnAppend. rewrite Hf.
  destruct (Z.ltb_spec BLOCK_FULL_LENGTH (Length c)) as [Hm|Hm].
  - destruct Hb as [HL' _].
    destruct (unappend_scan_spec (Values c) (Z.to_nat BLOCK_FULL_LENGTH))
      as (idx & val & -> & Hidx & Hval & Hz); [done|done|clia|intros k Hk; clia|].
    rsimpl. pose proof (cell_range (Values c) idx).
    assert ((BLOCK_IDX_MASK <? idx) = false) as -> by (apply Z.ltb_ge; clia).
    assert ((BLOCK_VAL_MASK <? val) = false) as -> by (apply Z.ltb_ge; clia).
    assert ((BLOCK_FULL_LENGTH <? Length c) = true) as Hm' by (apply Z.ltb_lt; lia).
    exists c, idx, val. split; [done|].
    split; [done|]. split; [done|]. split; [done|]. split; [done|].
    split; [lia|]. split; [unfold get; by rewrite Hm'|]. split; [done|].
    rewrite Hm'. split; [done|lia].
  - destruct Hb as [HL' Hasc].
    assert ((0 <? Length c) = true) as -> by (apply Z.ltb_lt; lia).
    rewrite zget_ok by lia. rsimpl.
    set (kv := nth (Z.to_nat (Length c - 1)) (Values c) 0).
    assert (0 <= kv < 2 ^ 32) as Hkv by (apply words_nth; done).
    destruct (unpack_range kv Hkv) as [Hk1 Hk2]. unfold unpack in Hk1, Hk2. cbn [fst snd] in Hk1, Hk2.
    consts.
    assert ((65535 <? Z.shiftr kv 16) = false) as -> by (apply Z.ltb_ge; lia).
    assert ((65535 <? Z.land kv 65535) = false) as -> by (apply Z.ltb_ge; lia).
    set (c' := {| Length := Length c - 1; Frozen := false; Values := Values c |}).
    assert (entries c = entries c' ++ [(Z.shiftr kv 16, Z.land kv 65535)]) as Eent
      by (rewrite (entries_unsnoc c) by lia; done).
    specialize (Hu ltac:(clia)). rewrite Eent in Hu.
    apply strictly_ascending_snoc in Hu as [Hu' Hlt]. cbn [fst] in Hlt.
    exists c', (Z.shiftr kv 16), (Z.land kv 65535). split; [done|].
    assert ((32768 <? Length c') = false) as Hm' by (apply Z.ltb_ge; cbn; lia).
    split; [split; [done|done]|].
    split. { split; [done|]. consts. rewrite Hm'. split; [cbn; lia|].
             by apply strictly_ascending_ascending. }
    split; [intros _; done|].
    split; [lia|]. split; [lia|].
    split. { unfold get. consts.
             assert ((32768 <? Length c) = false) as -> by (apply Z.ltb_ge; lia).
             rewrite Eent, last_val_snoc. cbn [fst snd]. by rewrite Z.eqb_refl. }
    split. { intros k Hk. unfold get. consts. rewrite Hm'.
             assert ((32768 <? Length c) = false) as -> by (apply Z.ltb_ge; lia).
             rewrite Eent, last_val_snoc. cbn [fst snd].
             destruct (Z.eqb_spec (Z.shiftr kv 16) k); [lia|done]. }
    rewrite Hm'. done.
Qed.

(** ** MultiBlock: invariant and abstract content *)

Lemma split16 k :
  k = 65536 * Z.shiftr k 16 + Z.land k 65535 /\ 0 <= Z.land k 65535 < 65536.
Proof.
  rewrite Z.shiftr_div_pow2 by lia. change 65535 with (Z.ones 16).
  rewrite Z.land_ones by lia. change (2 ^ 16) with 65536.
  pose proof (Z.div_mod k 65536). pose proof (Z.mod_pos_bound k 65536). lia.
Qed.

Lemma shiftr16_mono a b : a <= b -> Z.shiftr a 16 <= Z.shiftr b 16.
Proof. intros H. rewrite !Z.shiftr_div_pow2 by lia. apply Z.div_le_mono; lia. Qed.

Lemma shiftr16_bounds a : 0 <= a < 2 ^ 63 -> 0 <= Z.shiftr a 16 < 2 ^ 47.
Proof.
  intros H. rewrite Z.shiftr_div_pow2 by lia. split.
  - apply Z.div_pos; lia.
  - apply Z.div_lt_upper_bound; lia.
Qed.

Lemma i64_small z : - 2 ^ 63 <= z < 2 ^ 63 -> i64 z = z.
Proof. intros H. unfold i64. rewrite Z.mod_small by lia. lia. Qed.

Lemma join16 K i :
  0 <= K < 2 ^ 47 -> 0 <= i < 65536 ->
  Z.lor (i64 (Z.shiftl K 16)) i = 65536 * K + i /\
  Z.shiftr (65536 * K + i) 16 = K /\ Z.land (65536 * K + i) 65535 = i.
Proof.
  intros HK Hi.
  assert (Z.shiftl K 16 = 65536 * K) as E by (rewrite Z.shiftl_mul_pow2 by lia; lia).
  rewrite E, i64_small by lia.
  assert (Z.shiftr (65536 * K + i) 16 = K) as E1.
  { rewrite Z.shiftr_div_pow2 by lia. symmetry. apply (Z.div_unique _ _ K i); lia. }
  assert (Z.land (65536 * K + i) 65535 = i) as E2.
  { change 65535 with (Z.ones 16). rewrite Z.land_ones by lia.
    symmetry. apply (Z.mod_unique _ _ K i); lia. }
  split; [|done].
  rewrite <- (Z.add_lor_land (65536 * K) i).
  assert (Z.land (65536 * K) i = 0) as ->; [|lia].
  rewrite <- E. apply Z.bits_inj'; intros n Hn. rewrite Z.land_spec, Z.bits_0.
  destruct (Z.ltb_spec n 16).
  - rewrite Z.shiftl_spec_low by lia. done.
  - rewrite (testbit_small i n 16) by lia. apply andb_false_r.
Qed.

Lemma same_shard_neq a b :
  a <> b -> Z.shiftr a 16 = Z.shiftr b 16 -> Z.land a 65535 <> Z.land b 65535.
Proof.
  intros Hne Hs E. destruct (split16 a) as [Ea _], (split16 b) as [Eb _]. lia.
Qed.

Lemma same_shard_lt a b :
  a < b -> Z.shiftr a 16 = Z.shiftr b 16 -> Z.land a 65535 < Z.land b 65535.
Proof.
  intros Hne Hs. destruct (split16 a) as [Ea _], (split16 b) as [Eb _]. lia.
Qed.

Lemma MLookup_mget m id :
  mb_ok m -> MultiBlock.Lookup m id = Ok (mget m id).
Proof.
  intros (Hacc & Hok & Hu & HId & HVal & Htail & Hsh).
  unfold MultiBlock.Lookup, mget, sget. consts.
  destruct (split16 id) as [_ Hlow].
  rewrite u32_small by lia.
  destruct (id =? LastId m); [done|].
  destruct (Z.shiftr id 16 =? Z.shiftr (LastId m) 16); [by apply Lookup_get|].
  destruct (Blocks m !! Z.shiftr id 16) as [b|] eqn:E; [|done].
  apply Lookup_get; [|done]. apply (Hsh _ _ E).
Qed.

Lemma mb_ok_New : mb_ok NewMultiBlock.
Proof.
  split; [apply acc_NewAccumulationBlock|]. split; [apply blk_ok_NewAccumulationBlock|].
  split; [apply uniq_NewAccumulationBlock|]. split; [cbn; lia|]. split; [cbn; lia|].
  split; [constructor|]. intros k b H. cbn [NewMultiBlock Blocks] in H.
  by rewrite lookup_empty in H.
Qed.

Lemma mget_New id : mget NewMultiBlock id = 0.
Proof.
  unfold mget, sget. cbn [NewMultiBlock LastId LastVal Current Blocks].
  rewrite lookup_empty, get_NewAccumulationBlock. by repeat destruct (_ =? _).
Qed.

(** *** Flushing the pending record into the current block *)

Lemma absent_below id l : Forall (fun kv : Z * Z => kv.1 < id) l -> Forall (fun kv : Z * Z => kv.1 <> id) l.
Proof. intros H. eapply Forall_impl; [exact H|]. cbn. lia. Qed.

Lemma get_pairs_above b i k :
  (BLOCK_FULL_LENGTH <? Length b) = false ->
  Forall (fun kv : Z * Z => kv.1 < i) (entries b) -> i <= k -> get b k = 0.
Proof.
  intros Hm H Hk. unfold get. rewrite Hm. apply last_val_absent.
  eapply Forall_impl; [exact H|]. cbn. lia.
Qed.

Lemma flush_spec m :
  mb_ok m ->
  let i := Z.land (LastId m) 65535 in
  exists cur, Block.Append (Current m) (u32 i) (LastVal m) = Ok cur /\
    acc_blk cur /\ blk_ok cur /\ uniq cur /\ 0 < Length cur /\
    (forall k, 0 <= k < 65536 -> get cur k = if k =? i then LastVal m else get (Current m) k) /\
    (if BLOCK_FULL_LENGTH <? Length cur
     then forall k, i < k < 65536 -> cell (Values cur) k = 0
     else Forall (fun kv : Z * Z => kv.1 <= i) (entries cur)).
Proof.
  intros (Hacc & Hok & Hu & HId & HVal & Htail & Hsh) i.
  destruct (split16 (LastId m)) as [_ Hi]. fold i in Hi.
  rewrite u32_small by lia. pose proof Hacc as [Hf Hlen]. pose proof Hok as [Hw Hb].
  unfold tail_ok in Htail. fold i in Htail.
  destruct (Z.ltb_spec BLOCK_FULL_LENGTH (Length (Current m))) as [Hm|Hm].
  - (* array mode *)
    destruct Hb as [HL _]. destruct Htail as [Hz Habs].
    destruct (Append_array (Current m) i (LastVal m)) as (vs & -> & Hl & Hws & Hc); [done..|].
    eexists; split; [done|]. unfold get. cbn [Length Values].
    assert ((BLOCK_FULL_LENGTH <? 65536) = true) as Hm1 by done.
    assert ((BLOCK_FULL_LENGTH <? Length (Current m)) = true) as Hm2 by (apply Z.ltb_lt; lia).
    rewrite Hm1, Hm2.
    split; [apply acc_blk_mk; lia|].
    split. { split; [by apply Hws|]. cbn [Length Values]. rewrite Hm1. split; [done|lia]. }
    split. { intros HL'. cbn in HL'. clia. }
    split; [lia|].
    split. { intros k Hk. rewrite Hc by lia. destruct (k =? i) eqn:E; [|done].
             apply Z.eqb_eq in E as ->. done. }
    intros k Hk. rewrite Hc by lia. destruct (Z.eqb_spec k i); [lia|]. by apply Hz.
  - destruct Hb as [HL Hasc]. specialize (Hu Hm).
    destruct (Z.eq_dec (Length (Current m)) BLOCK_FULL_LENGTH) as [Efull|Hne].
    + (* transition *)
      destruct (Append_transition (Current m) i (LastVal m)) as (vs & -> & Hl & Hws & Hc); [done..|].
      eexists; split; [done|]. unfold get. cbn [Length Values].
      assert ((BLOCK_FULL_LENGTH <? 65536) = true) as Hm1 by done.
      assert ((BLOCK_FULL_LENGTH <? Length (Current m)) = false) as Hm2 by (apply Z.ltb_ge; lia).
      rewrite Hm1, Hm2.
      split; [apply acc_blk_mk; lia|].
      split. { split; [done|]. cbn [Length Values]. rewrite Hm1. split; [done|lia]. }
      split. { intros HL'. cbn in HL'. clia. }
      split; [lia|].
      split. { intros k Hk. rewrite Hc by lia. rewrite or_vals_snoc. cbn [fst snd].
               rewrite (strict_or_last k _ Hu).
               destruct (Z.eqb_spec k i) as [->|Hne'].
               - rewrite Z.eqb_refl, last_val_absent by (by apply absent_below).
                 apply Z.lor_0_l.
               - destruct (Z.eqb_spec i k); [lia|done]. }
      intros k Hk. rewrite Hc by lia. rewrite or_vals_snoc. cbn [fst snd].
      destruct (Z.eqb_spec i k); [lia|]. apply or_vals_absent.
      eapply Forall_impl; [exact Htail|]. cbn. lia.
    + (* list-of-pairs mode *)
      rewrite Append_pairs by (done || lia).
      eexists; split; [done|]. unfold get.
      set (cur := {| Length := Length (Current m) + 1; Frozen := false;
                     Values := <[Z.to_nat (Length (Current m)) := pack (i, LastVal m)]> (Values (Current m)) |}).
      assert (entries cur = entries (Current m) ++ [(i, LastVal m)]) as Eent.
      { unfold cur. rewrite entries_snoc by lia. by rewrite unpack_pack. }
      assert ((BLOCK_FULL_LENGTH <? Length cur) = false) as Hm1 by (apply Z.ltb_ge; cbn; lia).
      assert ((BLOCK_FULL_LENGTH <? Length (Current m)) = false) as Hm2 by (apply Z.ltb_ge; lia).
      rewrite Hm1, Hm2.
      assert (strictly_ascending (entries cur)) as Hs.
      { rewrite Eent. apply strictly_ascending_snoc. done. }
      split; [apply acc_blk_mk; by rewrite length_insert|].
      split. { split; [apply Forall_insert; [done|by apply pack_range]|].
               rewrite Hm1.
               split; [unfold cur; cbn [Length Values]; rewrite length_insert; lia|].
               by apply strictly_ascending_ascending. }
      split; [intros _; done|].
      split; [cbn; lia|].
      split. { intros k Hk. rewrite Eent, last_val_snoc. cbn [fst snd].
               destruct (Z.eqb_spec i k), (Z.eqb_spec k i); try done; lia. }
      rewrite Eent. apply Forall_app. split.
      * eapply Forall_impl; [exact Htail|]. cbn. lia.
      * constructor; [cbn; lia|constructor].
Qed.

(** *** MultiBlock.Append *)

Lemma lor_absorb c l v : Z.lor c l = l -> Z.lor c (Z.lor l v) = Z.lor l v.
Proof. intros H. by rewrite Z.lor_assoc, H. Qed.

Lemma shards_ok_weaken blocks b1 b2 : shards_ok blocks b1 -> b1 <= b2 -> shards_ok blocks b2.
Proof. intros H Hle k b Hk. destruct (H k b Hk). split; [done|lia]. Qed.

Lemma shards_ok_insert blocks bound k b :
  shards_ok blocks bound -> shard_ok b -> 0 <= k < bound ->
  shards_ok (<[k := b]> blocks) bound.
Proof.
  intros H Hb Hk k' b' E. destruct (decide (k = k')) as [<-|Hne].
  - rewrite lookup_insert_eq in E. by injection E as <-.
  - rewrite lookup_insert_ne in E by done. by apply H.
Qed.

Lemma MAppend_spec m id val :
  mb_ok m -> LastId m <= id < 2 ^ 63 -> 0 <= val < 65536 ->
  exists m', MultiBlock.Append m id val = Ok m' /\ mb_ok m' /\
    LastId m' = id /\
    LastVal m' = (if id =? LastId m then Z.lor (LastVal m) val else val) /\
    forall k, k <> id -> mget m' k = mget m k.
Proof.
  intros Hm Hid Hval. pose proof Hm as (Hacc & Hok & Hu & HId & HVal & Htail & Hsh).
  unfold MultiBlock.Append.
  assert ((id <? LastId m) = false) as -> by (apply Z.ltb_ge; lia).
  assert ((BLOCK_VAL_MASK <? val) = false) as -> by (apply Z.ltb_ge; clia).
  destruct (Z.eqb_spec id (LastId m)) as [->|Hne].
  { eexists. split; [done|]. cbn [LastId LastVal].
    split.
    { split; [done|]. split; [done|]. split; [done|]. split; [done|].
      split; [by apply lor_range|]. split; [|done].
      unfold tail_ok in *. cbn [LastId LastVal Current].
      destruct (BLOCK_FULL_LENGTH <? Length (Current m)); [|done].
      destruct Htail as [Hz Habs]. split; [done|]. by apply lor_absorb. }
    split; [done|]. split; [done|].
    intros k Hk. unfold mget. cbn [LastId LastVal Current Blocks].
    destruct (Z.eqb_spec k (LastId m)); [done|]. done. }
  destruct (flush_spec m Hm) as (cur & Hcur & Hacc' & Hok' & Hu' & HL' & Hget & Htail').
  consts. rewrite Hcur. rsimpl.
  set (i := Z.land (LastId m) 65535) in *.
  set (U := Z.shiftr id 16). set (U0 := Z.shiftr (LastId m) 16) in *.
  assert (U0 <= U) as HU by (apply shiftr16_mono; lia).
  destruct (split16 (LastId m)) as [ELast Hi]. fold i U0 in ELast, Hi.
  destruct (split16 id) as [Eid Hi']. fold U in Eid.
  pose proof (shiftr16_bounds _ HId) as HU0. fold U0 in HU0.
  destruct (Z.eqb_spec U U0) as [EU|NU]; cbn [negb]; rsimpl.
  - (* same shard *)
    eexists. split; [done|]. cbn [LastId LastVal].
    assert (i < Z.land id 65535) as Hlow by (apply same_shard_lt; [lia|done]).
    split.
    { split; [done|]. split; [done|]. split; [done|]. split; [cbn [LastId]; lia|]. split; [done|].
      split.
      - unfold tail_ok. cbn [LastId LastVal Current]. consts.
        destruct (32768 <? Length cur).
        + split; [intros k Hk; apply Htail'; lia|].
          rewrite Htail' by lia. apply Z.lor_0_l.
        + eapply Forall_impl; [exact Htail'|]. cbn. lia.
      - cbn [LastId Blocks]. fold U. by rewrite EU. }
    split; [done|]. split; [done|].
    intros k Hk. unfold mget, sget. cbn [LastId LastVal Current Blocks]. fold U U0.
    destruct (Z.eqb_spec k id); [done|].
    destruct (split16 k) as [Ek Hklow].
    destruct (Z.eqb_spec k (LastId m)) as [->|Hk'].
    + fold U0. rewrite EU, Z.eqb_refl. fold i. rewrite Hget by done. by rewrite Z.eqb_refl.
    + rewrite EU. destruct (Z.eqb_spec (Z.shiftr k 16) U0) as [Ek0|]; [|done].
      rewrite Hget by done.
      destruct (Z.eqb_spec (Z.land k 65535) i); [|done].
      exfalso. apply (same_shard_neq k (LastId m)); done.
  - (* shard change *)
    rewrite Reset_acc by done. rsimpl.
    destruct (Copy_spec cur) as [Hshard Hcopy]; [done..|].
    eexists. split; [done|]. cbn [LastId LastVal].
    split.
    { split; [apply acc_NewAccumulationBlock|]. split; [apply blk_ok_NewAccumulationBlock|].
      split; [apply uniq_NewAccumulationBlock|]. split; [cbn [LastId]; lia|]. split; [done|].
      split; [constructor|]. cbn [LastId Blocks]. fold U.
      apply shards_ok_insert; [|done|lia].
      eapply shards_ok_weaken; [exact Hsh|]. fold U0. lia. }
    split; [done|]. split; [done|].
    intros k Hk. unfold mget, sget. cbn [LastId LastVal Current Blocks]. fold U U0.
    destruct (Z.eqb_spec k id); [done|].
    destruct (split16 k) as [Ek Hklow].
    destruct (Z.eqb_spec (Z.shiftr k 16) U) as [EkU|NkU].
    + rewrite get_NewAccumulationBlock.
      destruct (Z.eqb_spec k (LastId m)) as [->|]; [fold U0 in EkU; lia|].
      destruct (Z.eqb_spec (Z.shiftr k 16) U0); [lia|].
      destruct (Blocks m !! Z.shiftr k 16) as [b|] eqn:E; [|done].
      destruct (Hsh _ _ E) as [_ Hb]. fold U0 in Hb. lia.
    + destruct (Z.eqb_spec (Z.shiftr k 16) U0) as [Ek0|Nk0].
      * rewrite Ek0, lookup_insert_eq, Hcopy, Hget by done.
        destruct (Z.eqb_spec k (LastId m)) as [->|Hk'].
        -- fold i. by rewrite Z.eqb_refl.
        -- destruct (Z.eqb_spec (Z.land k 65535) i); [|done].
           exfalso. apply (same_shard_neq k (LastId m)); done.
      * rewrite lookup_insert_ne by done.
        destruct (Z.eqb_spec k (LastId m)) as [->|]; [done|]. done.
Qed.

(** *** pushCurrent *)

Lemma maxLastId_val : maxLastId = 2 ^ 63 - 1.
Proof. done. Qed.

Lemma push_spec m :
  mb_ok m ->
  exists blk,
    MultiBlock.pushCurrent m =
      Ok {| Blocks := <[Z.shiftr (LastId m) 16 := blk]> (Blocks m);
            Current := NewAccumulationBlock; LastId := maxLastId; LastVal := 0 |} /\
    shards_ok (<[Z.shiftr (LastId m) 16 := blk]> (Blocks m)) (2 ^ 47) /\
    (forall k b, Blocks m !! k = Some b -> k < Z.shiftr (LastId m) 16) /\
    forall k, sget (<[Z.shiftr (LastId m) 16 := blk]> (Blocks m)) k = mget m k.
Proof.
  intros Hm. pose proof Hm as (Hacc & Hok & Hu & HId & HVal & Htail & Hsh).
  destruct (flush_spec m Hm) as (cur & Hcur & Hacc' & Hok' & Hu' & HL' & Hget & Htail').
  unfold MultiBlock.pushCurrent. consts. rewrite Hcur. rsimpl.
  rewrite Reset_acc by done. rsimpl.
  destruct (Copy_spec cur) as [Hshard Hcopy]; [done..|].
  pose proof (shiftr16_bounds _ HId) as HU0.
  exists (Block.Copy cur). split; [done|].
  split. { apply shards_ok_insert; [|done|lia]. eapply shards_ok_weaken; [exact Hsh|lia]. }
  split. { intros k b E. apply (Hsh _ _ E). }
  intros k. unfold sget, mget.
  destruct (split16 k) as [Ek Hklow].
  destruct (Z.eqb_spec (Z.shiftr k 16) (Z.shiftr (LastId m) 16)) as [Ek0|Nk0].
  - rewrite Ek0, lookup_insert_eq, Hcopy, Hget by done.
    destruct (Z.eqb_spec k (LastId m)) as [->|Hk'].
    + by rewrite Z.eqb_refl.
    + destruct (Z.eqb_spec (Z.land k 65535) (Z.land (LastId m) 65535)); [|done].
      exfalso. apply (same_shard_neq k (LastId m)); done.
  - rewrite lookup_insert_ne by done.
    destruct (Z.eqb_spec k (LastId m)) as [->|]; [done|]. done.
Qed.

(** *** unPushCurrent and Merge, for any order of map iteration *)

Lemma sorted_last_max (l : list Z) K :
  StronglySorted Z.le l -> l !! (length l - 1)%nat = Some K ->
  forall x, x ∈ l -> x <= K.
Proof.
  intros Hs HK x Hx.
  apply list_elem_of_lookup in Hx as [j Hj].
  pose proof (lookup_lt_Some _ _ _ Hj) as Hlt.
  destruct (decide (j = (length l - 1)%nat)) as [->|Hne]; [rewrite HK in Hj; injection Hj; lia|].
  rewrite <- (take_drop (S j) l) in Hs, HK.
  apply StronglySorted_app in Hs as (Hle & _ & _).
  apply Hle.
  - apply list_elem_of_lookup. exists j. rewrite lookup_take_lt by lia. done.
  - apply list_elem_of_lookup. exists (length l - 1 - S j)%nat.
    rewrite length_app, length_take, length_drop in HK.
    rewrite lookup_app_r in HK by (rewrite length_take; lia).
    rewrite length_take in HK. rewrite <- HK. f_equal. lia.
Qed.

Section GoMap.

Context (range_order : gmap Z Block -> list (Z * Block)).

Context (range_perm : range_complete range_order).

Lemma range_elem blocks k b :
  (k, b) ∈ range_order blocks <-> blocks !! k = Some b.
Proof. rewrite (range_perm blocks). apply elem_of_map_to_list. Qed.

Lemma range_NoDup blocks : NoDup (range_order blocks).*1.
Proof. rewrite (range_perm blocks). apply NoDup_fst_map_to_list. Qed.

Lemma sortedBlockKeys_elem blocks cur lid lval k :
  k ∈ MultiBlock.sortedBlockKeys range_order
        {| Blocks := blocks; Current := cur; LastId := lid; LastVal := lval |}
  <-> is_Some (blocks !! k).
Proof.
  unfold MultiBlock.sortedBlockKeys. cbn [Blocks].
  rewrite merge_sort_Permutation. rewrite list_elem_of_fmap. split.
  - intros ([k' b] & -> & Hin). apply range_elem in Hin. by exists b.
  - intros [b Hb]. exists (k, b). split; [done|]. by apply range_elem.
Qed.

Lemma unpush_spec blocks cur lid lval :
  acc_blk cur -> shards_ok blocks (2 ^ 47) ->
  exists m',
    MultiBlock.unPushCurrent range_order
      {| Blocks := blocks; Current := cur; LastId := lid; LastVal := lval |} = Ok m' /\
    mb_ok m' /\ forall k, mget m' k = sget blocks k.
Proof.
  intros Hacc Hsh. unfold MultiBlock.unPushCurrent.
  set (m := {| Blocks := blocks; Current := cur; LastId := lid; LastVal := lval |}).
  set (keys := MultiBlock.sortedBlockKeys range_order m).
  change (Blocks m) with blocks. change (Current m) with cur.
  assert (StronglySorted Z.le keys) as Hsorted by apply (StronglySorted_merge_sort Z.le).
  destruct (Nat.ltb_spec 0 (length keys)) as [Hlen|Hlen].
  - rewrite zget_ok by lia. rsimpl.
    replace (Z.to_nat (Z.of_nat (length keys) - 1)) with (length keys - 1)%nat by lia.
    set (K := nth (length keys - 1) keys 0).
    assert (keys !! (length keys - 1)%nat = Some K) as HK by (apply nth_elem_of; lia).
    assert (K ∈ keys) as HKin by (apply list_elem_of_lookup; eauto).
    apply sortedBlockKeys_elem in HKin as [B HB]. rewrite HB.
    destruct (Hsh _ _ HB) as [(HBf & HBok & HBu & HBL & HBlen) HKr].
    destruct (CopyFrom_spec cur B) as (c1 & -> & Hacc1 & Hok1 & Hu1 & HL1 & Hget1); [done..|].
    rsimpl.
    destruct (UnAppend_spec c1) as (c2 & idx & val & -> & Hacc2 & Hok2 & Hu2 & Hidx & Hval & Hg & Hget2 & Htail);
      [done|done|done|lia|].
    rsimpl. consts.
    destruct (join16 K idx HKr Hidx) as (-> & Eup & Elow).
    eexists. split; [done|].
    split.
    { split; [done|]. split; [done|]. split; [done|]. cbn [LastId LastVal Blocks Current].
      split; [lia|]. split; [done|].
      split.
      - unfold tail_ok. cbn [LastId LastVal Blocks Current]. rewrite Elow. consts.
        destruct (32768 <? Length c2); [|done].
        destruct Htail as [Hz ->]. split; [done|]. apply Z.lor_diag.
      - rewrite Eup. intros k b E.
        destruct (decide (k = K)) as [->|Hne]; [by rewrite lookup_delete_eq in E|].
        rewrite lookup_delete_ne in E by done.
        destruct (Hsh _ _ E) as [Hb Hk]. split; [done|].
        assert (k <= K); [|lia].
        apply (sorted_last_max keys K Hsorted HK).
        apply sortedBlockKeys_elem. by exists b. }
    intros k. unfold mget, sget. cbn [LastId LastVal Blocks Current]. rewrite Eup.
    destruct (split16 k) as [Ek Hklow].
    destruct (Z.eqb_spec k (65536 * K + idx)) as [->|Hk].
    + rewrite Eup, HB, Elow, <- Hget1. done.
    + destruct (Z.eqb_spec (Z.shiftr k 16) K) as [EK|NK].
      * rewrite EK, HB, <- Hget1. apply Hget2. intros E. apply Hk. lia.
      * by rewrite lookup_delete_ne.
  - assert (blocks = ∅) as ->.
    { apply map_empty. intros k. apply eq_None_not_Some. intros Hk.
      apply (sortedBlockKeys_elem _ cur lid lval) in Hk. fold m keys in Hk.
      destruct keys; [by apply elem_of_nil in Hk|cbn in Hlen; lia]. }
    rewrite Reset_acc by done. rsimpl.
    exists NewMultiBlock. split; [done|]. split; [apply mb_ok_New|].
    intros k. rewrite (mget_New k). unfold sget. by rewrite lookup_empty.
Qed.

Lemma merge_shard_eq blocks nb k b2 :
  MultiBlock.merge_shard (blocks, nb) (k, b2) =
  match blocks !! k with
  | Some b =>
    nb' ← Block.ResetAndMergeFrom nb b b2;
    Ok (<[k := Block.Copy nb']> blocks, nb')
  | None => Ok (<[k := b2]> blocks, nb)
  end.
Proof. done. Qed.

(* The shards of the argument merged into the receiver's map. *)
Lemma merge_fold kbs blocks nb :
  NoDup kbs.*1 ->
  (forall k b2, (k, b2) ∈ kbs -> shard_ok b2 /\ 0 <= k < 2 ^ 47) ->
  shards_ok blocks (2 ^ 47) -> acc_blk nb ->
  exists blocks' nb',
    foldM MultiBlock.merge_shard (blocks, nb) kbs = Ok (blocks', nb') /\
    shards_ok blocks' (2 ^ 47) /\ acc_blk nb' /\
    forall K,
      (K ∉ kbs.*1 -> blocks' !! K = blocks !! K) /\
      (forall b2, (K, b2) ∈ kbs ->
         exists b', blocks' !! K = Some b' /\
           forall i, 0 <= i < 65536 ->
             get b' i = Z.lor (match blocks !! K with Some b => get b i | None => 0 end)
                              (get b2 i)).
Proof.
  revert blocks nb. induction kbs as [|[k b2] kbs IH]; intros blocks nb Hnd Hkbs Hsh Hnb.
  - exists blocks, nb. split; [done|]. split; [done|]. split; [done|].
    intros K. split; [done|]. intros b2 Hin. by apply elem_of_nil in Hin.
  - rewrite fmap_cons in Hnd. apply NoDup_cons in Hnd as [Hk Hnd]. cbn [fst] in Hk.
    destruct (Hkbs k b2 ltac:(left)) as [(Hf2 & Hok2 & Hu2 & HL2 & Hlen2) Hkr].
    assert (forall k' b', (k', b') ∈ kbs -> shard_ok b' /\ 0 <= k' < 2 ^ 47) as Hkbs'
      by (intros; apply Hkbs; by right).
    cbn [foldM]. rewrite merge_shard_eq.
    destruct (blocks !! k) as [b|] eqn:Eb.
    + destruct (Hsh _ _ Eb) as [(Hf & Hok & Hu & HL & Hlen) _].
      destruct (ResetAndMergeFrom_spec nb b b2) as (nb1 & -> & Hacc1 & Hok1 & Hu1 & HL1 & Hg1);
        [done..|].
      rsimpl.
      destruct (Copy_spec nb1) as [Hshard Hcopy]; [done|done|done|by apply HL1|].
      destruct (IH (<[k := Block.Copy nb1]> blocks) nb1) as (blocks' & nb' & -> & Hsh' & Hnb' & HK);
        [done|done|by apply shards_ok_insert|done|].
      exists blocks', nb'. split; [done|]. split; [done|]. split; [done|].
      intros K. destruct (HK K) as [HK1 HK2]. split.
      * intros Hnot. rewrite fmap_cons, not_elem_of_cons in Hnot. destruct Hnot as [Hne Hnot].
        cbn [fst] in Hne. rewrite HK1 by done. by rewrite lookup_insert_ne.
      * intros b2' Hin. apply elem_of_cons in Hin as [[= -> ->]|Hin].
        -- rewrite HK1 by done. rewrite lookup_insert_eq, Eb.
           eexists. split; [done|]. intros i Hi. rewrite Hcopy. by apply Hg1.
        -- assert (K <> k) as Hne.
           { intros ->. apply Hk. apply list_elem_of_fmap. by exists (k, b2'). }
           destruct (HK2 b2' Hin) as (b' & Hb' & Hg').
           exists b'. split; [done|]. intros i Hi. rewrite Hg' by done.
           by rewrite lookup_insert_ne.
    + rsimpl.
      destruct (IH (<[k := b2]> blocks) nb) as (blocks' & nb' & -> & Hsh' & Hnb' & HK);
        [done|done|by apply shards_ok_insert|done|].
      exists blocks', nb'. split; [done|]. split; [done|]. split; [done|].
      intros K. destruct (HK K) as [HK1 HK2]. split.
      * intros Hnot. rewrite fmap_cons, not_elem_of_cons in Hnot. destruct Hnot as [Hne Hnot].
        cbn [fst] in Hne. rewrite HK1 by done. by rewrite lookup_insert_ne.
      * intros b2' Hin. apply elem_of_cons in Hin as [[= -> ->]|Hin].
        -- rewrite HK1 by done. rewrite lookup_insert_eq, Eb.
           eexists. split; [done|]. intros i Hi. by rewrite Z.lor_0_l.
        -- assert (K <> k) as Hne.
           { intros ->. apply Hk. apply list_elem_of_fmap. by exists (k, b2'). }
           destruct (HK2 b2' Hin) as (b' & Hb' & Hg').
           exists b'. split; [done|]. intros i Hi. rewrite Hg' by done.
           by rewrite lookup_insert_ne.
Qed.

Lemma Merge_spec X Y :
  mb_ok X -> mb_ok Y ->
  exists X',
    MultiBlock.Merge range_order X Y =
      Ok (X', {| Blocks := ∅; Current := NewEmptyBlock; LastId := 0; LastVal := 0 |}) /\
    mb_ok X' /\
    forall k, mget X' k = Z.lor (mget X k) (mget Y k).
Proof.
  intros HX HY. unfold MultiBlock.Merge.
  destruct (push_spec X HX) as (bx & -> & Hshx & _ & Hgx). rsimpl.
  destruct (push_spec Y HY) as (by' & -> & Hshy & _ & Hgy). rsimpl.
  cbn [Blocks Current LastId LastVal].
  set (BX := <[Z.shiftr (LastId X) 16 := bx]> (Blocks X)) in *.
  set (BY := <[Z.shiftr (LastId Y) 16 := by']> (Blocks Y)) in *.
  destruct (merge_fold (range_order BY) BX NewAccumulationBlock)
    as (blocks' & nb' & -> & Hsh' & _ & HK);
    [apply range_NoDup|intros k b2 Hin; apply range_elem in Hin; by apply Hshy
    |done|apply acc_NewAccumulationBlock|].
  rsimpl.
  destruct (unpush_spec blocks' NewAccumulationBlock maxLastId 0)
    as (X' & -> & HX' & Hg'); [apply acc_NewAccumulationBlock|done|].
  rsimpl. exists X'. split; [done|]. split; [done|].
  intros k. rewrite Hg', <- Hgx, <- Hgy. unfold sget.
  destruct (split16 k) as [_ Hklow].
  destruct (HK (Z.shiftr k 16)) as [HK1 HK2].
  destruct (BY !! Z.shiftr k 16) as [b2|] eqn:E2.
  - destruct (HK2 b2) as (b' & -> & Hg); [by apply range_elem|]. by apply Hg.
  - rewrite HK1, Z.lor_0_r; [done|].
    intros Hin. apply list_elem_of_fmap in Hin as ([k' b2] & Hk' & Hin).
    cbn [fst] in Hk'. subst k'. apply range_elem in Hin. congruence.
Qed.

End GoMap.

(** ** MultiBlocks as the program builds them *)

Lemma MAppend_ok_inv m id val m' :
  MultiBlock.Append m id val = Ok m' -> LastId m <= id /\ val <= 65535.
Proof.
  unfold MultiBlock.Append. consts.
  destruct (Z.ltb_spec id (LastId m)); [done|].
  destruct (Z.ltb_spec 65535 val); [done|]. lia.
Qed.

Lemma MAppend_step m id val m' :
  mb_ok m -> - 2 ^ 63 <= id < 2 ^ 63 -> 0 <= val < 2 ^ 32 ->
  MultiBlock.Append m id val = Ok m' ->
  mb_ok m' /\ LastId m <= id /\ LastId m' = id /\
  LastVal m' = (if id =? LastId m then Z.lor (LastVal m) val else val) /\
  forall k, k <> id -> mget m' k = mget m k.
Proof.
  intros Hm Hid Hval E. destruct (MAppend_ok_inv _ _ _ _ E) as [Hle Hv].
  destruct (MAppend_spec m id val Hm) as (m'' & E' & Hok & H1 & H2 & H3); [lia|lia|].
  rewrite E in E'. injection E' as <-. done.
Qed.

Section Reachable.

Context (range_order : gmap Z Block -> list (Z * Block)).

Context (range_perm : range_complete range_order).

Lemma reachable_ok m : reachable range_order m -> mb_ok m.
Proof.
  induction 1 as [|m id val m' _ IH Hid Hval E|X Y X' Y' _ IHX _ IHY E].
  - apply mb_ok_New.
  - by destruct (MAppend_step m id val m' IH Hid Hval E).
  - destruct (Merge_spec range_order range_perm X Y IHX IHY) as (X'' & E' & Hok & _).
    rewrite E in E'. by injection E' as <- _.
Qed.

Lemma all_frozen_ok m : mb_ok m -> all_frozen m.
Proof. intros (_ & _ & _ & _ & _ & _ & Hsh) k b E. apply (Hsh _ _ E). Qed.

End Reachable.

(** *** Frozen blocks refuse every mutation *)

Lemma frozen_immutable b :
  Frozen b = true ->
  (forall id val b', Block.Append b id val <> Ok b') /\
  (forall b', Block.Reset b <> Ok b') /\
  (forall r, Block.UnAppend b <> Ok r) /\
  (forall b2 b', Block.CopyFrom b b2 <> Ok b') /\
  (forall block1 block2 b', Block.ResetAndMergeFrom b block1 block2 <> Ok b').
Proof.
  intros Hf. repeat split.
  - intros id val b'. unfold Block.Append. rewrite Hf.
    by repeat destruct (_ <? _).
  - intros b'. unfold Block.Reset. by rewrite Hf.
  - intros r. unfold Block.UnAppend. by rewrite Hf.
  - intros b2 b'. unfold Block.CopyFrom. by rewrite Hf.
  - intros block1 block2 b'. unfold Block.ResetAndMergeFrom, Block.Reset. by rewrite Hf.
Qed.

Lemma all_frozen_insert (blocks : gmap Z Block) k b cur lid lval :
  (forall k' b', blocks !! k' = Some b' -> Frozen b' = true) -> Frozen b = true ->
  all_frozen {| Blocks := <[k := b]> blocks; Current := cur; LastId := lid; LastVal := lval |}.
Proof.
  intros H Hb k' b' E. cbn [Blocks] in E.
  destruct (decide (k = k')) as [<-|Hne].
  - rewrite lookup_insert_eq in E. by injection E as <-.
  - rewrite lookup_insert_ne in E by done. by apply (H k').
Qed.

Lemma Append_frozen m id val m' :
  all_frozen m -> MultiBlock.Append m id val = Ok m' -> all_frozen m'.
Proof.
  intros Hfr. unfold MultiBlock.Append.
  destruct (id <? LastId m); [done|]. destruct (BLOCK_VAL_MASK <? val); [done|].
  destruct (id =? LastId m); [by intros [= <-]|].
  destruct (Block.Append _ _ _) as [cur| |]; [|done..]. rsimpl.
  destruct (negb _).
  - destruct (Block.Reset cur) as [cur'| |]; [|done..]. rsimpl.
    intros [= <-]. by apply all_frozen_insert.
  - rsimpl. by intros [= <-].
Qed.

Lemma pushCurrent_frozen m m' :
  all_frozen m -> MultiBlock.pushCurrent m = Ok m' -> all_frozen m'.
Proof.
  intros Hfr. unfold MultiBlock.pushCurrent.
  destruct (Block.Append _ _ _) as [cur| |]; [|done..]. rsimpl.
  destruct (Block.Reset cur) as [cur'| |]; [|done..]. rsimpl.
  intros [= <-]. by apply all_frozen_insert.
Qed.

Lemma unPushCurrent_frozen range_order m m' :
  all_frozen m -> MultiBlock.unPushCurrent range_order m = Ok m' -> all_frozen m'.
Proof.
  intros Hfr. unfold MultiBlock.unPushCurrent.
  destruct (_ <? _)%nat.
  - destruct (zget _ _) as [K| |]; [|done..]. rsimpl.
    destruct (Blocks m !! K) as [B|]; [|done].
    destruct (Block.CopyFrom _ _) as [c1| |]; [|done..]. rsimpl.
    destruct (Block.UnAppend c1) as [[[c2 i] v]| |]; [|done..]. rsimpl.
    intros [= <-] k b E. cbn [Blocks] in E.
    apply lookup_delete_Some in E as [_ E]. by apply (Hfr k).
  - destruct (Block.Reset _) as [c| |]; [|done..]. rsimpl.
    intros [= <-]. done.
Qed.

Lemma merge_fold_frozen kbs (blocks : gmap Z Block) nb blocks' nb' :
  (forall k b, blocks !! k = Some b -> Frozen b = true) ->
  (forall k b, (k, b) ∈ kbs -> Frozen b = true) ->
  foldM MultiBlock.merge_shard (blocks, nb) kbs = Ok (blocks', nb') ->
  forall k b, blocks' !! k = Some b -> Frozen b = true.
Proof.
  revert blocks nb. induction kbs as [|[k b2] kbs IH]; intros blocks nb Hb Hk.
  - by intros [= <- <-].
  - cbn [foldM]. rewrite merge_shard_eq.
    assert (forall k' b', (k', b') ∈ kbs -> Frozen b' = true) as Hk'
      by (intros; eapply Hk; by right).
    assert (forall (x : Block), Frozen x = true ->
            forall k' b', <[k := x]> blocks !! k' = Some b' -> Frozen b' = true) as Hins.
    { intros x Hx k' b' E. destruct (decide (k = k')) as [<-|Hne].
      - rewrite lookup_insert_eq in E. by injection E as <-.
      - rewrite lookup_insert_ne in E by done. by apply (Hb k'). }
    destruct (blocks !! k) as [b|].
    + destruct (Block.ResetAndMergeFrom nb b b2) as [nb1| |]; [|done..]. rsimpl.
      apply IH; [|done]. by apply Hins.
    + rsimpl. apply IH; [|done]. apply Hins. apply (Hk k). by left.
Qed.

Lemma Merge_frozen range_order X Y X' Y' :
  range_complete range_order ->
  all_frozen X -> all_frozen Y ->
  MultiBlock.Merge range_order X Y = Ok (X', Y') -> all_frozen X' /\ all_frozen Y'.
Proof.
  intros Hperm HX HY. unfold MultiBlock.Merge.
  destruct (MultiBlock.pushCurrent X) as [X1| |] eqn:EX; [|done..]. rsimpl.
  destruct (MultiBlock.pushCurrent Y) as [Y1| |] eqn:EY; [|done..]. rsimpl.
  pose proof (pushCurrent_frozen _ _ HX EX) as HX1.
  pose proof (pushCurrent_frozen _ _ HY EY) as HY1.
  destruct (foldM _ _ _) as [[blocks nb]| |] eqn:Ef; [|done..]. rsimpl.
  destruct (MultiBlock.unPushCurrent _ _) as [X2| |] eqn:EU; [|done..]. rsimpl.
  intros [= <- <-]. split.
  - eapply unPushCurrent_frozen; [|exact EU].
    intros k b E. cbn [Blocks] in E. revert k b E.
    eapply merge_fold_frozen; [exact HX1| |exact Ef].
    intros k b Hin. rewrite (Hperm (Blocks Y1)) in Hin.
    apply elem_of_map_to_list in Hin. by apply (HY1 k).
  - intros k b E. cbn [Blocks] in E. by rewrite lookup_empty in E.
Qed.

(** ** Node worker: the quadrant of a coordinate *)

Lemma digits2_pos_bound m : Z.pos m < 2 ^ Z.pos (digits2_pos m).
Proof.
  induction m as [m IH|m IH|]; cbn [digits2_pos]; [| |done].
  - rewrite Pos2Z.inj_succ, Z.pow_succ_r by lia. lia.
  - rewrite Pos2Z.inj_succ, Z.pow_succ_r by lia. lia.
Qed.

Lemma Prim2SF_zero : Prim2SF 0%float = S754_zero false.
Proof. vm_compute. reflexivity. Qed.

Lemma Prim2SF_four : Prim2SF 4%float = S754_finite false 4503599627370496 (-50).
Proof. vm_compute. reflexivity. Qed.

Lemma int_of_float64_range f :
  PrimFloat.leb 0 f = true -> PrimFloat.ltb f 4 = true -> 0 <= int_of_float64 f < 4.
Proof.
  rewrite leb_spec, ltb_spec, Prim2SF_zero, Prim2SF_four.
  pose proof (Prim2SF_valid f) as Hvalid. unfold int_of_float64.
  destruct (Prim2SF f) as [s|s| |s m e]; [lia|done|done|].
  unfold SFleb, SFltb. cbn [SFcompare].
  destruct s; [done|]. intros _ Hlt.
  cbn [valid_binary] in Hvalid. unfold bounded, canonical_mantissa in Hvalid.
  apply andb_true_iff in Hvalid as [Hcanon _]. apply Z.eqb_eq in Hcanon.
  unfold fexp, SpecFloat.emin, prec, emax in Hcanon.
  pose proof (digits2_pos_bound m) as Hdig.
  assert (Z.pos (digits2_pos m) <= 53) as Hd by lia.
  assert (Z.pos m < 2 ^ 53) as Hm.
  { eapply Z.lt_le_trans; [exact Hdig|]. apply Z.pow_le_mono_r; lia. }
  assert (e < -50 \/ (e = -50 /\ Z.pos m < Z.pos 4503599627370496%positive)) as He.
  { clear Hcanon Hdig Hd Hm.
    destruct (Z.compare_spec e (-50)) as [He|He|He].
    - right. split; [exact He|].
      rewrite Pos.compare_cont_spec in Hlt.
      destruct (Pos.compare_spec m 4503599627370496%positive) as [Hc|Hc|Hc].
      + discriminate Hlt.
      + exact Hc.
      + discriminate Hlt.
    - left. exact He.
    - discriminate Hlt. }
  assert ((0 <=? e) = false) as -> by (apply Z.leb_gt; lia).
  assert (0 < 2 ^ (- e)) as Hpow by (apply Z.pow_pos_nonneg; lia).
  split; [apply Z.div_pos; lia|].
  apply Z.div_lt_upper_bound; [done|].
  destruct He as [He|[-> Hm']].
  - assert (2 ^ 51 <= 2 ^ (- e)) by (apply Z.pow_le_mono_r; lia). lia.
  - change (- -50) with 50. lia.
Qed.

Lemma quadrant_range coordRange coord :
  quadrant coordRange coord = -1 \/ 0 <= quadrant coordRange coord < 4.
Proof.
  unfold quadrant.
  destruct (PrimFloat.leb 0 _) eqn:E1; [|by left].
  destruct (PrimFloat.ltb _ 4) eqn:E2; [|by left].
  right. by apply int_of_float64_range.
Qed.

(* The sixteen masks 1 << (x + 4*y). *)
Lemma grid_mask x y :
  0 <= x < 4 -> 0 <= y < 4 ->
  u32 (Z.shiftl 1 (u32 (x + 4 * y))) = 2 ^ (x + 4 * y) /\
  0 < 2 ^ (x + 4 * y) <= 32768.
Proof.
  intros Hx Hy.
  assert (x = 0 \/ x = 1 \/ x = 2 \/ x = 3) as Hx' by lia.
  assert (y = 0 \/ y = 1 \/ y = 2 \/ y = 3) as Hy' by lia.
  destruct Hx' as [->|[->|[->| ->]]]; destruct Hy' as [->|[->|[->| ->]]];
    (split; [done|cbn; lia]).
Qed.

(** *** Which panics an operation can raise *)

Lemma ntl_bind {A B} (r : res A) (f : A -> res B) :
  not_too_large r -> (forall a, not_too_large (f a)) -> not_too_large (r ≫= f).
Proof.
  intros Hr Hf v. destruct r as [a| |]; cbn.
  - apply Hf.
  - intros [= ->]. by apply (Hr v).
  - done.
Qed.

Lemma ntl_zget arr i : not_too_large (zget arr i).
Proof. intros v. unfold zget. destruct (i <? 0); [done|]. by destruct (arr !! _). Qed.

Lemma ntl_zset arr i x : not_too_large (zset arr i x).
Proof. intros v. unfold zset. destruct (i <? 0); [done|]. by destruct (_ <=? i). Qed.

Lemma ntl_writePacked arr id val : not_too_large (writePacked arr id val).
Proof.
  unfold writePacked. apply ntl_bind; [apply ntl_zget|]. intros a. apply ntl_zset.
Qed.

Lemma ntl_foldM {A B} (f : B -> A -> res B) l acc :
  (forall b a, not_too_large (f b a)) -> not_too_large (foldM f acc l).
Proof.
  intros Hf. revert acc. induction l as [|x l IH]; intros acc; [done|].
  cbn [foldM]. apply ntl_bind; [apply Hf|]. intros a. apply IH.
Qed.

Lemma ntl_Block_Append b id val : not_too_large (Block.Append b id val).
Proof.
  unfold Block.Append.
  destruct (_ <? id); [done|]. destruct (_ <? val); [done|]. destruct (Frozen b); [done|].
  destruct (_ <? Length b).
  - destruct (_ <=? id); [done|]. apply ntl_bind; [apply ntl_writePacked|done].
  - destruct (Length b <? _).
    + apply ntl_bind; [apply ntl_zset|done].
    + apply ntl_bind; [apply ntl_foldM; intros; apply ntl_writePacked|].
      intros tmp. apply ntl_bind; [apply ntl_writePacked|done].
Qed.

Lemma ntl_MultiBlock_Append m id val :
  val <= BLOCK_VAL_MASK -> not_too_large (MultiBlock.Append m id val).
Proof.
  intros Hval. unfold MultiBlock.Append.
  destruct (id <? LastId m); [done|].
  destruct (Z.ltb_spec BLOCK_VAL_MASK val); [lia|].
  destruct (id =? LastId m); [done|].
  apply ntl_bind; [apply ntl_Block_Append|]. intros cur.
  apply ntl_bind; [|by intros [??]].
  destruct (negb _); [|done].
  apply ntl_bind; [|done]. intros v. unfold Block.Reset. by destruct (Frozen cur).
Qed.

(** * The specification's claims *)

(** ** Block *)

Ltac sorted_tac :=
  unfold ascending, strictly_ascending, in_range, S1_appends, repeated_id_appends;
  cbn [fmap list_fmap fst snd];
  repeat first [progress cbn [fst snd] | lia | constructor].

Lemma blk_ok_NewEmptyBlock : blk_ok NewEmptyBlock.
Proof. split; [constructor|]. cbn. split; [lia|constructor]. Qed.

Lemma absent_key id (l : list (Z * Z)) : id ∉ l.*1 -> Forall (fun kv : Z * Z => kv.1 <> id) l.
Proof.
  intros Hnot. apply Forall_forall. intros kv Hin E. apply Hnot.
  apply list_elem_of_fmap. by exists kv.
Qed.

(** C1 (amended).  A fresh accumulation block accepts any run of appends
    whose ids never go down (each id and val below 2^16), and switches to
    array mode exactly when more than BLOCK_FULL_LENGTH records were
    appended.  For every id below 2^16: in array mode Lookup returns the
    bitwise OR of all vals appended under the id; in list-of-pairs mode it
    returns the val of the last append under the id; it returns 0 for an id
    never appended.  When the ids are strictly ascending (the contract of
    Block.Append: every id unique) the two readings coincide, and Lookup
    returns the OR of the vals appended under the id in either mode. *)
Theorem Block_Lookup_after_appends (l : list (Z * Z)) :
  in_range l -> ascending l ->
  exists b, Appends NewAccumulationBlock l = Ok b /\
    (BLOCK_FULL_LENGTH < Length b <-> BLOCK_FULL_LENGTH < Z.of_nat (length l)) /\
    forall id, 0 <= id < 65536 ->
      (BLOCK_FULL_LENGTH < Length b -> Block.Lookup b id = Ok (or_vals id l)) /\
      (Length b <= BLOCK_FULL_LENGTH -> Block.Lookup b id = Ok (last_val id l)) /\
      (strictly_ascending l -> Block.Lookup b id = Ok (or_vals id l)) /\
      (id ∉ l.*1 -> Block.Lookup b id = Ok 0).
Proof.
  intros Hr Hasc. destruct (Appends_built l Hr) as (b & Hb & Hbuilt).
  exists b. split; [done|].
  pose proof (built_blk_ok l b Hbuilt Hasc) as Hok.
  pose proof (built_mode l b Hbuilt) as Hmode.
  split.
  { destruct (Z.ltb_spec BLOCK_FULL_LENGTH (Length b)),
             (Z.leb_spec (Z.of_nat (length l)) BLOCK_FULL_LENGTH); cbn in Hmode; try done; lia. }
  intros id Hid. rewrite (Lookup_get b id Hok Hid), (built_get l b id Hbuilt Hid).
  repeat split.
  - intros Hm. by assert ((BLOCK_FULL_LENGTH <? Length b) = true) as -> by (apply Z.ltb_lt; lia).
  - intros Hm. by assert ((BLOCK_FULL_LENGTH <? Length b) = false) as -> by (apply Z.ltb_ge; lia).
  - intros Hs. rewrite <- (strict_or_last id l Hs). by destruct (_ <? _).
  - intros Hnot. apply absent_key in Hnot.
    rewrite (or_vals_absent id l Hnot), (last_val_absent id l Hnot). by destruct (_ <? _).
Qed.

Lemma Block_Lookup_after_appends_witness :
  in_range S1_appends /\ ascending S1_appends /\
  exists b, Appends NewAccumulationBlock S1_appends = Ok b /\
    Block.Lookup b 2 = Ok 65535 /\ Block.Lookup b 3 = Ok 0.
Proof.
  assert (in_range S1_appends) as Hr by sorted_tac.
  assert (ascending S1_appends) as Ha by sorted_tac.
  split; [exact Hr|]. split; [exact Ha|].
  destruct (Block_Lookup_after_appends S1_appends Hr Ha) as (b & Hb & Hmode & Hl).
  exists b. split; [exact Hb|]. split.
  - destruct (Hl 2 ltac:(lia)) as (_ & _ & Hs & _). apply Hs. sorted_tac.
  - destruct (Hl 3 ltac:(lia)) as (_ & _ & _ & Hn). apply Hn.
    cbn. rewrite !not_elem_of_cons. repeat split; try lia. apply not_elem_of_nil.
Defined.

(** C1, as stated, fails when an id repeats while the block is in
    list-of-pairs mode: after Append(5, 1), Append(5, 2) -- ids in ascending
    (non-decreasing) order, vals below 2^16 -- Lookup(5) is 2, the last val,
    and not 1 | 2 = 3. *)
Lemma Block_Lookup_repeated_id_counterexample :
  in_range repeated_id_appends /\ ascending repeated_id_appends /\
  (b ← Appends NewAccumulationBlock repeated_id_appends; Block.Lookup b 5) = Ok 2 /\
  or_vals 5 repeated_id_appends = 3.
Proof.
  split; [sorted_tac|]. split; [sorted_tac|].
  split; vm_compute; reflexivity.
Qed.

(** C9.  The frozen empty block of NewEmptyBlock (Length 0, no storage)
    answers Lookup(id) with 0, without a panic, for every id in [0, 2^16). *)
Theorem empty_block_Lookup (id : Z) :
  0 <= id < 65536 ->
  Frozen NewEmptyBlock = true /\ Length NewEmptyBlock = 0 /\ Values NewEmptyBlock = [] /\
  Block.Lookup NewEmptyBlock id = Ok 0.
Proof.
  intros Hid. repeat split. by rewrite (Lookup_get _ id blk_ok_NewEmptyBlock Hid).
Qed.

Lemma empty_block_Lookup_witness : Block.Lookup NewEmptyBlock 65535 = Ok 0.
Proof. apply (empty_block_Lookup 65535). lia. Defined.

(** C3 (amended).  Let a and b be built by appends with strictly ascending
    ids (each id and val below 2^16) and let c be a mutable accumulation
    block.  Then c.ResetAndMergeFrom(a, b) returns, and afterwards
    c.Lookup(id) = a.Lookup(id) | b.Lookup(id) for every id below 2^16. *)
Theorem ResetAndMergeFrom_law (la lb : list (Z * Z)) (c : Block) :
  in_range la -> strictly_ascending la ->
  in_range lb -> strictly_ascending lb ->
  Frozen c = false -> length (Values c) = Z.to_nat BLOCK_FULL_LENGTH ->
  exists a b c',
    Appends NewAccumulationBlock la = Ok a /\
    Appends NewAccumulationBlock lb = Ok b /\
    Block.ResetAndMergeFrom c a b = Ok c' /\
    forall id, 0 <= id < 65536 ->
      exists va vb, Block.Lookup a id = Ok va /\ Block.Lookup b id = Ok vb /\
                    Block.Lookup c' id = Ok (Z.lor va vb).
Proof.
  intros Hra Hsa Hrb Hsb Hf Hlen.
  destruct (Appends_built la Hra) as (a & Ha & Hba).
  destruct (Appends_built lb Hrb) as (b & Hb & Hbb).
  pose proof (built_blk_ok la a Hba (strictly_ascending_ascending _ Hsa)) as Hoka.
  pose proof (built_blk_ok lb b Hbb (strictly_ascending_ascending _ Hsb)) as Hokb.
  destruct (ResetAndMergeFrom_spec c a b) as (c' & Hc' & _ & Hokc & _ & _ & Hg);
    [by split|done|by eapply built_uniq|done|by eapply built_uniq|].
  exists a, b, c'. repeat split; [done..|].
  intros id Hid. exists (get a id), (get b id).
  rewrite !Lookup_get by done. by rewrite Hg.
Qed.

Lemma ResetAndMergeFrom_law_witness :
  exists a b c',
    Appends NewAccumulationBlock [(0, 1); (2, 2)] = Ok a /\
    Appends NewAccumulationBlock [(1, 4); (2, 8)] = Ok b /\
    Block.ResetAndMergeFrom NewAccumulationBlock a b = Ok c' /\
    exists va vb, Block.Lookup a 2 = Ok va /\ Block.Lookup b 2 = Ok vb /\
                  Block.Lookup c' 2 = Ok (Z.lor va vb).
Proof.
  destruct (ResetAndMergeFrom_law [(0, 1); (2, 2)] [(1, 4); (2, 8)] NewAccumulationBlock)
    as (a & b & c' & Ha & Hb & Hc & Hl);
    [sorted_tac|sorted_tac|sorted_tac|sorted_tac|reflexivity|apply length_make|].
  exists a, b, c'. repeat split; [exact Ha|exact Hb|exact Hc|]. apply Hl. lia.
Defined.

(** C3, as stated, fails when a block was built with a repeated id: with a
    built by Append(5, 1), Append(5, 2) and b by Append(5, 4), the merged
    block answers Lookup(5) with 2, while a.Lookup(5) | b.Lookup(5) is
    2 | 4 = 6. *)
Lemma ResetAndMergeFrom_repeated_id_counterexample :
  ascending repeated_id_appends /\
  (a ← Appends NewAccumulationBlock repeated_id_appends;
   b ← Appends NewAccumulationBlock [(5, 4)];
   c ← Block.ResetAndMergeFrom NewAccumulationBlock a b;
   va ← Block.Lookup a 5; vb ← Block.Lookup b 5; vc ← Block.Lookup c 5;
   Ok (va, vb, vc)) = Ok (2, 4, 2) /\
  Z.lor 2 4 = 6.
Proof.
  split; [sorted_tac|]. split; vm_compute; reflexivity.
Qed.

(** ** MultiBlock *)

Lemma map_to_list_complete : range_complete map_to_list.
Proof. intros blocks. reflexivity. Qed.

Lemma sample_X_reachable : reachable map_to_list sample_X.
Proof.
  apply (reach_append _ NewMultiBlock 5 4); [apply reach_new|lia|lia|].
  reflexivity.
Qed.

Lemma sample_Y_reachable : reachable map_to_list sample_Y.
Proof.
  apply (reach_append _ NewMultiBlock 5 1); [apply reach_new|lia|lia|].
  reflexivity.
Qed.

Lemma MAppends_keep m l m' i :
  mb_ok m ->
  Forall (fun kv : Z * Z => i < kv.1 < 2 ^ 63 /\ 0 <= kv.2 < 2 ^ 32) l ->
  MAppends m l = Ok m' ->
  mb_ok m' /\ mget m' i = mget m i.
Proof.
  intros Hm Hl. revert m Hm. induction l as [|kv l IH]; intros m Hm E.
  - by injection E as <-.
  - apply Forall_cons in Hl as [[Hk Hv] Hl].
    unfold MAppends in E. cbn [foldM] in E.
    destruct (MultiBlock.Append m kv.1 kv.2) as [m1| |] eqn:E1; [|done..].
    cbn in E.
    assert (0 <= LastId m) as H0 by (destruct Hm as (_ & _ & _ & ? & _); lia).
    destruct (MAppend_ok_inv _ _ _ _ E1) as [Hle _].
    destruct (MAppend_step m kv.1 kv.2 m1 Hm) as (Hm1 & _ & _ & _ & Hkeep); [lia|lia|done|].
    destruct (IH Hl m1 Hm1 E) as [Hok' Hg]. split; [done|].
    rewrite Hg. apply Hkeep. lia.
Qed.

(* A run of appends whose ids never go down, from the pending id on, with
   vals below 2^16, goes through. *)
Lemma MAppends_total m l :
  mb_ok m -> ascending l ->
  Forall (fun kv : Z * Z => LastId m <= kv.1 < 2 ^ 63 /\ 0 <= kv.2 < 65536) l ->
  exists m', MAppends m l = Ok m'.
Proof.
  revert m. induction l as [|kv l IH]; intros m Hm Hasc Hl.
  - by exists m.
  - apply Forall_cons in Hl as [[Hk Hv] Hl].
    unfold ascending in Hasc. cbn [fmap list_fmap] in Hasc.
    apply StronglySorted_inv in Hasc as [Hasc Hge].
    destruct (MAppend_spec m kv.1 kv.2 Hm Hk Hv) as (m1 & E1 & Hm1 & HId1 & _).
    destruct (IH m1 Hm1 Hasc) as [m' E'].
    { rewrite HId1. apply Forall_forall. intros kv' Hin.
      rewrite Forall_forall in Hl. destruct (Hl kv' Hin) as [[_ Hlt] Hv'].
      rewrite Forall_forall in Hge.
      assert (kv.1 <= kv'.1) by (apply Hge, list_elem_of_fmap; by exists kv').
      lia. }
    exists m'. unfold MAppends in *. cbn [foldM]. rewrite E1. exact E'.
Qed.

Section Claims.

Context (range_order : gmap Z Block -> list (Z * Block)).

Context (range_perm : range_complete range_order).

(** C2.  For reachable MultiBlocks X and Y (and any iteration order of the
    shard map), X.Merge(Y) returns, and afterwards X.Lookup(id) is the
    bitwise OR of the pre-merge X.Lookup(id) and Y.Lookup(id), for every id;
    in particular, merging Y into a new, empty X gives an X whose Lookup
    agrees with Y's on every id. *)
Theorem Merge_Lookup_or (X Y : MultiBlock) :
  reachable range_order X -> reachable range_order Y ->
  exists X' Y',
    MultiBlock.Merge range_order X Y = Ok (X', Y') /\
    (forall id, exists vx vy,
       MultiBlock.Lookup X id = Ok vx /\ MultiBlock.Lookup Y id = Ok vy /\
       MultiBlock.Lookup X' id = Ok (Z.lor vx vy)) /\
    (X = NewMultiBlock -> forall id, MultiBlock.Lookup X' id = MultiBlock.Lookup Y id).
Proof.
  intros HX HY.
  pose proof (reachable_ok range_order range_perm X HX) as HXok.
  pose proof (reachable_ok range_order range_perm Y HY) as HYok.
  destruct (Merge_spec range_order range_perm X Y HXok HYok) as (X' & E & HX' & Hg).
  eexists X', _. split; [exact E|]. split.
  - intros id. exists (mget X id), (mget Y id).
    rewrite !MLookup_mget by done. by rewrite Hg.
  - intros -> id. rewrite !MLookup_mget by done. by rewrite Hg, mget_New, Z.lor_0_l.
Qed.

(** C4.  For a reachable MultiBlock, pushCurrent() followed by
    unPushCurrent() returns, and the resulting MultiBlock answers Lookup
    as the original one did, for every id. *)
Theorem push_unpush_roundtrip (m : MultiBlock) :
  reachable range_order m ->
  exists m1 m2,
    MultiBlock.pushCurrent m = Ok m1 /\
    MultiBlock.unPushCurrent range_order m1 = Ok m2 /\
    forall id, exists v, MultiBlock.Lookup m id = Ok v /\ MultiBlock.Lookup m2 id = Ok v.
Proof.
  intros Hm. pose proof (reachable_ok range_order range_perm m Hm) as Hok.
  destruct (push_spec m Hok) as (blk & E1 & Hsh & _ & Hg).
  destruct (unpush_spec range_order range_perm _ NewAccumulationBlock maxLastId 0
              acc_NewAccumulationBlock Hsh) as (m2 & E2 & Hok2 & Hg2).
  eexists _, m2. split; [exact E1|]. split; [exact E2|].
  intros id. exists (mget m id). rewrite !MLookup_mget by done.
  by rewrite Hg2, Hg.
Qed.

(** C5 (amended).  For a reachable MultiBlock, an id i >= its lastId and
    values v1, v2 below 2^16, appending (i, v1) then (i, v2) succeeds, and
    looking up i returns v1 | v2 when i > lastId, and lastVal | v1 | v2 when
    i = lastId (the record pending under i is collapsed in as well).  Any
    further run of appends with larger ids that never go down, and vals
    below 2^16, succeeds, and the same value is still returned after it. *)
Theorem version_collapse (m : MultiBlock) (i v1 v2 : Z) :
  reachable range_order m ->
  LastId m <= i < 2 ^ 63 -> 0 <= v1 < 65536 -> 0 <= v2 < 65536 ->
  exists m1 m2,
    MultiBlock.Append m i v1 = Ok m1 /\ MultiBlock.Append m1 i v2 = Ok m2 /\
    let r := if i =? LastId m then Z.lor (Z.lor (LastVal m) v1) v2 else Z.lor v1 v2 in
    MultiBlock.Lookup m2 i = Ok r /\
    forall l,
      ascending l ->
      Forall (fun kv : Z * Z => i < kv.1 < 2 ^ 63 /\ 0 <= kv.2 < 65536) l ->
      exists m3, MAppends m2 l = Ok m3 /\ MultiBlock.Lookup m3 i = Ok r.
Proof.
  intros Hm Hi Hv1 Hv2. pose proof (reachable_ok range_order range_perm m Hm) as Hok.
  destruct (MAppend_spec m i v1 Hok Hi Hv1) as (m1 & E1 & Hok1 & HId1 & HVal1 & _).
  destruct (MAppend_spec m1 i v2 Hok1) as (m2 & E2 & Hok2 & HId2 & HVal2 & _); [lia|done|].
  exists m1, m2. split; [exact E1|]. split; [exact E2|].
  assert (mget m2 i = if i =? LastId m then Z.lor (Z.lor (LastVal m) v1) v2 else Z.lor v1 v2)
    as Hr.
  { unfold mget. rewrite HId2, Z.eqb_refl, HVal2, HId1, Z.eqb_refl, HVal1.
    by destruct (i =? LastId m). }
  cbv zeta. split; [rewrite MLookup_mget by done; by rewrite Hr|].
  intros l Hasc Hl.
  destruct (MAppends_total m2 l Hok2 Hasc) as [m3 E3].
  { eapply Forall_impl; [exact Hl|]. intros kv [Hk Hv]. cbn beta. lia. }
  exists m3. split; [exact E3|].
  destruct (MAppends_keep m2 l m3 i Hok2) as [Hok3 Hg3]; [|exact E3|].
  { eapply Forall_impl; [exact Hl|]. intros kv [Hk Hv]. cbn beta. lia. }
  rewrite MLookup_mget by done. by rewrite Hg3, Hr.
Qed.

(** C8.  Every block in the Blocks map of a reachable MultiBlock is frozen;
    Append, pushCurrent, unPushCurrent and Merge keep it so (Lookup returns
    a value and changes nothing); and every operation of Block that writes
    its receiver -- Append, Reset, UnAppend, CopyFrom, ResetAndMergeFrom --
    panics on a frozen receiver instead of changing its Length or Values. *)
Theorem shard_blocks_frozen :
  (forall m, reachable range_order m -> all_frozen m) /\
  (forall m, all_frozen m ->
     (forall id val m', MultiBlock.Append m id val = Ok m' -> all_frozen m') /\
     (forall m', MultiBlock.pushCurrent m = Ok m' -> all_frozen m') /\
     (forall m', MultiBlock.unPushCurrent range_order m = Ok m' -> all_frozen m') /\
     (forall Y X' Y', all_frozen Y -> MultiBlock.Merge range_order m Y = Ok (X', Y') ->
                      all_frozen X' /\ all_frozen Y')) /\
  (forall b, Frozen b = true ->
     (forall id val b', Block.Append b id val <> Ok b') /\
     (forall b', Block.Reset b <> Ok b') /\
     (forall r, Block.UnAppend b <> Ok r) /\
     (forall b2 b', Block.CopyFrom b b2 <> Ok b') /\
     (forall block1 block2 b', Block.ResetAndMergeFrom b block1 block2 <> Ok b')).
Proof.
  split; [|split].
  - intros m Hm. apply all_frozen_ok. by apply (reachable_ok range_order range_perm).
  - intros m Hfr. split; [|split; [|split]].
    + intros id val m'. by apply Append_frozen.
    + intros m'. by apply pushCurrent_frozen.
    + intros m'. by apply unPushCurrent_frozen.
    + intros Y X' Y' HY E. by apply (Merge_frozen range_order m Y X' Y' range_perm Hfr HY E).
  - apply frozen_immutable.
Qed.

End Claims.

Lemma Merge_Lookup_or_witness :
  exists X' Y',
    MultiBlock.Merge map_to_list sample_X sample_Y = Ok (X', Y') /\
    exists vx vy,
      MultiBlock.Lookup sample_X 5 = Ok vx /\ MultiBlock.Lookup sample_Y 5 = Ok vy /\
      MultiBlock.Lookup X' 5 = Ok (Z.lor vx vy).
Proof.
  destruct (Merge_Lookup_or map_to_list map_to_list_complete sample_X sample_Y
              sample_X_reachable sample_Y_reachable) as (X' & Y' & E & Hl & _).
  exists X', Y'. split; [exact E|]. apply Hl.
Defined.

Lemma push_unpush_roundtrip_witness :
  exists m1 m2,
    MultiBlock.pushCurrent sample_X = Ok m1 /\
    MultiBlock.unPushCurrent map_to_list m1 = Ok m2 /\
    exists v, MultiBlock.Lookup sample_X 5 = Ok v /\ MultiBlock.Lookup m2 5 = Ok v.
Proof.
  destruct (push_unpush_roundtrip map_to_list map_to_list_complete sample_X
              sample_X_reachable) as (m1 & m2 & E1 & E2 & Hl).
  exists m1, m2. split; [exact E1|]. split; [exact E2|]. apply Hl.
Defined.

Lemma version_collapse_witness :
  exists m1 m2 m3,
    MultiBlock.Append sample_X 9 1 = Ok m1 /\ MultiBlock.Append m1 9 2 = Ok m2 /\
    MultiBlock.Lookup m2 9 = Ok 3 /\
    MAppends m2 [(12, 1); (12, 8); (70000, 2)] = Ok m3 /\ MultiBlock.Lookup m3 9 = Ok 3.
Proof.
  destruct (version_collapse map_to_list map_to_list_complete sample_X 9 1 2
              sample_X_reachable) as (m1 & m2 & E1 & E2 & Hl & Hrest);
    [cbn; lia|lia|lia|].
  destruct (Hrest [(12, 1); (12, 8); (70000, 2)]) as (m3 & E3 & Hl3).
  { unfold ascending. cbn [fmap list_fmap fst]. repeat constructor; lia. }
  { repeat constructor; cbn [fst snd]; lia. }
  exists m1, m2, m3. split; [exact E1|]. split; [exact E2|]. split; [exact Hl|].
  split; [exact E3|exact Hl3].
Defined.

(** C5, as stated, fails at i = lastId when a record is already pending
    under i: after Append(5, 4) on a new MultiBlock, lastId is 5; appending
    (5, 1) then (5, 2) and looking up 5 returns 7 = 4 | 1 | 2, not
    1 | 2 = 3. *)
Lemma version_collapse_pending_counterexample :
  (m ← MultiBlock.Append NewMultiBlock 5 4;
   m1 ← MultiBlock.Append m 5 1;
   m2 ← MultiBlock.Append m1 5 2;
   v ← MultiBlock.Lookup m2 5;
   Ok (LastId m, v)) = Ok (5, 7) /\
  Z.lor 1 2 = 3.
Proof. split; vm_compute; reflexivity. Qed.

Lemma shard_blocks_frozen_witness :
  all_frozen sample_X /\
  (forall m', MultiBlock.pushCurrent sample_X = Ok m' -> all_frozen m') /\
  (forall id val b', Block.Append NewEmptyBlock id val <> Ok b').
Proof.
  destruct (shard_blocks_frozen map_to_list map_to_list_complete) as (H1 & H2 & H3).
  pose proof (H1 sample_X sample_X_reachable) as Hfr.
  split; [exact Hfr|]. split.
  - exact (proj1 (proj2 (H2 sample_X Hfr))).
  - exact (proj1 (H3 NewEmptyBlock eq_refl)).
Defined.

(** ** Way worker *)

(* putWay appends (id, mask) to the worker's Ways for the OR of the
   node masks. *)
Lemma putWay_appends w id nds w' :
  wayWorker.putWay w id nds = Ok w' ->
  exists mask nd_masks,
    wayWorker.lookup_masks (wayWorker.Nodes w) nds = Ok (mask, nd_masks) /\
    MultiBlock.Append (wayWorker.Ways w) id mask = Ok (wayWorker.Ways w').
Proof.
  unfold wayWorker.putWay.
  destruct (wayWorker.lookup_masks _ _) as [[mask nd_masks]| |] eqn:E1; [|done..]. rsimpl.
  destruct (MultiBlock.Append _ _ _) as [ways| |] eqn:E2; [|done..]. rsimpl.
  intros [= <-]. by exists mask, nd_masks.
Qed.

(** C6 (amended).  With the global nodes MultiBlock holding exactly
    (10 -> 0x0001), (11 -> 0x0002), (12 -> 0x0001), putWay(100, [10, 11, 12])
    appends (100 -> 0x0003) to the Ways MultiBlock, and the extra-nodes map
    afterwards holds exactly three entries: 10 -> 0x0002, 11 -> 0x0001 and
    12 -> 0x0002. *)
Theorem putWay_scenario_S5 :
  S5_run = Ok ([1; 2; 1], (100, 3, 3), [Some 2; Some 1; Some 2], 3%nat) /\
  (forall nodes w', S5_nodes = Ok nodes ->
     wayWorker.putWay (S5_worker nodes) 100 [10; 11; 12] = Ok w' ->
     MultiBlock.Append NewMultiBlock 100 3 = Ok (wayWorker.Ways w')).
Proof.
  split; [vm_compute; reflexivity|].
  intros nodes w' Hn Hw.
  destruct (putWay_appends _ _ _ _ Hw) as (mask & nd_masks & Hm & Happ).
  cbn [S5_worker wayWorker.Nodes wayWorker.Ways] in Hm, Happ.
  assert (mask = 3) as <-; [|exact Happ].
  assert ((nodes ← S5_nodes; wayWorker.lookup_masks nodes [10; 11; 12]) = Ok (3, [1; 2; 1]))
    as E by (vm_compute; reflexivity).
  rewrite Hn in E. cbn [mbind res_bind] in E. rewrite Hm in E. by injection E.
Qed.

(** C6, as stated, fails in its last part: node 11 (mask 0x0002) differs from
    the way's mask 0x0003, so putWay records 11 -> 0x0003 & ^0x0002 = 0x0001
    in the extra-nodes map; the map has an entry for node 11. *)
Lemma putWay_scenario_S5_node11_counterexample :
  (nodes ← S5_nodes;
   w ← wayWorker.putWay (S5_worker nodes) 100 [10; 11; 12];
   Ok (wayWorker.ExtraNodes w !! 11)) = Ok (Some 1).
Proof. vm_compute. reflexivity. Qed.

(** ** Sorter entry *)

(** C7 (amended).  When Sorter.Append is given a primitive block holding
    more than one kind, primitiveBlockKind panics with a message that names
    the counts, and Sorter.Append with it, whatever the Sorter's state: no
    error value is returned.  (The error that Sorter.Append does return is
    the one for a block kind that arrives out of order.) *)
Theorem Sorter_Append_mixed_kinds (s : Sorter.t) (p : PrimitiveBlock) (nodes ways rels : Z) :
  primCount p = (nodes, ways, rels) ->
  (0 < nodes /\ (0 < ways \/ 0 < rels) ->
   Sorter.Append s p = Panic (NodesWithOthers nodes ways rels)) /\
  (nodes <= 0 /\ 0 < ways /\ 0 < rels ->
   Sorter.Append s p = Panic (WaysWithRelations ways rels)) /\
  (forall s' e, Sorter.Append s p = Ok (s', Some e) ->
     exists kind, primitiveBlockKind p = Ok kind /\ kind < Sorter.lastKind s /\
                  e = KindOutOfOrder kind (Sorter.lastKind s)).
Proof.
  intros Hc. unfold Sorter.Append, primitiveBlockKind. rewrite Hc.
  split; [|split].
  - intros [Hn Hwr].
    assert ((0 <? nodes) = true) as -> by (apply Z.ltb_lt; lia).
    assert (((0 <? ways) || (0 <? rels)) = true) as ->; [|done].
    apply orb_true_iff. destruct Hwr; [left|right]; apply Z.ltb_lt; lia.
  - intros (Hn & Hw & Hr).
    assert ((0 <? nodes) = false) as -> by (apply Z.ltb_ge; lia).
    assert ((0 <? ways) = true) as -> by (apply Z.ltb_lt; lia).
    assert ((0 <? rels) = true) as -> by (apply Z.ltb_lt; lia). done.
  - intros s' e.
    set (k := if 0 <? nodes then _ else _).
    destruct k as [kind| |] eqn:Ek; [|done..]. rsimpl.
    destruct (negb (kind =? Sorter.lastKind s) && (kind <? Sorter.lastKind s)) eqn:E.
    + intros [= <- <-]. exists kind. split; [done|]. split; [|done].
      apply andb_true_iff in E as [_ E]. by apply Z.ltb_lt.
    + intros [= _ ?].
Qed.

Lemma Sorter_Append_mixed_kinds_witness :
  Sorter.Append sorter_start mixed_block = Panic (NodesWithOthers 1 1 0).
Proof.
  apply (Sorter_Append_mixed_kinds sorter_start mixed_block 1 1 0); [reflexivity|lia].
Defined.

(** C7, as stated, fails: for a block with one node and one way,
    Sorter.Append panics; it returns no error value. *)
Lemma Sorter_Append_mixed_kinds_counterexample :
  Sorter.Append sorter_start mixed_block = Panic (NodesWithOthers 1 1 0) /\
  forall s' e, Sorter.Append sorter_start mixed_block <> Ok (s', Some e).
Proof. split; [reflexivity|]. intros s' e. discriminate. Qed.

(** ** Node worker *)

Section Geo.

Context (Project : float * float -> float * float).

(** C10.  Let x and y be the quadrants of the projected point in the
    worker's X and Y ranges.  For a node that passes the latitude guard and
    both quadrant checks (x >= 0 and y >= 0), x and y are in {0, 1, 2, 3} and
    putNode is the Append, to the worker's MultiBlock, of (id, mask) with
    mask = 1 << (x + 4*y) = 2^(x + 4*y): a non-zero power of two, at most
    0x8000, within BLOCK_VAL_MASK.  On a reachable MultiBlock whose last id is
    not above id the Append returns, and Lookup(id) is then mask, ORed with
    the pending value if id is the pending id.  For a node that fails the
    guard or a check, putNode leaves the worker as it is.  In no case does
    putNode raise the panic of MultiBlock.Append for a value above
    BLOCK_VAL_MASK. *)
Theorem putNode_mask_in_range (w : nodeWorker.t) (id lon lat : Z) :
  let p := Project ((float64_of_int lon * SCALE)%float, (float64_of_int lat * SCALE)%float) in
  let x := quadrant (nodeWorker.XRange w) p.1 in
  let y := quadrant (nodeWorker.YRange w) p.2 in
  let mask := 2 ^ (x + 4 * y) in
  (- MAX_LAT < lat < MAX_LAT -> 0 <= x -> 0 <= y ->
   x < 4 /\ y < 4 /\
   u32 (Z.shiftl 1 (u32 (x + 4 * y))) = mask /\
   0 < mask <= 32768 /\ mask <= BLOCK_VAL_MASK /\
   nodeWorker.putNode Project w id lon lat =
     (nodes ← MultiBlock.Append (nodeWorker.Nodes w) id mask;
      Ok {| nodeWorker.Nodes := nodes; nodeWorker.XRange := nodeWorker.XRange w;
            nodeWorker.YRange := nodeWorker.YRange w; nodeWorker.Id := nodeWorker.Id w |}) /\
   (forall range_order,
      range_complete range_order -> reachable range_order (nodeWorker.Nodes w) ->
      LastId (nodeWorker.Nodes w) <= id < 2 ^ 63 ->
      exists w', nodeWorker.putNode Project w id lon lat = Ok w' /\
        MultiBlock.Lookup (nodeWorker.Nodes w') id
          = Ok (if id =? LastId (nodeWorker.Nodes w)
                then Z.lor (LastVal (nodeWorker.Nodes w)) mask else mask))) /\
  (~ (- MAX_LAT < lat < MAX_LAT /\ 0 <= x /\ 0 <= y) ->
   nodeWorker.putNode Project w id lon lat = Ok w) /\
  forall v, nodeWorker.putNode Project w id lon lat <> Panic (MultiValTooLarge v).
Proof.
  intros p x y mask. unfold nodeWorker.putNode. fold p. fold x. fold y.
  pose proof (quadrant_range (nodeWorker.XRange w) p.1) as Hx. fold x in Hx.
  pose proof (quadrant_range (nodeWorker.YRange w) p.2) as Hy. fold y in Hy.
  split; [|split].
  - intros Hlat Hx0 Hy0.
    assert (0 <= x < 4) as Hxr by lia. assert (0 <= y < 4) as Hyr by lia.
    destruct (grid_mask x y Hxr Hyr) as [Emask Hmask]. fold mask in Emask, Hmask.
    assert ((- MAX_LAT <? lat) && (lat <? MAX_LAT) = true) as ->.
    { apply andb_true_iff. split; apply Z.ltb_lt; lia. }
    assert ((0 <=? x) && (0 <=? y) = true) as ->.
    { apply andb_true_iff. split; apply Z.leb_le; lia. }
    rewrite Emask.
    split; [lia|]. split; [lia|]. split; [done|]. split; [done|].
    split; [unfold BLOCK_VAL_MASK; lia|]. split; [done|].
    intros range_order Hperm Hreach Hid.
    pose proof (reachable_ok range_order Hperm _ Hreach) as Hok.
    destruct (MAppend_spec (nodeWorker.Nodes w) id mask Hok Hid) as (m' & E & Hok' & HId & HVal & _);
      [lia|].
    rewrite E. rsimpl. eexists. split; [done|]. cbn [nodeWorker.Nodes].
    rewrite MLookup_mget by done. unfold mget. by rewrite HId, Z.eqb_refl, HVal.
  - intros Hnot.
    destruct ((- MAX_LAT <? lat) && (lat <? MAX_LAT)) eqn:Eg; [|done].
    destruct ((0 <=? x) && (0 <=? y)) eqn:Eq; [|done].
    exfalso. apply Hnot.
    apply andb_true_iff in Eg as [?%Z.ltb_lt ?%Z.ltb_lt].
    apply andb_true_iff in Eq as [?%Z.leb_le ?%Z.leb_le]. lia.
  - destruct ((- MAX_LAT <? lat) && (lat <? MAX_LAT)); [|done].
    destruct ((0 <=? x) && (0 <=? y)) eqn:Eq; [|done].
    apply andb_true_iff in Eq as [Hx0%Z.leb_le Hy0%Z.leb_le].
    assert (0 <= x < 4) as Hxr by lia. assert (0 <= y < 4) as Hyr by lia.
    destruct (grid_mask x y Hxr Hyr) as [Emask Hmask]. rewrite Emask.
    apply ntl_bind; [|done]. apply ntl_MultiBlock_Append. unfold BLOCK_VAL_MASK. lia.
Qed.

End Geo.

(* putNode on the node (lon 100.0, lat 50.0), with a linear stand-in for
   the projection: column 2, row 2 of the grid. *)
Example putNode_run :
  (w ← nodeWorker.putNode
         (fun p => ((p.1 * 100000)%float, (p.2 * 100000)%float))
         {| nodeWorker.Nodes := NewMultiBlock;
            nodeWorker.XRange := merc_extent; nodeWorker.YRange := merc_extent;
            nodeWorker.Id := 0 |}
         7 1000000000 500000000;
   MultiBlock.Lookup (nodeWorker.Nodes w) 7) = Ok (Z.shiftl 1 (2 + 4 * 2)).
Proof. vm_compute. reflexivity. Qed.

Lemma world_quadrants :
  quadrant merc_extent (linear_project ((float64_of_int 1000000000 * SCALE)%float,
                                        (float64_of_int 500000000 * SCALE)%float)).1 = 2 /\
  quadrant merc_extent (linear_project ((float64_of_int 1000000000 * SCALE)%float,
                                        (float64_of_int 500000000 * SCALE)%float)).2 = 2.
Proof. split; vm_compute; reflexivity. Qed.

Lemma putNode_mask_in_range_witness :
  nodeWorker.putNode linear_project world_worker 7 1000000000 500000000 =
    (nodes ← MultiBlock.Append NewMultiBlock 7 (2 ^ (2 + 4 * 2));
     Ok {| nodeWorker.Nodes := nodes; nodeWorker.XRange := merc_extent;
           nodeWorker.YRange := merc_extent; nodeWorker.Id := 0 |}) /\
  exists w', nodeWorker.putNode linear_project world_worker 7 1000000000 500000000 = Ok w' /\
    MultiBlock.Lookup (nodeWorker.Nodes w') 7 = Ok (2 ^ (2 + 4 * 2)).
Proof.
  destruct world_quadrants as [Ex Ey].
  destruct (putNode_mask_in_range linear_project world_worker 7 1000000000 500000000)
    as (H & _ & _).
  cbv zeta in H. cbn [nodeWorker.XRange nodeWorker.YRange nodeWorker.Nodes nodeWorker.Id
                       world_worker] in H.
  rewrite Ex, Ey in H.
  destruct H as (_ & _ & _ & _ & _ & Eput & Hreach); [unfold MAX_LAT; lia|lia|lia|].
  split; [exact Eput|].
  destruct (Hreach map_to_list map_to_list_complete (reach_new _)) as (w' & E & Hl);
    [cbn; lia|].
  exists w'. split; [exact E|exact Hl].
Defined.

(** * Further properties of the code *)

(** ** Block: Reset, Copy, CopyFrom *)

Lemma Appends_is_built l b :
  in_range l -> Appends NewAccumulationBlock l = Ok b -> built l b.
Proof.
  intros Hr E. destruct (Appends_built l Hr) as (b' & E' & Hb).
  rewrite E in E'. by injection E' as ->.
Qed.

(* Copy and CopyFrom keep the content of any well-formed block, whether
   or not its ids are unique. *)
Lemma Copy_keeps b :
  blk_ok b -> blk_ok (Block.Copy b) /\ forall k, get (Block.Copy b) k = get b k.
Proof.
  intros [Hw Hb]. unfold Block.Copy, blk_ok, get, entries. cbn [Length Frozen Values].
  destruct (Z.ltb_spec BLOCK_FULL_LENGTH (Length b)) as [Hm|Hm].
  - destruct Hb as [HL' Hlen]. rewrite copy_make by clia.
    rewrite take_ge by lia. done.
  - destruct Hb as [HL' Hasc]. rewrite copy_make by lia. rewrite take_idemp.
    repeat split; first [done | lia | by apply Forall_take | rewrite length_take; lia].
Qed.

Lemma CopyFrom_keeps c b :
  acc_blk c -> blk_ok b -> (length (Values b) <= Z.to_nat BLOCK_FULL_LENGTH)%nat ->
  exists c', Block.CopyFrom c b = Ok c' /\
    acc_blk c' /\ blk_ok c' /\ Length c' = Length b /\
    forall k, get c' k = get b k.
Proof.
  intros Hc [Hw Hb] Hlen. pose proof Hc as [Hf Hlc].
  unfold Block.CopyFrom. rewrite Hf, Reset_acc by done. rsimpl.
  cbn [NewAccumulationBlock Values Frozen]. rewrite length_make.
  destruct (Z.ltb_spec (Z.of_nat (Z.to_nat BLOCK_FULL_LENGTH)) (Z.of_nat (length (Values b)))); [lia|].
  eexists. split; [done|].
  assert (copy (make BLOCK_FULL_LENGTH) (Values b)
          = Values b ++ replicate (Z.to_nat BLOCK_FULL_LENGTH - length (Values b)) 0) as Ecopy.
  { unfold copy, make. rewrite length_replicate, take_ge by lia.
    by rewrite drop_replicate. }
  rewrite Ecopy.
  assert (words (Values b ++ replicate (Z.to_nat BLOCK_FULL_LENGTH - length (Values b)) 0)) as Hw'.
  { apply Forall_app. split; [done|apply words_replicate]. }
  unfold acc_blk, blk_ok, get, entries. cbn [Length Frozen Values].
  destruct (Z.ltb_spec BLOCK_FULL_LENGTH (Length b)) as [Hm|Hm].
  - destruct Hb as [HL Hl]. rewrite Hl, Nat.sub_diag. cbn [replicate]. rewrite app_nil_r.
    repeat split; first [done | clia].
  - destruct Hb as [HL Hasc]. rewrite take_app_le by lia.
    repeat split;
      first [done | lia | rewrite length_app, length_replicate; lia].
Qed.

Lemma Copy_length b :
  blk_ok b ->
  Z.of_nat (length (Values (Block.Copy b))) = Z.min (Length b) BLOCK_FULL_LENGTH.
Proof.
  intros [_ Hm]. unfold Block.Copy. cbn [Values]. rewrite length_copy, length_make.
  destruct (Z.ltb_spec BLOCK_FULL_LENGTH (Length b)); destruct Hm; clia.
Qed.

(** X1.  Block.Reset on a mutable block returns a mutable block of Length 0
    whose storage has the same size and on which every Lookup returns 0; on
    a block with BLOCK_FULL_LENGTH words the result is the block that
    NewAccumulationBlock returns. *)
Theorem Block_Reset_clears (b : Block) :
  Frozen b = false ->
  exists b', Block.Reset b = Ok b' /\
    Length b' = 0 /\ Frozen b' = false /\ length (Values b') = length (Values b) /\
    (forall id, 0 <= id < 65536 -> Block.Lookup b' id = Ok 0) /\
    (length (Values b) = Z.to_nat BLOCK_FULL_LENGTH -> b' = NewAccumulationBlock).
Proof.
  intros Hf. unfold Block.Reset. rewrite Hf. eexists. split; [done|].
  cbn [Length Frozen Values]. rewrite length_replicate.
  split; [done|]. split; [done|]. split; [done|]. split.
  - intros id Hid. unfold Block.Lookup. cbn [Length Values].
    assert ((BLOCK_IDX_MASK <? id) = false) as -> by (apply Z.ltb_ge; clia).
    assert ((BLOCK_FULL_LENGTH <? 0) = false) as -> by done.
    rewrite slice_to_ok by (cbn; lia). rsimpl.
    change (Z.to_nat 0) with 0%nat. cbn [take]. rewrite search_nil.
    by destruct (_ =? _).
  - intros ->. unfold NewAccumulationBlock, make. done.
Qed.

Lemma Block_Reset_clears_witness :
  exists b', Block.Reset sample_current = Ok b' /\
    Block.Lookup b' 0 = Ok 0 /\ b' = NewAccumulationBlock.
Proof.
  destruct (Block_Reset_clears sample_current eq_refl) as (b' & E & _ & _ & _ & Hl & Hn).
  exists b'. split; [exact E|]. split; [apply Hl; lia|].
  apply Hn. unfold sample_current. cbn [Values]. rewrite length_insert. apply length_make.
Defined.

(** X2.  Block.Copy of a block built by appends with non-decreasing ids is
    a frozen block of the same Length whose storage is cut to the records
    in use (Length words in list-of-pairs mode, BLOCK_FULL_LENGTH in array
    mode), and every Lookup on the copy returns what it returns on the
    original. *)
Theorem Block_Copy_snapshot (l : list (Z * Z)) (b : Block) :
  in_range l -> ascending l ->
  Appends NewAccumulationBlock l = Ok b ->
  Frozen (Block.Copy b) = true /\
  Length (Block.Copy b) = Length b /\
  Z.of_nat (length (Values (Block.Copy b))) = Z.min (Length b) BLOCK_FULL_LENGTH /\
  forall id, 0 <= id < 65536 -> Block.Lookup (Block.Copy b) id = Block.Lookup b id.
Proof.
  intros Hr Hasc E. pose proof (Appends_is_built l b Hr E) as Hb.
  pose proof (built_blk_ok l b Hb Hasc) as Hok.
  destruct (Copy_keeps b Hok) as [Hok' Hg].
  split; [done|]. split; [done|]. split; [by apply Copy_length|].
  intros id Hid. rewrite !Lookup_get by done. by rewrite Hg.
Qed.

Lemma Block_Copy_snapshot_witness :
  exists b, Appends NewAccumulationBlock S1_appends = Ok b /\
    Frozen (Block.Copy b) = true /\
    Block.Lookup (Block.Copy b) 2 = Block.Lookup b 2.
Proof.
  assert (in_range S1_appends) as Hr by sorted_tac.
  assert (ascending S1_appends) as Ha by sorted_tac.
  destruct (Appends_built S1_appends Hr) as (b & E & _).
  destruct (Block_Copy_snapshot S1_appends b Hr Ha E) as (Hf & _ & _ & Hl).
  exists b. split; [exact E|]. split; [exact Hf|]. apply Hl. lia.
Defined.

(** X3.  CopyFrom unfreezes: copying the frozen Copy of a block (built by
    appends with non-decreasing ids) into any accumulation block succeeds
    and gives a mutable block with BLOCK_FULL_LENGTH words, the Length of
    the original, and the Lookup results of the original. *)
Theorem Block_CopyFrom_unfreezes (l : list (Z * Z)) (b c : Block) :
  in_range l -> ascending l ->
  Appends NewAccumulationBlock l = Ok b ->
  Frozen c = false -> length (Values c) = Z.to_nat BLOCK_FULL_LENGTH ->
  exists c', Block.CopyFrom c (Block.Copy b) = Ok c' /\
    Frozen c' = false /\ Length c' = Length b /\
    length (Values c') = Z.to_nat BLOCK_FULL_LENGTH /\
    forall id, 0 <= id < 65536 -> Block.Lookup c' id = Block.Lookup b id.
Proof.
  intros Hr Hasc E Hf Hlen. pose proof (Appends_is_built l b Hr E) as Hb.
  pose proof (built_blk_ok l b Hb Hasc) as Hok.
  destruct (Copy_keeps b Hok) as [Hok' Hg].
  pose proof (Copy_length b Hok) as Hsz.
  destruct (CopyFrom_keeps c (Block.Copy b)) as (c' & Ec & [Hf' Hlen'] & Hokc & HLc & Hgc);
    [by split|done|clia|].
  exists c'. split; [done|]. split; [done|]. split; [by rewrite HLc|]. split; [done|].
  intros id Hid. rewrite !Lookup_get by done. by rewrite Hgc, Hg.
Qed.

Lemma Block_CopyFrom_unfreezes_witness :
  exists b c', Appends NewAccumulationBlock S1_appends = Ok b /\
    Block.CopyFrom NewAccumulationBlock (Block.Copy b) = Ok c' /\
    Frozen c' = false /\ Block.Lookup c' 65535 = Block.Lookup b 65535.
Proof.
  assert (in_range S1_appends) as Hr by sorted_tac.
  assert (ascending S1_appends) as Ha by sorted_tac.
  destruct (Appends_built S1_appends Hr) as (b & E & _).
  destruct (Block_CopyFrom_unfreezes S1_appends b NewAccumulationBlock Hr Ha E eq_refl)
    as (c' & Ec & Hf & _ & _ & Hl); [apply length_make|].
  exists b, c'. split; [exact E|]. split; [exact Ec|]. split; [exact Hf|]. apply Hl. lia.
Defined.

(** ** Block: Append and UnAppend *)

(** X4.  In list-of-pairs mode UnAppend undoes Append: on a block built by
    fewer than BLOCK_FULL_LENGTH appends (ids non-decreasing), Append(id,
    val) followed by UnAppend returns (id, val) and leaves a block of the
    old Length on which every Lookup returns what it returned before the
    Append. *)
Theorem Block_Append_UnAppend (l : list (Z * Z)) (b : Block) (id val : Z) :
  in_range l -> ascending l -> Z.of_nat (length l) < BLOCK_FULL_LENGTH ->
  Appends NewAccumulationBlock l = Ok b ->
  0 <= id < 65536 -> 0 <= val < 65536 ->
  exists b1 b2,
    Block.Append b id val = Ok b1 /\
    Block.UnAppend b1 = Ok (b2, id, val) /\
    Length b2 = Length b /\
    forall k, 0 <= k < 65536 -> Block.Lookup b2 k = Block.Lookup b k.
Proof.
  intros Hr Hasc Hlen E Hid Hval. pose proof (Appends_is_built l b Hr E) as Hb.
  pose proof (built_blk_ok l b Hb Hasc) as Hok.
  destruct Hb as ([Hf Hsz] & Hw & Hm).
  assert ((Z.of_nat (length l) <=? BLOCK_FULL_LENGTH) = true) as Hle by (apply Z.leb_le; lia).
  rewrite Hle in Hm. destruct Hm as [HL Hent].
  rewrite (Append_pairs b id val) by (first [by split | lia]).
  eexists _, _. split; [done|].
  unfold Block.UnAppend. cbn [Length Frozen Values].
  assert ((BLOCK_FULL_LENGTH <? Length b + 1) = false) as -> by (apply Z.ltb_ge; lia).
  assert ((0 <? Length b + 1) = true) as -> by (apply Z.ltb_lt; lia).
  replace (Length b + 1 - 1) with (Length b) by lia.
  unfold zget. assert ((Length b <? 0) = false) as -> by (apply Z.ltb_ge; lia).
  rewrite list_lookup_insert_eq by lia. rsimpl.
  pose proof (unpack_pack id val Hid Hval) as Hup. unfold unpack in Hup.
  injection Hup as Hk Hv. consts. rewrite Hk, Hv.
  assert ((65535 <? id) = false) as -> by (apply Z.ltb_ge; lia).
  assert ((65535 <? val) = false) as -> by (apply Z.ltb_ge; lia).
  split; [done|]. split; [done|].
  intros k Hk'.
  set (b2 := {| Length := Length b; Frozen := false;
                Values := <[Z.to_nat (Length b) := pack (id, val)]> (Values b) |}).
  assert (entries b2 = entries b) as Eent.
  { unfold entries, b2. cbn [Length Values]. by rewrite take_insert_ge by lia. }
  assert (blk_ok b2) as Hok2.
  { destruct Hok as [_ Hok]. consts. split.
    - unfold b2. cbn [Values]. apply Forall_insert; [done|]. by apply pack_range.
    - assert ((32768 <? Length b) = false) as Hmode by (apply Z.ltb_ge; lia).
      rewrite Hmode in Hok. change (Length b2) with (Length b). consts. rewrite Hmode.
      rewrite Eent. unfold b2. cbn [Values]. rewrite length_insert. done. }
  rewrite !Lookup_get by (done || lia). unfold get. consts.
  change (Length b2) with (Length b).
  assert ((32768 <? Length b) = false) as -> by (apply Z.ltb_ge; lia).
  by rewrite Eent.
Qed.

Lemma Block_Append_UnAppend_witness :
  exists b b1 b2,
    Appends NewAccumulationBlock S1_appends = Ok b /\
    Block.Append b 9 3 = Ok b1 /\ Block.UnAppend b1 = Ok (b2, 9, 3) /\
    Block.Lookup b2 2 = Block.Lookup b 2.
Proof.
  assert (in_range S1_appends) as Hr by sorted_tac.
  assert (ascending S1_appends) as Ha by sorted_tac.
  destruct (Appends_built S1_appends Hr) as (b & E & _).
  destruct (Block_Append_UnAppend S1_appends b 9 3 Hr Ha) as (b1 & b2 & E1 & E2 & _ & Hl);
    [cbn; clia|exact E|lia|lia|].
  exists b, b1, b2. split; [exact E|]. split; [exact E1|]. split; [exact E2|].
  apply Hl. lia.
Defined.

Lemma dense_appends_in_range : in_range dense_appends.
Proof.
  apply Forall_forall. intros kv Hin.
  apply list_elem_of_fmap in Hin as (i & -> & Hi). apply elem_of_seq in Hi.
  cbn [fst snd]. lia.
Qed.

Lemma dense_appends_length : length dense_appends = Z.to_nat 40000.
Proof. unfold dense_appends. by rewrite length_fmap, length_seq. Qed.

(* In array mode a built block is well formed whatever the order of ids. *)
Lemma built_array_ok l b :
  built l b -> BLOCK_FULL_LENGTH < Z.of_nat (length l) ->
  Length b = 65536 /\ blk_ok b /\
  forall k, 0 <= k < 65536 -> get b k = or_vals k l.
Proof.
  intros ([Hf Hsz] & Hw & Hm) Hlen.
  assert ((Z.of_nat (length l) <=? BLOCK_FULL_LENGTH) = false) as Hgt by (apply Z.leb_gt; lia).
  rewrite Hgt in Hm. destruct Hm as [HL Hc].
  assert ((BLOCK_FULL_LENGTH <? Length b) = true) as Hmode by (apply Z.ltb_lt; clia).
  split; [done|]. split.
  - split; [done|]. by rewrite Hmode.
  - intros k Hk. unfold get. rewrite Hmode. by apply Hc.
Qed.

(** X5.  In array mode UnAppend removes nothing: on a block built by more
    than BLOCK_FULL_LENGTH appends it returns the block as it was, together
    with an id and the value Lookup gives for that id, and Lookup gives 0
    for every id above it: the highest id that holds a non-zero value, if
    there is one. *)
Theorem Block_UnAppend_array_mode (l : list (Z * Z)) (b : Block) :
  in_range l -> BLOCK_FULL_LENGTH < Z.of_nat (length l) ->
  Appends NewAccumulationBlock l = Ok b ->
  exists idx val,
    Block.UnAppend b = Ok (b, idx, val) /\
    0 <= idx < 65536 /\
    Block.Lookup b idx = Ok val /\
    forall k, idx < k < 65536 -> Block.Lookup b k = Ok 0.
Proof.
  intros Hr Hlen E. pose proof (Appends_is_built l b Hr E) as Hb.
  destruct (built_array_ok l b Hb Hlen) as (HL & Hok & Hg).
  pose proof Hb as ([Hf Hsz] & Hw & _).
  destruct (unappend_scan_spec (Values b) (Z.to_nat BLOCK_FULL_LENGTH))
    as (idx & val & Es & Hidx & Hval & Hz); [done|done|clia|intros k Hk; clia|].
  exists idx, val.
  assert ((BLOCK_FULL_LENGTH <? Length b) = true) as Hmode by (apply Z.ltb_lt; clia).
  pose proof (cell_range (Values b) idx) as Hcr.
  split.
  - unfold Block.UnAppend. rewrite Hf, Hmode, Es. rsimpl.
    assert ((BLOCK_IDX_MASK <? idx) = false) as -> by (apply Z.ltb_ge; clia).
    assert ((BLOCK_VAL_MASK <? val) = false) as -> by (apply Z.ltb_ge; clia). done.
  - split; [done|]. split.
    + rewrite Lookup_get by done. unfold get. by rewrite Hmode, Hval.
    + intros k Hk. rewrite Lookup_get by (done || lia). unfold get. rewrite Hmode.
      by rewrite Hz.
Qed.

Lemma Block_UnAppend_array_mode_witness :
  exists b idx val,
    Appends NewAccumulationBlock dense_appends = Ok b /\
    Block.UnAppend b = Ok (b, idx, val) /\ Block.Lookup b idx = Ok val.
Proof.
  destruct (Appends_built dense_appends dense_appends_in_range) as (b & E & _).
  destruct (Block_UnAppend_array_mode dense_appends b dense_appends_in_range)
    as (idx & val & Eu & _ & Hl & _); [rewrite dense_appends_length; clia|exact E|].
  exists b, idx, val. split; [exact E|]. split; [exact Eu|exact Hl].
Defined.

(** X6.  The only panics of Append on a block built by appends are the two
    range checks: an id above BLOCK_IDX_MASK, else a val above
    BLOCK_VAL_MASK.  Every other Append returns, whatever the id's order
    with respect to the earlier ones, with Length one higher or, from the
    BLOCK_FULL_LENGTH+1-th record on, 2^16: no slice index goes out of range
    and the array-mode overflow panic is not raised. *)
Theorem Block_Append_outcome (l : list (Z * Z)) (b : Block) (id val : Z) :
  in_range l -> Appends NewAccumulationBlock l = Ok b ->
  0 <= id -> 0 <= val ->
  (BLOCK_IDX_MASK < id -> Block.Append b id val = Panic (BlockIdTooLarge id)) /\
  (id <= BLOCK_IDX_MASK -> BLOCK_VAL_MASK < val ->
   Block.Append b id val = Panic (BlockValTooLarge val)) /\
  (id <= BLOCK_IDX_MASK -> val <= BLOCK_VAL_MASK ->
   exists b', Block.Append b id val = Ok b' /\ Frozen b' = false /\
     Length b' = (if Z.of_nat (length l) <? BLOCK_FULL_LENGTH then Length b + 1 else 65536)).
Proof.
  intros Hr E Hid Hval. pose proof (Appends_is_built l b Hr E) as Hb.
  split; [|split].
  - intros H. unfold Block.Append.
    by assert ((BLOCK_IDX_MASK <? id) = true) as -> by (apply Z.ltb_lt; lia).
  - intros H1 H2. unfold Block.Append.
    assert ((BLOCK_IDX_MASK <? id) = false) as -> by (apply Z.ltb_ge; lia).
    by assert ((BLOCK_VAL_MASK <? val) = true) as -> by (apply Z.ltb_lt; lia).
  - intros H1 H2.
    destruct (built_snoc l b (id, val) Hb) as (b' & E' & Hb'); [cbn; clia..|].
    exists b'. split; [exact E'|].
    destruct Hb' as ([Hf' _] & _ & Hm'). split; [done|].
    destruct Hb as (_ & _ & Hm).
    rewrite length_app in Hm'. cbn [length] in Hm'.
    destruct (Z.ltb_spec (Z.of_nat (length l)) BLOCK_FULL_LENGTH) as [Hlt|Hge].
    + assert ((Z.of_nat (length l + 1) <=? BLOCK_FULL_LENGTH) = true) as Hle'
        by (apply Z.leb_le; lia).
      assert ((Z.of_nat (length l) <=? BLOCK_FULL_LENGTH) = true) as Hle
        by (apply Z.leb_le; lia).
      rewrite Hle' in Hm'. rewrite Hle in Hm. lia.
    + assert ((Z.of_nat (length l + 1) <=? BLOCK_FULL_LENGTH) = false) as Hgt'
        by (apply Z.leb_gt; lia).
      rewrite Hgt' in Hm'. lia.
Qed.

Lemma Block_Append_outcome_witness :
  exists b,
    Appends NewAccumulationBlock S1_appends = Ok b /\
    Block.Append b 65536 1 = Panic (BlockIdTooLarge 65536) /\
    Block.Append b 7 65536 = Panic (BlockValTooLarge 65536) /\
    exists b', Block.Append b 7 1 = Ok b' /\ Length b' = Length b + 1.
Proof.
  assert (in_range S1_appends) as Hr by sorted_tac.
  destruct (Appends_built S1_appends Hr) as (b & E & _).
  exists b. split; [exact E|]. split; [|split].
  - apply (Block_Append_outcome S1_appends b 65536 1 Hr E); [lia|lia|clia].
  - apply (Block_Append_outcome S1_appends b 7 65536 Hr E); [lia|lia|clia|clia].
  - destruct (Block_Append_outcome S1_appends b 7 1 Hr E) as (_ & _ & H); [lia|lia|].
    destruct H as (b' & E' & _ & HL); [clia|clia|].
    exists b'. split; [exact E'|exact HL].
Defined.

(** ** Block: iteration and search *)

(** X7.  Walking a block with its Iterator (Valid, Index, Value, Next)
    ends and stays inside the storage.  In list-of-pairs mode it yields
    the appended records, in the order of the appends.  In array mode it
    yields records with strictly ascending ids whose values OR together, id
    by id, to the OR of the appended values. *)
Theorem Block_Iterator_yields (l : list (Z * Z)) (b : Block) :
  in_range l -> Appends NewAccumulationBlock l = Ok b ->
  exists fuel r,
    iter_collect fuel (Block.Iterator b) = Ok r /\
    in_range r /\
    (Z.of_nat (length l) <= BLOCK_FULL_LENGTH -> r = l) /\
    (BLOCK_FULL_LENGTH < Z.of_nat (length l) ->
     strictly_ascending r /\
     forall id, 0 <= id < 65536 -> or_vals id r = or_vals id l).
Proof.
  intros Hr E. pose proof (Appends_is_built l b Hr E) as Hb.
  destruct (Z.le_gt_cases (Z.of_nat (length l)) BLOCK_FULL_LENGTH) as [Hle|Hgt].
  - pose proof Hb as ([Hf Hsz] & Hw & Hm).
    assert ((Z.of_nat (length l) <=? BLOCK_FULL_LENGTH) = true) as Hle' by (apply Z.leb_le; lia).
    rewrite Hle' in Hm. destruct Hm as [HL Hent].
    exists (S (Z.to_nat (Length b - 0))), l. split.
    + unfold Block.Iterator. rewrite (iter_pairs b (Z.to_nat (Length b - 0)) 0) by lia.
      change (Z.to_nat 0) with 0%nat. rewrite drop_0. f_equal. exact Hent.
    + split; [done|]. split; [done|]. lia.
  - destruct (built_array_ok l b Hb Hgt) as (HL & Hok & Hg).
    destruct (iter_block b Hok) as (fuel & r & Er & _ & Hrr & Hs & Hc).
    assert (uniq b) as Hu by (intros ?; clia).
    exists fuel, r. split; [done|]. split; [done|]. split; [lia|].
    intros _. split; [by apply Hs|].
    intros id Hid. rewrite Hc by done. by apply Hg.
Qed.

Lemma Block_Iterator_yields_witness :
  exists b fuel,
    Appends NewAccumulationBlock S1_appends = Ok b /\
    iter_collect fuel (Block.Iterator b) = Ok S1_appends.
Proof.
  assert (in_range S1_appends) as Hr by sorted_tac.
  destruct (Appends_built S1_appends Hr) as (b & E & _).
  destruct (Block_Iterator_yields S1_appends b Hr E) as (fuel & r & Er & _ & Hp & _).
  exists b, fuel. split; [exact E|]. rewrite <- (Hp ltac:(cbn; clia)). exact Er.
Defined.

(** X8.  On a non-empty slice of packed records sorted by id, search
    returns one of the records.  When some record has an id not above the
    bound, the returned record has an id not above the bound, and no record
    with an id not above the bound has a higher id.  When every id is above
    the bound it returns the first record. *)
Theorem search_greatest_not_above (ws : list Z) (lb : Z) :
  sorted_words ws -> ws <> [] ->
  search ws lb ∈ ws /\
  ((exists w, w ∈ ws /\ key w <= lb) ->
   key (search ws lb) <= lb /\
   forall w, w ∈ ws -> key w <= lb -> key w <= key (search ws lb)) /\
  ((forall w, w ∈ ws -> lb < key w) -> head ws = Some (search ws lb)).
Proof.
  intros Hs Hne.
  destruct (sorted_split ws lb Hs) as (l1 & l2 & -> & H1 & H2).
  destruct (decide (l1 = [])) as [->|Hl1].
  - cbn [app] in *. destruct l2 as [|x l2]; [done|].
    rewrite (search_all_gt lb x l2 H2).
    split; [apply list_elem_of_here|]. split; [|done].
    intros (w & Hin & Hle). rewrite Forall_forall in H2. specialize (H2 w Hin). lia.
  - destruct (exists_last Hl1) as (l1' & x & ->).
    rewrite <- app_assoc. cbn [app].
    rewrite (search_last_le lb l1' x l2 H1 H2).
    split; [set_solver|].
    assert (key x <= lb) as Hx.
    { rewrite Forall_forall in H1. apply H1. set_solver. }
    split.
    + intros _. split; [done|]. intros w Hin Hle.
      rewrite <- app_assoc in Hs. cbn [app] in Hs.
      apply elem_of_app in Hin as [Hin|Hin].
      * unfold sorted_words in Hs. rewrite fmap_app in Hs.
        apply (StronglySorted_app_1_elem_of Z.le (key <$> l1') (key <$> x :: l2));
          [done|by apply list_elem_of_fmap_2|set_solver].
      * apply elem_of_cons in Hin as [->|Hin]; [lia|].
        rewrite Forall_forall in H2. specialize (H2 w Hin). lia.
    + intros Hall. specialize (Hall x ltac:(set_solver)). lia.
Qed.

Lemma search_greatest_not_above_witness :
  search [pack (1, 7); pack (4, 2); pack (9, 5)] 6 ∈ [pack (1, 7); pack (4, 2); pack (9, 5)] /\
  key (search [pack (1, 7); pack (4, 2); pack (9, 5)] 6) <= 6.
Proof.
  destruct (search_greatest_not_above [pack (1, 7); pack (4, 2); pack (9, 5)] 6)
    as (Hin & Hle & _).
  - unfold sorted_words. cbn [fmap list_fmap].
    repeat constructor; vm_compute; intros ?; discriminate.
  - discriminate.
  - split; [exact Hin|]. apply Hle. exists (pack (1, 7)). split; [apply list_elem_of_here|].
    vm_compute. discriminate.
Defined.

(** ** writePacked *)

(** X26.  For a val below 2^16 (what Block.Append passes, after its
    range check) and an id within twice the length of the slice,
    writePacked ORs val into the 16-bit field of the packed array that
    belongs to id (word id >> 1, low half for an even id, high half for an
    odd one) and leaves every other field and the length as they are; it
    never clears a bit.  For an id at or beyond twice the length of the
    slice the slice index is out of range and it panics. *)
Theorem writePacked_ors_field (arr : list Z) (id val : Z) :
  0 <= id -> 0 <= val < 65536 ->
  (id < 2 * Z.of_nat (length arr) ->
   exists arr', writePacked arr id val = Ok arr' /\
     length arr' = length arr /\
     forall k, 0 <= k ->
       cell arr' k = if k =? id then Z.lor (cell arr k) val else cell arr k) /\
  (2 * Z.of_nat (length arr) <= id -> writePacked arr id val = Panic IndexOutOfRange).
Proof.
  intros Hid Hval. split.
  - intros Hlt. destruct (writePacked_ok arr id val) as (arr' & E & Hl & _ & Hc); [lia|done|].
    by exists arr'.
  - intros Hge. unfold writePacked, zget. consts.
    assert (Z.of_nat (length arr) <= Z.shiftr id 1) as Hidx.
    { rewrite Z.shiftr_div_pow2 by lia. change (2 ^ 1) with 2.
      apply Z.div_le_lower_bound; lia. }
    assert ((Z.shiftr id 1 <? 0) = false) as -> by (apply Z.ltb_ge; lia).
    rewrite lookup_ge_None_2 by lia. done.
Qed.

Lemma writePacked_ors_field_witness :
  exists arr', writePacked [0; 0] 3 5 = Ok arr' /\
    cell arr' 3 = Z.lor (cell [0; 0] 3) 5 /\ cell arr' 2 = cell [0; 0] 2.
Proof.
  destruct (writePacked_ors_field [0; 0] 3 5) as [H _]; [lia|lia|].
  destruct H as (arr' & E & _ & Hc); [cbn; lia|].
  exists arr'. split; [exact E|]. split; [apply (Hc 3); lia|apply (Hc 2); lia].
Defined.

(** ** MultiBlock: what Lookup returns *)

Lemma last_val_range id l :
  Forall (fun kv : Z * Z => 0 <= kv.2 < 65536) l -> 0 <= last_val id l < 65536.
Proof.
  intros H. induction l as [|kv l IH] using rev_ind; [cbn; lia|].
  apply Forall_app in H as [H1 H2]. apply Forall_inv in H2.
  rewrite last_val_snoc. destruct (_ =? _); auto.
Qed.

Lemma get_range b k : words (Values b) -> 0 <= get b k < 65536.
Proof.
  intros Hw. unfold get. destruct (_ <? _); [apply cell_range|].
  apply last_val_range. eapply Forall_impl; [apply (entries_in_range b Hw)|].
  intros kv [_ H]. exact H.
Qed.

Lemma mget_range m id : mb_ok m -> 0 <= mget m id < 65536.
Proof.
  intros (Hacc & Hok & Hu & HId & HVal & Htail & Hsh). unfold mget, sget.
  destruct (_ =? _); [done|]. destruct (_ =? _); [apply get_range, Hok|].
  destruct (Blocks m !! _) as [b|] eqn:E; [|lia].
  apply get_range. destruct (Hsh _ _ E) as [(_ & [Hw _] & _) _]. exact Hw.
Qed.

(* Nothing is stored above the pending id, nor under a negative id. *)
Lemma mget_above m id : mb_ok m -> LastId m < id -> mget m id = 0.
Proof.
  intros (Hacc & Hok & Hu & HId & HVal & Htail & Hsh) Hlt. unfold mget.
  assert ((id =? LastId m) = false) as -> by (apply Z.eqb_neq; lia).
  destruct (Z.eqb_spec (Z.shiftr id 16) (Z.shiftr (LastId m) 16)) as [Eup|Nup].
  - pose proof (same_shard_lt (LastId m) id Hlt (eq_sym Eup)) as Hlow.
    destruct (split16 id) as [_ Hr].
    unfold tail_ok in Htail. cbv zeta in Htail.
    destruct (BLOCK_FULL_LENGTH <? Length (Current m)) eqn:Hm.
    + unfold get. rewrite Hm. apply Htail. lia.
    + apply (get_pairs_above _ (Z.land (LastId m) 65535)); [done|done|lia].
  - unfold sget. destruct (Blocks m !! Z.shiftr id 16) as [b|] eqn:E; [|done].
    destruct (Hsh _ _ E) as [_ Hk].
    pose proof (shiftr16_mono (LastId m) id ltac:(lia)). lia.
Qed.

Lemma mget_negative m id : mb_ok m -> id < 0 -> mget m id = 0.
Proof.
  intros (Hacc & Hok & Hu & HId & HVal & Htail & Hsh) Hlt. unfold mget.
  assert ((id =? LastId m) = false) as -> by (apply Z.eqb_neq; lia).
  assert (Z.shiftr id 16 < 0) as Hneg by (apply Z.shiftr_neg; lia).
  assert (0 <= Z.shiftr (LastId m) 16) as Hpos by (apply Z.shiftr_nonneg; lia).
  assert ((Z.shiftr id 16 =? Z.shiftr (LastId m) 16) = false) as -> by (apply Z.eqb_neq; lia).
  unfold sget. destruct (Blocks m !! Z.shiftr id 16) as [b|] eqn:E; [|done].
  destruct (Hsh _ _ E) as [_ Hk]. lia.
Qed.

Lemma MAppends_snoc m l kv :
  MAppends m (l ++ [kv]) = (m' ← MAppends m l; MultiBlock.Append m' kv.1 kv.2).
Proof.
  unfold MAppends. rewrite foldM_app. destruct (foldM _ m l) as [m'| |]; [|done..].
  rsimpl. cbn [foldM]. by destruct (MultiBlock.Append m' kv.1 kv.2).
Qed.

(* The content of a MultiBlock after a run of appends to a new one. *)
Lemma MAppends_content l :
  ascending l ->
  Forall (fun kv : Z * Z => 0 <= kv.1 < 2 ^ 63 /\ 0 <= kv.2 < 65536) l ->
  exists m, MAppends NewMultiBlock l = Ok m /\ mb_ok m /\
    LastId m = default 0 (last (l.*1)) /\
    forall id, mget m id = or_vals id l.
Proof.
  induction l as [|kv l IH] using rev_ind; intros Hasc Hl.
  - exists NewMultiBlock. split; [done|]. split; [apply mb_ok_New|]. split; [done|].
    intros id. by rewrite mget_New.
  - apply ascending_snoc in Hasc as [Hasc Hle].
    apply Forall_app in Hl as [Hl Hkv]. apply Forall_inv in Hkv. destruct Hkv as [Hk Hv].
    destruct (IH Hasc Hl) as (m & Em & Hok & HId & Hg).
    assert (LastId m <= kv.1) as Hord.
    { rewrite HId. destruct l as [|kv0 l0] using rev_ind; [cbn; lia|].
      rewrite fmap_app, list_fmap_singleton, last_snoc. cbn [default].
      apply Forall_app in Hle as [_ Hle]. by apply Forall_inv in Hle. }
    destruct (MAppend_spec m kv.1 kv.2 Hok) as (m' & E' & Hok' & HId' & HVal' & Hkeep);
      [lia|done|].
    exists m'. split; [by rewrite MAppends_snoc, Em|]. split; [done|].
    split; [by rewrite fmap_app, list_fmap_singleton, last_snoc|].
    intros id. rewrite or_vals_snoc.
    destruct (Z.eqb_spec kv.1 id) as [<-|Hne].
    + unfold mget at 1. rewrite HId', Z.eqb_refl, HVal'.
      destruct (Z.eqb_spec kv.1 (LastId m)) as [Elast|Nlast].
      * rewrite <- Hg. unfold mget. by rewrite Elast, Z.eqb_refl.
      * rewrite <- Hg, mget_above by (done || lia). done.
    + rewrite Hkeep by done. apply Hg.
Qed.

(** X9.  After any run of appends to a new MultiBlock with non-decreasing
    ids in [0, 2^63) and vals below 2^16, every append has succeeded and
    Lookup(id) returns, for every id, the bitwise OR of the vals appended
    under that id: 0 for an id never appended. *)
Theorem MultiBlock_Lookup_after_appends (l : list (Z * Z)) :
  ascending l ->
  Forall (fun kv : Z * Z => 0 <= kv.1 < 2 ^ 63 /\ 0 <= kv.2 < 65536) l ->
  exists m, MAppends NewMultiBlock l = Ok m /\
    forall id, MultiBlock.Lookup m id = Ok (or_vals id l).
Proof.
  intros Hasc Hl. destruct (MAppends_content l Hasc Hl) as (m & E & Hok & _ & Hg).
  exists m. split; [exact E|]. intros id. by rewrite MLookup_mget, Hg.
Qed.

Lemma MultiBlock_Lookup_after_appends_witness :
  exists m, MAppends NewMultiBlock [(3, 1); (3, 4); (70000, 2)] = Ok m /\
    MultiBlock.Lookup m 3 = Ok 5 /\ MultiBlock.Lookup m 70000 = Ok 2 /\
    MultiBlock.Lookup m 4 = Ok 0.
Proof.
  destruct (MultiBlock_Lookup_after_appends [(3, 1); (3, 4); (70000, 2)]) as (m & E & Hl).
  - unfold ascending. cbn [fmap list_fmap fst]. repeat constructor; lia.
  - repeat constructor; cbn [fst snd]; lia.
  - exists m. split; [exact E|]. split; [apply (Hl 3)|]. split; [apply (Hl 70000)|apply (Hl 4)].
Defined.

Section MultiBlockFacts.

Context (range_order : gmap Z Block -> list (Z * Block)).

Context (range_perm : range_complete range_order).

(** ** MultiBlock: Append and Lookup on the states a program reaches *)

(** X10.  On a reachable MultiBlock, Append(id, val) with an int64 id and
    a uint32 val panics exactly when id is below LastId (ids out of order)
    or, failing that, when val is above BLOCK_VAL_MASK; no panic of the
    Block operations underneath escapes.  When it returns, Lookup(id) is val,
    ORed with the pending value if id is the pending id, and Lookup of every
    other id is unchanged. *)
Theorem MultiBlock_Append_outcome (m : MultiBlock) (id val : Z) :
  reachable range_order m ->
  - 2 ^ 63 <= id < 2 ^ 63 -> 0 <= val < 2 ^ 32 ->
  (id < LastId m -> MultiBlock.Append m id val = Panic (IdOutOfOrder id (LastId m))) /\
  (LastId m <= id -> BLOCK_VAL_MASK < val ->
   MultiBlock.Append m id val = Panic (MultiValTooLarge val)) /\
  (LastId m <= id -> val <= BLOCK_VAL_MASK ->
   exists m', MultiBlock.Append m id val = Ok m' /\
     MultiBlock.Lookup m' id
       = Ok (if id =? LastId m then Z.lor (LastVal m) val else val) /\
     forall k, k <> id -> MultiBlock.Lookup m' k = MultiBlock.Lookup m k).
Proof.
  intros Hm Hid Hval. pose proof (reachable_ok range_order range_perm m Hm) as Hok.
  split; [|split].
  - intros Hlt. unfold MultiBlock.Append.
    by assert ((id <? LastId m) = true) as -> by (apply Z.ltb_lt; lia).
  - intros Hle Hgt. unfold MultiBlock.Append.
    assert ((id <? LastId m) = false) as -> by (apply Z.ltb_ge; lia).
    by assert ((BLOCK_VAL_MASK <? val) = true) as -> by (apply Z.ltb_lt; lia).
  - intros Hle Hv.
    destruct (MAppend_spec m id val Hok) as (m' & E & Hok' & HId & HVal & Hkeep);
      [lia|clia|].
    exists m'. split; [exact E|]. split.
    + rewrite MLookup_mget by done. unfold mget. by rewrite HId, Z.eqb_refl, HVal.
    + intros k Hk. rewrite !MLookup_mget by done. by rewrite Hkeep.
Qed.

(** X11.  Lookup on a reachable MultiBlock returns for every id, without
    a panic, a value below 2^16; the value is 0 for a negative id and for an
    id above the last one appended. *)
Theorem MultiBlock_Lookup_total (m : MultiBlock) (id : Z) :
  reachable range_order m ->
  exists v, MultiBlock.Lookup m id = Ok v /\ 0 <= v < 65536 /\
    (id < 0 \/ LastId m < id -> v = 0).
Proof.
  intros Hm. pose proof (reachable_ok range_order range_perm m Hm) as Hok.
  exists (mget m id). split; [by apply MLookup_mget|]. split; [by apply mget_range|].
  intros [Hneg|Habove]; [by apply mget_negative|by apply mget_above].
Qed.

(** ** MultiBlock: the pushed state *)

(* Lookup in a shard map of well-formed blocks. *)
Lemma shard_Lookup blocks bound id :
  shards_ok blocks bound ->
  match blocks !! Z.shiftr id BLOCK_IDX_BITS with
  | Some block => Block.Lookup block (u32 (Z.land id BLOCK_IDX_MASK))
  | None => Ok 0
  end = Ok (sget blocks id).
Proof.
  intros Hsh. unfold sget. consts. destruct (split16 id) as [_ Hlow].
  rewrite u32_small by lia.
  destruct (blocks !! Z.shiftr id 16) as [b|] eqn:E; [|done].
  apply Lookup_get; [|done]. apply (Hsh _ _ E).
Qed.

(** X12.  pushCurrent on a reachable MultiBlock returns a MultiBlock whose
    LastId is the marker maxLastId = 2^63 - 1, whose LastVal is 0 and whose
    Current block is an empty accumulation block; all its shard blocks are
    frozen.  While it is pushed, every Append with an id below the marker
    panics, and Lookup returns what it returned before the push for every id
    below 2^63 - 2^16. *)
Theorem pushCurrent_pushed_state (m : MultiBlock) :
  reachable range_order m ->
  exists m1, MultiBlock.pushCurrent m = Ok m1 /\
    LastId m1 = 2 ^ 63 - 1 /\ LastVal m1 = 0 /\ Current m1 = NewAccumulationBlock /\
    all_frozen m1 /\
    (forall id val, id < 2 ^ 63 - 1 ->
       MultiBlock.Append m1 id val = Panic (IdOutOfOrder id (2 ^ 63 - 1))) /\
    (forall id, id < 2 ^ 63 - 2 ^ 16 -> MultiBlock.Lookup m1 id = MultiBlock.Lookup m id).
Proof.
  intros Hm. pose proof (reachable_ok range_order range_perm m Hm) as Hok.
  destruct (push_spec m Hok) as (blk & E & Hsh & _ & Hg).
  eexists. split; [exact E|]. cbn [LastId LastVal Current]. rewrite maxLastId_val.
  split; [done|]. split; [done|]. split; [done|]. split.
  - intros k b Hb. cbn [Blocks] in Hb. by destruct (Hsh k b Hb) as [(Hf & _) _].
  - split.
    + intros id val Hid. unfold MultiBlock.Append. cbn [LastId].
      by assert ((id <? 2 ^ 63 - 1) = true) as -> by (apply Z.ltb_lt; lia).
    + intros id Hid. rewrite (MLookup_mget m) by done. rewrite <- Hg.
      unfold MultiBlock.Lookup. cbn [LastId LastVal Current Blocks].
      assert ((id =? 2 ^ 63 - 1) = false) as -> by (apply Z.eqb_neq; lia).
      assert (Z.shiftr id BLOCK_IDX_BITS < Z.shiftr (2 ^ 63 - 1) BLOCK_IDX_BITS) as Hup.
      { consts. rewrite !Z.shiftr_div_pow2 by lia.
        change ((2 ^ 63 - 1) / 2 ^ 16) with (2 ^ 47 - 1).
        apply Z.div_lt_upper_bound; lia. }
      assert ((Z.shiftr id BLOCK_IDX_BITS =? Z.shiftr (2 ^ 63 - 1) BLOCK_IDX_BITS) = false)
        as -> by (apply Z.eqb_neq; lia).
      by apply (shard_Lookup _ (2 ^ 47)).
Qed.

(** ** MultiBlock: Merge *)

(** X13.  As far as Lookup can tell, Merge is commutative and associative:
    for reachable X, Y and Z, merging Y into X and merging X into Y give
    MultiBlocks with the same Lookup results, and so do merging Z into the
    merge of X and Y and merging the merge of Y and Z into X. *)
Theorem Merge_commutative_associative (X Y Z : MultiBlock) :
  reachable range_order X -> reachable range_order Y -> reachable range_order Z ->
  (exists XY YX Y0 X0,
     MultiBlock.Merge range_order X Y = Ok (XY, Y0) /\
     MultiBlock.Merge range_order Y X = Ok (YX, X0) /\
     forall id, MultiBlock.Lookup XY id = MultiBlock.Lookup YX id) /\
  (exists XY Y0 XY_Z Z0 YZ Z1 X_YZ YZ0,
     MultiBlock.Merge range_order X Y = Ok (XY, Y0) /\
     MultiBlock.Merge range_order XY Z = Ok (XY_Z, Z0) /\
     MultiBlock.Merge range_order Y Z = Ok (YZ, Z1) /\
     MultiBlock.Merge range_order X YZ = Ok (X_YZ, YZ0) /\
     forall id, MultiBlock.Lookup XY_Z id = MultiBlock.Lookup X_YZ id).
Proof.
  intros HX HY HZ.
  pose proof (reachable_ok range_order range_perm X HX) as HXok.
  pose proof (reachable_ok range_order range_perm Y HY) as HYok.
  pose proof (reachable_ok range_order range_perm Z HZ) as HZok.
  destruct (Merge_spec range_order range_perm X Y HXok HYok) as (XY & Exy & Hxy & Gxy).
  destruct (Merge_spec range_order range_perm Y X HYok HXok) as (YX & Eyx & Hyx & Gyx).
  destruct (Merge_spec range_order range_perm XY Z Hxy HZok) as (XY_Z & Exyz & Hxyz & Gxyz).
  destruct (Merge_spec range_order range_perm Y Z HYok HZok) as (YZ & Eyz & Hyz & Gyz).
  destruct (Merge_spec range_order range_perm X YZ HXok Hyz) as (X_YZ & Ex_yz & Hx_yz & Gx_yz).
  split.
  - eexists XY, YX, _, _. split; [exact Exy|]. split; [exact Eyx|].
    intros id. rewrite !MLookup_mget by done. by rewrite Gxy, Gyx, Z.lor_comm.
  - eexists XY, _, XY_Z, _, YZ, _, X_YZ, _.
    split; [exact Exy|]. split; [exact Exyz|]. split; [exact Eyz|]. split; [exact Ex_yz|].
    intros id. rewrite !MLookup_mget by done.
    by rewrite Gxyz, Gxy, Gx_yz, Gyz, Z.lor_assoc.
Qed.

(** X14.  Merge destroys its argument: after X.Merge(Y) on reachable X and
    Y, the blanked Y answers every Lookup with 0, and it is unusable
    otherwise, its Current block being the frozen empty block: Append of a
    val up to BLOCK_VAL_MASK under any id above 0 panics, pushCurrent panics,
    and so does merging it into any reachable MultiBlock. *)
Theorem Merge_blanks_argument (X Y X' Y' : MultiBlock) :
  reachable range_order X -> reachable range_order Y ->
  MultiBlock.Merge range_order X Y = Ok (X', Y') ->
  (forall id, MultiBlock.Lookup Y' id = Ok 0) /\
  (forall id val, 0 < id -> val <= BLOCK_VAL_MASK ->
     MultiBlock.Append Y' id val = Panic AppendToFrozen) /\
  MultiBlock.pushCurrent Y' = Panic AppendToFrozen /\
  (forall W, reachable range_order W ->
     MultiBlock.Merge range_order W Y' = Panic AppendToFrozen).
Proof.
  intros HX HY E.
  pose proof (reachable_ok range_order range_perm X HX) as HXok.
  pose proof (reachable_ok range_order range_perm Y HY) as HYok.
  destruct (Merge_spec range_order range_perm X Y HXok HYok) as (X1 & E1 & _).
  rewrite E in E1. injection E1 as _ ->.
  assert (MultiBlock.pushCurrent
            {| Blocks := ∅; Current := NewEmptyBlock; LastId := 0; LastVal := 0 |}
          = Panic AppendToFrozen) as Hpush by done.
  split; [|split; [|split]].
  - intros id. unfold MultiBlock.Lookup. cbn [LastId LastVal Current Blocks].
    destruct (id =? 0); [done|]. destruct (_ =? _).
    + destruct (split16 id) as [_ Hlow]. consts. rewrite u32_small by lia.
      by rewrite (Lookup_get _ _ blk_ok_NewEmptyBlock Hlow).
    + by rewrite lookup_empty.
  - intros id val Hid Hval. unfold MultiBlock.Append. cbn [LastId LastVal Current Blocks].
    assert ((id <? 0) = false) as -> by (apply Z.ltb_ge; lia).
    assert ((BLOCK_VAL_MASK <? val) = false) as -> by (apply Z.ltb_ge; lia).
    by assert ((id =? 0) = false) as -> by (apply Z.eqb_neq; lia).
  - exact Hpush.
  - intros W HW. pose proof (reachable_ok range_order range_perm W HW) as HWok.
    destruct (push_spec W HWok) as (blk & EW & _).
    unfold MultiBlock.Merge. rewrite EW. rsimpl. by rewrite Hpush.
Qed.

End MultiBlockFacts.

Lemma MultiBlock_Append_outcome_witness :
  MultiBlock.Append sample_X 4 1 = Panic (IdOutOfOrder 4 5) /\
  MultiBlock.Append sample_X 6 65536 = Panic (MultiValTooLarge 65536) /\
  exists m', MultiBlock.Append sample_X 6 2 = Ok m' /\ MultiBlock.Lookup m' 6 = Ok 2.
Proof.
  split; [|split].
  - apply (MultiBlock_Append_outcome map_to_list map_to_list_complete sample_X 4 1
             sample_X_reachable); [lia|lia|cbn; lia].
  - apply (MultiBlock_Append_outcome map_to_list map_to_list_complete sample_X 6 65536
             sample_X_reachable); [lia|lia|cbn; lia|clia].
  - destruct (MultiBlock_Append_outcome map_to_list map_to_list_complete sample_X 6 2
                sample_X_reachable) as (_ & _ & H); [lia|lia|].
    destruct H as (m' & E & Hl & _); [cbn; lia|clia|].
    exists m'. split; [exact E|exact Hl].
Defined.

Lemma MultiBlock_Lookup_total_witness :
  exists v, MultiBlock.Lookup sample_X 9 = Ok v /\ v = 0.
Proof.
  destruct (MultiBlock_Lookup_total map_to_list map_to_list_complete sample_X 9
              sample_X_reachable) as (v & E & _ & Hz).
  exists v. split; [exact E|]. apply Hz. right. cbn. lia.
Defined.

Lemma pushCurrent_pushed_state_witness :
  exists m1, MultiBlock.pushCurrent sample_X = Ok m1 /\
    MultiBlock.Append m1 6 1 = Panic (IdOutOfOrder 6 (2 ^ 63 - 1)) /\
    MultiBlock.Lookup m1 5 = MultiBlock.Lookup sample_X 5.
Proof.
  destruct (pushCurrent_pushed_state map_to_list map_to_list_complete sample_X
              sample_X_reachable) as (m1 & E & _ & _ & _ & _ & Ha & Hl).
  exists m1. split; [exact E|]. split; [apply Ha; lia|apply Hl; lia].
Defined.

Lemma Merge_commutative_associative_witness :
  exists XY YX Y0 X0,
    MultiBlock.Merge map_to_list sample_X sample_Y = Ok (XY, Y0) /\
    MultiBlock.Merge map_to_list sample_Y sample_X = Ok (YX, X0) /\
    MultiBlock.Lookup XY 5 = MultiBlock.Lookup YX 5.
Proof.
  destruct (Merge_commutative_associative map_to_list map_to_list_complete
              sample_X sample_Y sample_X
              sample_X_reachable sample_Y_reachable sample_X_reachable)
    as [(XY & YX & Y0 & X0 & E1 & E2 & Hl) _].
  exists XY, YX, Y0, X0. split; [exact E1|]. split; [exact E2|apply Hl].
Defined.

Lemma Merge_blanks_argument_witness :
  exists X' Y',
    MultiBlock.Merge map_to_list sample_X sample_Y = Ok (X', Y') /\
    MultiBlock.Lookup Y' 5 = Ok 0 /\
    MultiBlock.Append Y' 6 1 = Panic AppendToFrozen.
Proof.
  destruct (Merge_spec map_to_list map_to_list_complete sample_X sample_Y
              (reachable_ok _ map_to_list_complete _ sample_X_reachable)
              (reachable_ok _ map_to_list_complete _ sample_Y_reachable)) as (X' & E & _).
  destruct (Merge_blanks_argument map_to_list map_to_list_complete sample_X sample_Y _ _
              sample_X_reachable sample_Y_reachable E) as (Hl & Ha & _).
  eexists X', _. split; [exact E|]. split; [apply Hl|apply Ha; [lia|clia]].
Defined.

(** ** MultiBlock: the sorted keys *)

Lemma sorted_le_NoDup_lt (l : list Z) :
  StronglySorted Z.le l -> NoDup l -> StronglySorted Z.lt l.
Proof.
  induction 1 as [|x l Hs IH Hle]; intros Hnd; [constructor|].
  apply NoDup_cons in Hnd as [Hx Hnd]. constructor; [by apply IH|].
  apply Forall_forall. intros y Hy. rewrite Forall_forall in Hle.
  specialize (Hle y Hy). assert (x <> y) by (intros ->; done). lia.
Qed.

Section SortedKeys.

Context (range_order : gmap Z Block -> list (Z * Block)).

Context (range_perm : range_complete range_order).

(** X15.  Whatever the order in which the map is enumerated,
    sortedBlockKeys returns the keys of the Blocks map, each once, in
    strictly ascending order: the same slice for every enumeration order. *)
Theorem sortedBlockKeys_sorted (m : MultiBlock) :
  StronglySorted Z.lt (MultiBlock.sortedBlockKeys range_order m) /\
  (forall k, k ∈ MultiBlock.sortedBlockKeys range_order m <-> is_Some (Blocks m !! k)) /\
  length (MultiBlock.sortedBlockKeys range_order m) = size (Blocks m) /\
  MultiBlock.sortedBlockKeys range_order m = MultiBlock.sortedBlockKeys map_to_list m.
Proof.
  assert (forall r, range_complete r ->
            StronglySorted Z.lt (MultiBlock.sortedBlockKeys r m)) as Hstrict.
  { intros r Hr. apply sorted_le_NoDup_lt.
    - apply (StronglySorted_merge_sort Z.le).
    - unfold MultiBlock.sortedBlockKeys. rewrite merge_sort_Permutation.
      by apply range_NoDup. }
  split; [by apply Hstrict|]. split; [|split].
  - intros k. destruct m as [blocks cur lid lval].
    by apply sortedBlockKeys_elem.
  - unfold MultiBlock.sortedBlockKeys.
    rewrite merge_sort_Permutation, length_fmap, (range_perm (Blocks m)).
    apply length_map_to_list.
  - apply (StronglySorted_unique_strong Z.lt).
    + intros x1 x2 _ _ H1 H2. lia.
    + by apply Hstrict.
    + apply Hstrict. intros blocks. reflexivity.
    + unfold MultiBlock.sortedBlockKeys.
      by rewrite !merge_sort_Permutation, (range_perm (Blocks m)).
Qed.

End SortedKeys.

Lemma sortedBlockKeys_sorted_witness :
  MultiBlock.sortedBlockKeys (fun blocks => reverse (map_to_list blocks))
    {| Blocks := {[ 7 := NewEmptyBlock; 2 := NewEmptyBlock; 5 := NewEmptyBlock ]};
       Current := NewAccumulationBlock; LastId := 0; LastVal := 0 |}
  = MultiBlock.sortedBlockKeys map_to_list
    {| Blocks := {[ 7 := NewEmptyBlock; 2 := NewEmptyBlock; 5 := NewEmptyBlock ]};
       Current := NewAccumulationBlock; LastId := 0; LastVal := 0 |}.
Proof.
  refine (proj2 (proj2 (proj2
            (sortedBlockKeys_sorted (fun blocks => reverse (map_to_list blocks)) _ _)))).
  intros blocks. apply reverse_Permutation.
Defined.

(** ** MultiBlock: push and unpush in list-of-pairs mode *)

Section PushUnpush.

Context (range_order : gmap Z Block -> list (Z * Block)).

Context (range_perm : range_complete range_order).

(** X25.  While the current block of a reachable MultiBlock is in
    list-of-pairs mode with room for one more record, pushCurrent followed
    by unPushCurrent restores the MultiBlock: the same Blocks map, the same
    LastId and LastVal, and a current block of the same Length with the same
    records. *)
Theorem push_unpush_restores (m : MultiBlock) :
  reachable range_order m ->
  Length (Current m) < BLOCK_FULL_LENGTH ->
  exists m1 m2,
    MultiBlock.pushCurrent m = Ok m1 /\
    MultiBlock.unPushCurrent range_order m1 = Ok m2 /\
    Blocks m2 = Blocks m /\ LastId m2 = LastId m /\ LastVal m2 = LastVal m /\
    Length (Current m2) = Length (Current m) /\
    entries (Current m2) = entries (Current m).
Proof.
  intros Hm Hpairs. pose proof (reachable_ok range_order range_perm m Hm) as Hok.
  pose proof Hok as (Hacc & [Hw Hb] & Hu & HId & HVal & Htail & Hsh).
  pose proof Hacc as [Hf Hlen].
  assert ((BLOCK_FULL_LENGTH <? Length (Current m)) = false) as Hmode by (apply Z.ltb_ge; lia).
  rewrite Hmode in Hb. destruct Hb as [HL Hasc].
  destruct (split16 (LastId m)) as [Esplit Hi].
  set (i := Z.land (LastId m) 65535) in *.
  set (up := Z.shiftr (LastId m) 16) in *.
  set (L := Length (Current m)) in *.
  set (vs := <[Z.to_nat L := pack (i, LastVal m)]> (Values (Current m))).
  set (cur := {| Length := L + 1; Frozen := false; Values := vs |}).
  assert (length vs = Z.to_nat BLOCK_FULL_LENGTH) as Hlvs by (unfold vs; by rewrite length_insert).
  assert (Block.Append (Current m) (u32 i) (LastVal m) = Ok cur) as Eapp.
  { rewrite u32_small by lia. by rewrite Append_pairs by (done || lia). }
  assert (Block.Copy cur = {| Length := L + 1; Frozen := true; Values := take (Z.to_nat (L + 1)) vs |})
    as Ecopy.
  { unfold Block.Copy, cur. cbn [Length Values].
    assert ((BLOCK_FULL_LENGTH <? L + 1) = false) as -> by (apply Z.ltb_ge; lia).
    by rewrite copy_make by lia. }
  assert (MultiBlock.pushCurrent m =
            Ok {| Blocks := <[up := Block.Copy cur]> (Blocks m);
                  Current := NewAccumulationBlock; LastId := maxLastId; LastVal := 0 |}) as Epush.
  { unfold MultiBlock.pushCurrent. consts. fold i. rewrite Eapp. rsimpl.
    by rewrite Reset_acc by (by split). }
  assert (Blocks m !! up = None) as Hnone.
  { destruct (Blocks m !! up) as [b|] eqn:E; [|done].
    destruct (Hsh _ _ E) as [_ Hk]. fold up in Hk. lia. }
  eexists _, _. split; [exact Epush|].
  unfold MultiBlock.unPushCurrent.
  set (m1 := {| Blocks := <[up := Block.Copy cur]> (Blocks m);
                Current := NewAccumulationBlock; LastId := maxLastId; LastVal := 0 |}).
  set (keys := MultiBlock.sortedBlockKeys range_order m1).
  change (Blocks m1) with (<[up := Block.Copy cur]> (Blocks m)).
  change (Current m1) with NewAccumulationBlock.
  assert (StronglySorted Z.le keys) as Hsorted by apply (StronglySorted_merge_sort Z.le).
  assert (forall k, k ∈ keys <-> is_Some (<[up := Block.Copy cur]> (Blocks m) !! k)) as Hkeys.
  { intros k. apply (sortedBlockKeys_elem range_order range_perm). }
  assert (up ∈ keys) as Hup by (apply Hkeys; rewrite lookup_insert_eq; eauto).
  assert (0 < length keys)%nat as Hlenk.
  { destruct keys; [by apply elem_of_nil in Hup|cbn; lia]. }
  assert ((0 <? length keys)%nat = true) as -> by (by apply Nat.ltb_lt).
  rewrite zget_ok by lia. rsimpl.
  replace (Z.to_nat (Z.of_nat (length keys) - 1)) with (length keys - 1)%nat by lia.
  set (K := nth (length keys - 1) keys 0).
  assert (keys !! (length keys - 1)%nat = Some K) as HK by (apply nth_elem_of; lia).
  assert (K = up) as ->.
  { assert (up <= K) by (by apply (sorted_last_max keys K)).
    assert (K ∈ keys) as HKin by (apply list_elem_of_lookup; eauto).
    apply Hkeys in HKin as [B HB].
    destruct (Z.eq_dec K up) as [->|Hne]; [done|].
    rewrite lookup_insert_ne in HB by done.
    destruct (Hsh _ _ HB) as [_ Hk]. fold up in Hk. lia. }
  rewrite lookup_insert_eq, Ecopy.
  unfold Block.CopyFrom. cbn [NewAccumulationBlock Frozen].
  rewrite (Reset_acc NewAccumulationBlock acc_NewAccumulationBlock).
  rsimpl. cbn [NewAccumulationBlock Values Length Frozen].
  rewrite length_make, length_take.
  assert ((Z.of_nat (Z.to_nat BLOCK_FULL_LENGTH)
           <? Z.of_nat (Z.to_nat (L + 1) `min` length vs)) = false) as -> by (apply Z.ltb_ge; lia).
  set (vs' := copy (make BLOCK_FULL_LENGTH) (take (Z.to_nat (L + 1)) vs)).
  assert (take (Z.to_nat (L + 1)) vs' = take (Z.to_nat (L + 1)) vs) as Etake.
  { unfold vs'. rewrite take_copy; [by rewrite take_idemp| |].
    - rewrite length_take. lia.
    - rewrite length_take, length_make. lia. }
  assert (vs' !! Z.to_nat L = Some (pack (i, LastVal m))) as Hlast.
  { rewrite <- (lookup_take_lt vs' (Z.to_nat (L + 1))) by lia.
    rewrite Etake, lookup_take_lt by lia. unfold vs.
    apply list_lookup_insert_eq. lia. }
  rsimpl. unfold Block.UnAppend. cbn [Frozen Length Values].
  assert ((BLOCK_FULL_LENGTH <? L + 1) = false) as -> by (apply Z.ltb_ge; lia).
  assert ((0 <? L + 1) = true) as -> by (apply Z.ltb_lt; lia).
  replace (L + 1 - 1) with L by lia.
  unfold zget. assert ((L <? 0) = false) as -> by (apply Z.ltb_ge; lia).
  rewrite Hlast. rsimpl.
  pose proof (unpack_pack i (LastVal m) Hi HVal) as Hup'. unfold unpack in Hup'.
  injection Hup' as Hk1 Hk2. consts. rewrite Hk1, Hk2.
  assert ((65535 <? i) = false) as -> by (apply Z.ltb_ge; lia).
  assert ((65535 <? LastVal m) = false) as -> by (apply Z.ltb_ge; lia).
  split; [done|]. cbn [Blocks LastId LastVal Current Length].
  split; [by apply delete_insert_id|].
  split.
  { destruct (join16 up i) as (-> & _); [apply shiftr16_bounds; lia|done|]. lia. }
  split; [done|]. split; [done|].
  unfold entries. cbn [Length Values]. f_equal.
  transitivity (take (Z.to_nat L) (take (Z.to_nat (L + 1)) vs')).
  { by rewrite take_take, Nat.min_l by lia. }
  rewrite Etake, take_take, Nat.min_l by lia. unfold vs.
  by rewrite take_insert_ge by lia.
Qed.

End PushUnpush.

Lemma push_unpush_restores_witness :
  exists m1 m2,
    MultiBlock.pushCurrent sample_X = Ok m1 /\
    MultiBlock.unPushCurrent map_to_list m1 = Ok m2 /\
    LastId m2 = 5 /\ LastVal m2 = 4.
Proof.
  destruct (push_unpush_restores map_to_list map_to_list_complete sample_X sample_X_reachable)
    as (m1 & m2 & E1 & E2 & _ & HId & HVal & _); [cbn; clia|].
  exists m1, m2. split; [exact E1|]. split; [exact E2|]. split; [exact HId|exact HVal].
Defined.

(** ** Way worker: putWay and processWayRequest *)

Lemma bits_in_refl v : bits_in v v.
Proof. unfold bits_in. apply Z.land_diag. Qed.

Lemma bits_in_trans a b c : bits_in a b -> bits_in b c -> bits_in a c.
Proof.
  unfold bits_in. intros H1 H2.
  transitivity (Z.land c (Z.land b a)); [by rewrite H1|].
  rewrite Z.land_assoc, H2. exact H1.
Qed.

Lemma bits_in_lor_l a b : bits_in a (Z.lor a b).
Proof. unfold bits_in. bitblast. by destruct (Z.testbit a n), (Z.testbit b n). Qed.

Lemma bits_in_lor_r a b : bits_in b (Z.lor a b).
Proof. unfold bits_in. bitblast. by destruct (Z.testbit a n), (Z.testbit b n). Qed.

Lemma bits_in_0 a : bits_in 0 a.
Proof. unfold bits_in. apply Z.land_0_r. Qed.

Lemma fold_lor_testbit {A} (f : A -> Z) (l : list A) (a i : Z) :
  Z.testbit (fold_left (fun acc n => Z.lor acc (f n)) l a) i
  = Z.testbit a i || existsb (fun n => Z.testbit (f n) i) l.
Proof.
  revert a. induction l as [|x l IH]; intros a; cbn [fold_left existsb].
  - by rewrite orb_false_r.
  - rewrite IH, Z.lor_spec. by rewrite orb_assoc.
Qed.

Lemma fold_lor_range {A} (f : A -> Z) (l : list A) (a : Z) :
  0 <= a < 65536 -> (forall x, 0 <= f x < 65536) ->
  0 <= fold_left (fun acc n => Z.lor acc (f n)) l a < 65536.
Proof.
  intros Ha Hf. revert a Ha. induction l as [|x l IH]; intros a Ha; [done|].
  cbn [fold_left]. apply IH. by apply lor_range.
Qed.

Lemma way_mask_range nodes nds : mb_ok nodes -> 0 <= way_mask nodes nds < 65536.
Proof. intros H. apply fold_lor_range; [lia|]. intros n. by apply mget_range. Qed.

Lemma way_mask_sub nodes nds n : n ∈ nds -> bits_in (mget nodes n) (way_mask nodes nds).
Proof.
  intros Hin. unfold bits_in, way_mask. apply Z.bits_inj'. intros i Hi.
  rewrite Z.land_spec, fold_lor_testbit, Z.bits_0. cbn [orb].
  destruct (Z.testbit (mget nodes n) i) eqn:E; [|apply andb_false_r].
  rewrite andb_true_r. apply existsb_exists. exists n. split; [|done].
  by apply list_elem_of_In.
Qed.

Lemma way_mask_bit nodes nds i :
  Z.testbit (way_mask nodes nds) i = true ->
  exists n, n ∈ nds /\ Z.testbit (mget nodes n) i = true.
Proof.
  unfold way_mask. rewrite fold_lor_testbit, Z.bits_0. cbn [orb].
  intros (n & Hin & Hb)%existsb_exists. exists n. split; [by apply list_elem_of_In|done].
Qed.

Lemma lookup_masks_from nodes nds acc ms :
  mb_ok nodes ->
  foldM (fun '(mask, nd_masks) n =>
           nd_mask ← MultiBlock.Lookup nodes n;
           Ok (Z.lor mask nd_mask, nd_masks ++ [nd_mask]))
        (acc, ms) nds
  = Ok (fold_left (fun acc n => Z.lor acc (mget nodes n)) nds acc, ms ++ (mget nodes <$> nds)).
Proof.
  intros Hok. revert acc ms.
  induction nds as [|n nds IH]; intros acc ms; cbn [foldM fold_left fmap list_fmap].
  - by rewrite app_nil_r.
  - rewrite MLookup_mget by done. rsimpl. rewrite IH.
    by rewrite <- app_assoc.
Qed.

Lemma lookup_masks_spec nodes nds :
  mb_ok nodes ->
  wayWorker.lookup_masks nodes nds = Ok (way_mask nodes nds, mget nodes <$> nds).
Proof.
  intros Hok. unfold wayWorker.lookup_masks, way_mask.
  by rewrite lookup_masks_from.
Qed.

(* The second loop of putWay, entry by entry. *)
Lemma record_extra_fold mask (f : Z -> Z) ns extra n :
  fold_left (wayWorker.record_extra mask) (zip ns (f <$> ns)) extra !! n =
  if decide (n ∈ ns /\ f n <> mask)
  then Some (Z.lor (default 0 (extra !! n)) (Z.land mask (u32 (Z.lnot (f n)))))
  else extra !! n.
Proof.
  revert extra. induction ns as [|a ns IH]; intros extra.
  - cbn. case_decide as H; [|done]. destruct H as [H _]. by apply elem_of_nil in H.
  - cbn [fmap list_fmap zip zip_with fold_left]. rewrite IH.
    unfold wayWorker.record_extra. cbv beta iota.
    destruct (Z.eqb_spec (f a) mask) as [Ea|Na]; cbn [negb].
    + repeat case_decide; try done.
      * exfalso. destruct H as [Hin Hn]. apply H0. split; [by right|done].
      * exfalso. destruct H0 as [Hin Hn]. apply elem_of_cons in Hin as [->|Hin]; [done|].
        apply H. by split.
    + destruct (decide (n = a)) as [->|Hna].
      * rewrite lookup_insert_eq. cbn [default]. unfold id.
        repeat case_decide.
        -- f_equal. rewrite <- Z.lor_assoc. by rewrite Z.lor_diag.
        -- exfalso. apply H0. split; [by left|done].
        -- done.
        -- exfalso. apply H0. split; [by left|done].
      * rewrite lookup_insert_ne by done.
        repeat case_decide; try done.
        -- exfalso. destruct H as [Hin Hn]. apply H0. split; [by right|done].
        -- exfalso. destruct H0 as [Hin Hn]. apply elem_of_cons in Hin as [->|Hin]; [done|].
           apply H. by split.
Qed.

Lemma cover_bits mask nd old :
  0 <= mask < 2 ^ 32 ->
  bits_in mask (Z.lor nd (Z.lor old (Z.land mask (u32 (Z.lnot nd))))).
Proof.
  intros Hm. unfold bits_in. apply Z.bits_inj'. intros i Hi.
  rewrite Z.land_spec, !Z.lor_spec, Z.land_spec, testbit_u32, Z.lnot_spec by done.
  destruct (Z.ltb_spec i 32) as [Hlt|Hge].
  - by destruct (Z.testbit mask i), (Z.testbit nd i), (Z.testbit old i).
  - rewrite (testbit_small mask i 32) by lia. by rewrite !andb_false_r.
Qed.

Lemma putWay_eq w id nds :
  mb_ok (wayWorker.Nodes w) ->
  wayWorker.putWay w id nds =
    (ways ← MultiBlock.Append (wayWorker.Ways w) id (way_mask (wayWorker.Nodes w) nds);
     Ok {| wayWorker.Ways := ways;
           wayWorker.ExtraNodes :=
             fold_left (wayWorker.record_extra (way_mask (wayWorker.Nodes w) nds))
                       (zip nds (mget (wayWorker.Nodes w) <$> nds)) (wayWorker.ExtraNodes w);
           wayWorker.Id := wayWorker.Id w; wayWorker.Nodes := wayWorker.Nodes w |}).
Proof.
  intros Hok. unfold wayWorker.putWay. by rewrite lookup_masks_spec.
Qed.

(* One putWay on well-formed MultiBlocks: it returns, and the values of
   the Ways MultiBlock only gain bits. *)
Lemma putWay_step w id nds :
  mb_ok (wayWorker.Nodes w) -> mb_ok (wayWorker.Ways w) ->
  LastId (wayWorker.Ways w) <= id < 2 ^ 63 ->
  exists w', wayWorker.putWay w id nds = Ok w' /\
    mb_ok (wayWorker.Ways w') /\ LastId (wayWorker.Ways w') = id /\
    wayWorker.Nodes w' = wayWorker.Nodes w /\
    MultiBlock.Append (wayWorker.Ways w) id (way_mask (wayWorker.Nodes w) nds)
      = Ok (wayWorker.Ways w') /\
    bits_in (way_mask (wayWorker.Nodes w) nds) (mget (wayWorker.Ways w') id) /\
    forall k, bits_in (mget (wayWorker.Ways w) k) (mget (wayWorker.Ways w') k).
Proof.
  intros Hok Hwok Hid. rewrite (putWay_eq w id nds Hok).
  pose proof (way_mask_range _ nds Hok) as Hr.
  destruct (MAppend_spec (wayWorker.Ways w) id (way_mask (wayWorker.Nodes w) nds) Hwok)
    as (m' & E & Hok' & HId & HVal & Hkeep); [lia|lia|].
  rewrite E. rsimpl. eexists. split; [done|]. cbn [wayWorker.Ways wayWorker.Nodes].
  split; [done|]. split; [done|]. split; [done|]. split; [done|].
  assert (mget m' id = LastVal m') as Hid' by (unfold mget; by rewrite HId, Z.eqb_refl).
  split.
  - rewrite Hid', HVal. destruct (_ =? _); [apply bits_in_lor_r|apply bits_in_refl].
  - intros k. destruct (Z.eq_dec k id) as [->|Hne]; [|rewrite Hkeep by done; apply bits_in_refl].
    rewrite Hid', HVal. destruct (Z.eqb_spec id (LastId (wayWorker.Ways w))) as [->|Hne].
    + unfold mget at 1. rewrite Z.eqb_refl. apply bits_in_lor_l.
    + rewrite mget_above by (done || lia). apply bits_in_0.
Qed.

Section WayWorker.

Context (range_order : gmap Z Block -> list (Z * Block)).

Context (range_perm : range_complete range_order).

(** X16.  When putWay(id, nds) returns on a worker whose node index is a
    reachable MultiBlock, it has appended (id, mask) to Ways, where mask,
    below 2^16, is the union of the nodes' Lookup values: it contains each
    of them and has no other bit.  Afterwards every node of the way is
    covered: its Lookup value together with its extra-nodes entry contains
    mask.  The extra-nodes entries of nodes that are not in the way, or
    whose Lookup value is mask already, are as before; the node index is
    untouched. *)
Theorem putWay_covers (w w' : wayWorker.t) (id : Z) (nds : list Z) :
  reachable range_order (wayWorker.Nodes w) ->
  wayWorker.putWay w id nds = Ok w' ->
  exists mask,
    0 <= mask < 65536 /\
    MultiBlock.Append (wayWorker.Ways w) id mask = Ok (wayWorker.Ways w') /\
    wayWorker.Nodes w' = wayWorker.Nodes w /\
    (forall n, n ∈ nds ->
       exists v, MultiBlock.Lookup (wayWorker.Nodes w) n = Ok v /\ bits_in v mask /\
         bits_in mask (Z.lor v (default 0 (wayWorker.ExtraNodes w' !! n)))) /\
    (forall i, Z.testbit mask i = true ->
       exists n v, n ∈ nds /\ MultiBlock.Lookup (wayWorker.Nodes w) n = Ok v /\
                   Z.testbit v i = true) /\
    (forall n, n ∉ nds -> wayWorker.ExtraNodes w' !! n = wayWorker.ExtraNodes w !! n) /\
    (forall n, MultiBlock.Lookup (wayWorker.Nodes w) n = Ok mask ->
       wayWorker.ExtraNodes w' !! n = wayWorker.ExtraNodes w !! n).
Proof.
  intros Hn E. pose proof (reachable_ok range_order range_perm _ Hn) as Hok.
  rewrite (putWay_eq w id nds Hok) in E.
  set (mask := way_mask (wayWorker.Nodes w) nds) in *.
  destruct (MultiBlock.Append (wayWorker.Ways w) id mask) as [ways| |] eqn:Ea; [|done..].
  injection E as <-. cbn [wayWorker.Ways wayWorker.Nodes wayWorker.ExtraNodes].
  pose proof (way_mask_range _ nds Hok) as Hr. fold mask in Hr.
  exists mask. split; [done|]. split; [done|]. split; [done|].
  split; [|split; [|split]].
  - intros n Hin. exists (mget (wayWorker.Nodes w) n).
    split; [by apply MLookup_mget|]. split; [by apply way_mask_sub|].
    rewrite (record_extra_fold mask (mget (wayWorker.Nodes w))).
    case_decide as Hd; cbn [default].
    + apply cover_bits. lia.
    + assert (mget (wayWorker.Nodes w) n = mask) as ->.
      { destruct (Z.eq_dec (mget (wayWorker.Nodes w) n) mask); [done|].
        exfalso. apply Hd. by split. }
      apply bits_in_lor_l.
  - intros i Hi. destruct (way_mask_bit _ _ _ Hi) as (n & Hin & Hb).
    exists n, (mget (wayWorker.Nodes w) n). split; [done|].
    split; [by apply MLookup_mget|done].
  - intros n Hnin. rewrite (record_extra_fold mask (mget (wayWorker.Nodes w))).
    case_decide as Hd; [|done]. by destruct Hd.
  - intros n Hl. rewrite MLookup_mget in Hl by done. injection Hl as Hl.
    rewrite (record_extra_fold mask (mget (wayWorker.Nodes w))).
    case_decide as Hd; [|done]. by destruct Hd.
Qed.

(** X17.  On a worker whose node index and Ways are reachable MultiBlocks,
    putWay(id, nds) panics exactly when id is below the last way id
    appended; otherwise it returns, for any list of node ids: the mask it
    builds is within BLOCK_VAL_MASK, and no Lookup panics. *)
Theorem putWay_outcome (w : wayWorker.t) (id : Z) (nds : list Z) :
  reachable range_order (wayWorker.Nodes w) ->
  reachable range_order (wayWorker.Ways w) ->
  id < 2 ^ 63 ->
  (id < LastId (wayWorker.Ways w) ->
   wayWorker.putWay w id nds = Panic (IdOutOfOrder id (LastId (wayWorker.Ways w)))) /\
  (LastId (wayWorker.Ways w) <= id ->
   exists w', wayWorker.putWay w id nds = Ok w' /\
     reachable range_order (wayWorker.Ways w') /\ LastId (wayWorker.Ways w') = id).
Proof.
  intros Hn Hw Hid. pose proof (reachable_ok range_order range_perm _ Hn) as Hok.
  pose proof (reachable_ok range_order range_perm _ Hw) as Hwok.
  rewrite (putWay_eq w id nds Hok).
  pose proof (way_mask_range _ nds Hok) as Hr.
  split.
  - intros Hlt. unfold MultiBlock.Append.
    by assert ((id <? LastId (wayWorker.Ways w)) = true) as -> by (apply Z.ltb_lt; lia).
  - intros Hle.
    destruct (MAppend_spec (wayWorker.Ways w) id (way_mask (wayWorker.Nodes w) nds) Hwok)
      as (m' & E & _ & HId & _); [lia|lia|].
    rewrite E. rsimpl. eexists. split; [done|]. cbn [wayWorker.Ways]. split; [|done].
    destruct Hwok as (_ & _ & _ & HL & _).
    apply (reach_append _ (wayWorker.Ways w) id (way_mask (wayWorker.Nodes w) nds));
      [done|lia|lia|done].
Qed.

End WayWorker.

Lemma sample_worker_putWay :
  exists w', wayWorker.putWay (S5_worker sample_X) 100 [5; 6] = Ok w'.
Proof.
  destruct (putWay_step (S5_worker sample_X) 100 [5; 6]) as (w' & E & _).
  - apply (reachable_ok _ map_to_list_complete _ sample_X_reachable).
  - apply mb_ok_New.
  - cbn. lia.
  - by exists w'.
Qed.

Lemma putWay_covers_witness :
  exists w' mask v,
    wayWorker.putWay (S5_worker sample_X) 100 [5; 6] = Ok w' /\
    MultiBlock.Append NewMultiBlock 100 mask = Ok (wayWorker.Ways w') /\
    MultiBlock.Lookup sample_X 6 = Ok v /\
    bits_in mask (Z.lor v (default 0 (wayWorker.ExtraNodes w' !! 6))).
Proof.
  destruct sample_worker_putWay as (w' & E).
  destruct (putWay_covers map_to_list map_to_list_complete (S5_worker sample_X) w' 100 [5; 6]
              sample_X_reachable E) as (mask & _ & Ea & _ & Hc & _).
  destruct (Hc 6) as (v & Hv & _ & Hcov).
  - apply list_elem_of_further, list_elem_of_here.
  - exists w', mask, v. split; [exact E|]. split; [exact Ea|]. split; [exact Hv|exact Hcov].
Defined.

Lemma putWay_outcome_witness :
  exists w', wayWorker.putWay (S5_worker sample_X) 100 [5; 6] = Ok w' /\
    LastId (wayWorker.Ways w') = 100.
Proof.
  destruct (putWay_outcome map_to_list map_to_list_complete (S5_worker sample_X) 100 [5; 6]
              sample_X_reachable (reach_new _)) as [_ H]; [lia|].
  destruct H as (w' & E & _ & HId); [cbn; lia|].
  exists w'. split; [exact E|exact HId].
Defined.

Lemma processWayRequest_flat w b :
  processWayRequest w b =
  foldM (fun w way => wayWorker.putWay w (Way_Id way) (Way_Refs way)) w (ways_of b).
Proof.
  unfold processWayRequest, ways_of. revert w.
  induction (Primitivegroup b) as [|g gs IH]; intros w; [done|].
  cbn [foldM fmap list_fmap mjoin list_join]. rewrite foldM_app.
  destruct (foldM _ w (Ways g)) as [w1| |]; [|done..]. rsimpl. apply IH.
Qed.

Lemma putWays_spec ways :
  forall w,
  mb_ok (wayWorker.Nodes w) -> mb_ok (wayWorker.Ways w) ->
  StronglySorted Z.le (Way_Id <$> ways) ->
  Forall (fun way => LastId (wayWorker.Ways w) <= Way_Id way < 2 ^ 63) ways ->
  exists w',
    foldM (fun w way => wayWorker.putWay w (Way_Id way) (Way_Refs way)) w ways = Ok w' /\
    wayWorker.Nodes w' = wayWorker.Nodes w /\ mb_ok (wayWorker.Ways w') /\
    (forall k, bits_in (mget (wayWorker.Ways w) k) (mget (wayWorker.Ways w') k)) /\
    Forall (fun way => bits_in (way_mask (wayWorker.Nodes w) (Way_Refs way))
                               (mget (wayWorker.Ways w') (Way_Id way))) ways.
Proof.
  induction ways as [|way ways IH]; intros w Hn Hw Hs Hr.
  - exists w. split; [done|]. split; [done|]. split; [done|].
    split; [intros k; apply bits_in_refl|constructor].
  - cbn [fmap list_fmap] in Hs. apply StronglySorted_inv in Hs as [Hs Hle].
    apply Forall_cons in Hr as [Hr0 Hr].
    destruct (putWay_step w (Way_Id way) (Way_Refs way) Hn Hw Hr0)
      as (w1 & E1 & Hw1 & HId1 & HN1 & _ & Hm1 & Hmono1).
    destruct (IH w1) as (w' & E' & HN' & Hw' & Hmono' & Hall').
    { by rewrite HN1. }
    { done. }
    { done. }
    { rewrite HId1. apply Forall_forall. intros way' Hin.
      rewrite Forall_forall in Hr. destruct (Hr way' Hin) as [_ Hlt].
      rewrite Forall_forall in Hle.
      assert (Way_Id way <= Way_Id way') by (by apply Hle, list_elem_of_fmap_2).
      lia. }
    exists w'. cbn [foldM]. rewrite E1. rsimpl. split; [exact E'|].
    split; [by rewrite HN', HN1|]. split; [done|]. split.
    + intros k. eapply bits_in_trans; [apply Hmono1|apply Hmono'].
    + constructor.
      * eapply bits_in_trans; [apply Hm1|apply Hmono'].
      * rewrite HN1 in Hall'. exact Hall'.
Qed.

Section WayRequests.

Context (range_order : gmap Z Block -> list (Z * Block)).

Context (range_perm : range_complete range_order).

(** X18.  processWayRequest on a worker whose node index and Ways are
    reachable MultiBlocks, given a block whose way ids, group after group,
    never go down and start at or above the last way id appended, returns
    without a panic and leaves the node index as it was.  Afterwards, for
    every way of the block and every node it refers to, the value Ways holds
    for the way contains the value the node index holds for the node. *)
Theorem processWayRequest_records (w : wayWorker.t) (b : PrimitiveBlock) :
  reachable range_order (wayWorker.Nodes w) ->
  reachable range_order (wayWorker.Ways w) ->
  StronglySorted Z.le (Way_Id <$> ways_of b) ->
  Forall (fun way => LastId (wayWorker.Ways w) <= Way_Id way < 2 ^ 63) (ways_of b) ->
  exists w', processWayRequest w b = Ok w' /\
    wayWorker.Nodes w' = wayWorker.Nodes w /\
    forall way n, way ∈ ways_of b -> n ∈ Way_Refs way ->
      exists vw vn,
        MultiBlock.Lookup (wayWorker.Ways w') (Way_Id way) = Ok vw /\
        MultiBlock.Lookup (wayWorker.Nodes w) n = Ok vn /\
        bits_in vn vw.
Proof.
  intros Hn Hw Hs Hr.
  pose proof (reachable_ok range_order range_perm _ Hn) as Hnok.
  pose proof (reachable_ok range_order range_perm _ Hw) as Hwok.
  destruct (putWays_spec (ways_of b) w Hnok Hwok Hs Hr) as (w' & E & HN & Hw' & _ & Hall).
  exists w'. split; [by rewrite processWayRequest_flat|]. split; [done|].
  intros way n Hway Hin. rewrite Forall_forall in Hall. specialize (Hall way Hway).
  exists (mget (wayWorker.Ways w') (Way_Id way)), (mget (wayWorker.Nodes w) n).
  split; [by apply MLookup_mget|]. split; [by apply MLookup_mget|].
  eapply bits_in_trans; [|exact Hall]. by apply way_mask_sub.
Qed.

End WayRequests.

Lemma processWayRequest_records_witness :
  exists w' vw vn,
    processWayRequest (S5_worker sample_X) two_ways = Ok w' /\
    MultiBlock.Lookup (wayWorker.Ways w') 101 = Ok vw /\
    MultiBlock.Lookup sample_X 5 = Ok vn /\ bits_in vn vw.
Proof.
  destruct (processWayRequest_records map_to_list map_to_list_complete
              (S5_worker sample_X) two_ways sample_X_reachable (reach_new _))
    as (w' & E & _ & H).
  - cbn. repeat constructor; lia.
  - cbn. repeat constructor; cbn [Way_Id]; lia.
  - destruct (H {| Way_Id := 101; Way_Refs := [5] |} 5) as (vw & vn & Hw & Hn & Hb).
    + cbn. apply list_elem_of_further, list_elem_of_here.
    + apply list_elem_of_here.
    + exists w', vw, vn. split; [exact E|]. split; [exact Hw|]. split; [exact Hn|exact Hb].
Defined.

(** ** The reader's split and the Sorter's entry *)

Lemma primCount_from gs n w r :
  fold_left (fun '(nodes, ways, rels) g =>
               (nodes + (Z.of_nat (length (Nodes g)) + Z.of_nat (length (Dense_Id (Dense g)))),
                ways + Z.of_nat (length (Ways g)),
                rels + Z.of_nat (length (Relations g))))
            gs (n, w, r)
  = (n + count_nodes gs, w + count_ways gs, r + count_rels gs).
Proof.
  revert n w r. induction gs as [|g gs IH]; intros n w r.
  - unfold count_nodes, count_ways, count_rels. cbn [fold_left sum_list_with].
    change (Z.of_nat 0) with 0. by rewrite !Z.add_0_r.
  - cbn [fold_left]. rewrite IH. unfold count_nodes, count_ways, count_rels.
    cbn [sum_list_with]. f_equal; [f_equal|]; lia.
Qed.

Lemma primCount_counts p :
  primCount p = (count_nodes (Primitivegroup p), count_ways (Primitivegroup p),
                 count_rels (Primitivegroup p)).
Proof. unfold primCount. by rewrite primCount_from. Qed.

Lemma count_nonneg gs : 0 <= count_nodes gs /\ 0 <= count_ways gs /\ 0 <= count_rels gs.
Proof. unfold count_nodes, count_ways, count_rels. lia. Qed.

Lemma count_app gs1 gs2 :
  count_nodes (gs1 ++ gs2) = count_nodes gs1 + count_nodes gs2 /\
  count_ways (gs1 ++ gs2) = count_ways gs1 + count_ways gs2 /\
  count_rels (gs1 ++ gs2) = count_rels gs1 + count_rels gs2.
Proof.
  unfold count_nodes, count_ways, count_rels. rewrite !sum_list_with_app. lia.
Qed.

Lemma node_groups_counts gs :
  count_nodes (node_groups gs) = count_nodes gs /\
  count_ways (node_groups gs) = 0 /\ count_rels (node_groups gs) = 0.
Proof.
  induction gs as [|g gs (IH1 & IH2 & IH3)]; [done|].
  change (node_groups (g :: gs)) with (node_parts g ++ node_groups gs).
  destruct (count_app (node_parts g) (node_groups gs)) as (-> & -> & ->).
  rewrite IH1, IH2, IH3.
  unfold count_nodes, count_ways, count_rels, node_parts. cbn [sum_list_with].
  destruct (Nat.ltb_spec 0 (length (Nodes g))), (Nat.ltb_spec 0 (length (Dense_Id (Dense g))));
    cbn; lia.
Qed.

Lemma way_groups_counts gs :
  count_nodes (way_groups gs) = 0 /\
  count_ways (way_groups gs) = count_ways gs /\ count_rels (way_groups gs) = 0.
Proof.
  induction gs as [|g gs (IH1 & IH2 & IH3)]; [done|].
  change (way_groups (g :: gs)) with (way_parts g ++ way_groups gs).
  destruct (count_app (way_parts g) (way_groups gs)) as (-> & -> & ->).
  rewrite IH1, IH2, IH3.
  unfold count_nodes, count_ways, count_rels, way_parts. cbn [sum_list_with].
  destruct (Nat.ltb_spec 0 (length (Ways g))); cbn; lia.
Qed.

Lemma rel_groups_counts gs :
  count_nodes (rel_groups gs) = 0 /\
  count_ways (rel_groups gs) = 0 /\ count_rels (rel_groups gs) = count_rels gs.
Proof.
  induction gs as [|g gs (IH1 & IH2 & IH3)]; [done|].
  change (rel_groups (g :: gs)) with (rel_parts g ++ rel_groups gs).
  destruct (count_app (rel_parts g) (rel_groups gs)) as (-> & -> & ->).
  rewrite IH1, IH2, IH3.
  unfold count_nodes, count_ways, count_rels, rel_parts. cbn [sum_list_with].
  destruct (Nat.ltb_spec 0 (length (Relations g))); cbn; lia.
Qed.

(* The loops of primBlockSplit build these lists of groups. *)
Lemma split_loop_nodes gs acc :
  fold_left (fun gs g =>
               let gs := if (0 <? length (Nodes g))%nat
                         then gs ++ [group_Nodes (Nodes g)] else gs in
               if (0 <? length (Dense_Id (Dense g)))%nat
               then gs ++ [group_Dense (Dense g)] else gs)
            gs acc
  = acc ++ node_groups gs.
Proof.
  revert acc. induction gs as [|g gs IH]; intros acc; [by rewrite app_nil_r|].
  cbn [fold_left]. rewrite IH.
  change (node_groups (g :: gs)) with (node_parts g ++ node_groups gs).
  unfold node_parts.
  destruct (0 <? length (Nodes g))%nat, (0 <? length (Dense_Id (Dense g)))%nat;
    cbn [app]; by rewrite <- ?app_assoc.
Qed.

Lemma split_loop_ways gs acc :
  fold_left (fun gs g => if (0 <? length (Ways g))%nat
                         then gs ++ [group_Ways (Ways g)] else gs) gs acc
  = acc ++ way_groups gs.
Proof.
  revert acc. induction gs as [|g gs IH]; intros acc; [by rewrite app_nil_r|].
  cbn [fold_left]. rewrite IH.
  change (way_groups (g :: gs)) with (way_parts g ++ way_groups gs).
  unfold way_parts.
  destruct (0 <? length (Ways g))%nat; cbn [app]; by rewrite <- ?app_assoc.
Qed.

Lemma split_loop_rels gs acc :
  fold_left (fun gs g => if (0 <? length (Relations g))%nat
                         then gs ++ [group_Relations (Relations g)] else gs) gs acc
  = acc ++ rel_groups gs.
Proof.
  revert acc. induction gs as [|g gs IH]; intros acc; [by rewrite app_nil_r|].
  cbn [fold_left]. rewrite IH.
  change (rel_groups (g :: gs)) with (rel_parts g ++ rel_groups gs).
  unfold rel_parts.
  destruct (0 <? length (Relations g))%nat; cbn [app]; by rewrite <- ?app_assoc.
Qed.

Lemma primBlockSplit_eq p :
  primBlockSplit p =
  ((if 0 <? count_nodes (Primitivegroup p)
    then Some {| Primitivegroup := node_groups (Primitivegroup p) |} else None),
   (if 0 <? count_ways (Primitivegroup p)
    then Some {| Primitivegroup := way_groups (Primitivegroup p) |} else None),
   (if 0 <? count_rels (Primitivegroup p)
    then Some {| Primitivegroup := rel_groups (Primitivegroup p) |} else None)).
Proof.
  unfold primBlockSplit. rewrite primCount_counts.
  by rewrite split_loop_nodes, split_loop_ways, split_loop_rels.
Qed.

Lemma way_groups_ways gs : mjoin (Ways <$> way_groups gs) = mjoin (Ways <$> gs).
Proof.
  induction gs as [|g gs IH]; [done|].
  change (way_groups (g :: gs)) with (way_parts g ++ way_groups gs).
  rewrite fmap_app, join_app, IH. cbn [fmap list_fmap mjoin list_join]. f_equal.
  unfold way_parts.
  destruct (Nat.ltb_spec 0 (length (Ways g))) as [H|H]; cbn.
  - by rewrite app_nil_r.
  - destruct (Ways g); [done|cbn in H; lia].
Qed.

Lemma primitiveBlockKind_counts p :
  primitiveBlockKind p =
  let n := count_nodes (Primitivegroup p) in
  let w := count_ways (Primitivegroup p) in
  let r := count_rels (Primitivegroup p) in
  if 0 <? n then
    if (0 <? w) || (0 <? r) then Panic (NodesWithOthers n w r) else Ok PKIND_NODE
  else if 0 <? w then
    if 0 <? r then Panic (WaysWithRelations w r) else Ok PKIND_WAY
  else Ok PKIND_REL.
Proof. unfold primitiveBlockKind. by rewrite primCount_counts. Qed.

Lemma kind_of_node_groups gs :
  0 < count_nodes gs -> primitiveBlockKind {| Primitivegroup := node_groups gs |} = Ok PKIND_NODE.
Proof.
  intros H. rewrite primitiveBlockKind_counts. cbn [Primitivegroup].
  destruct (node_groups_counts gs) as (-> & -> & ->). cbv zeta.
  by assert ((0 <? count_nodes gs) = true) as -> by (apply Z.ltb_lt; lia).
Qed.

Lemma kind_of_way_groups gs :
  0 < count_ways gs -> primitiveBlockKind {| Primitivegroup := way_groups gs |} = Ok PKIND_WAY.
Proof.
  intros H. rewrite primitiveBlockKind_counts. cbn [Primitivegroup].
  destruct (way_groups_counts gs) as (-> & -> & ->). cbv zeta.
  by assert ((0 <? count_ways gs) = true) as -> by (apply Z.ltb_lt; lia).
Qed.

Lemma kind_of_rel_groups gs :
  primitiveBlockKind {| Primitivegroup := rel_groups gs |} = Ok PKIND_REL.
Proof.
  rewrite primitiveBlockKind_counts. cbn [Primitivegroup].
  by destruct (rel_groups_counts gs) as (-> & -> & ->).
Qed.

(** X19.  primBlockSplit returns a nodes block exactly when the block has
    nodes (plain or dense), a ways block exactly when it has ways and a
    relations block exactly when it has relations; each block it returns
    holds primitives of its own kind only, as many as the original holds of
    that kind, and the ways block holds the original's ways in their order. *)
Theorem primBlockSplit_parts (p : PrimitiveBlock) (n w r : Z)
    (nodes ways rels : option PrimitiveBlock) :
  primCount p = (n, w, r) ->
  primBlockSplit p = (nodes, ways, rels) ->
  match nodes with
  | Some pn => 0 < n /\ primCount pn = (n, 0, 0)
  | None => n = 0
  end /\
  match ways with
  | Some pw => 0 < w /\ primCount pw = (0, w, 0) /\ ways_of pw = ways_of p
  | None => w = 0
  end /\
  match rels with
  | Some pr => 0 < r /\ primCount pr = (0, 0, r)
  | None => r = 0
  end.
Proof.
  rewrite primCount_counts, primBlockSplit_eq. intros [= <- <- <-] [= <- <- <-].
  destruct (count_nonneg (Primitivegroup p)) as (Hn & Hw & Hr).
  split; [|split].
  - destruct (Z.ltb_spec 0 (count_nodes (Primitivegroup p))); [|lia].
    split; [done|]. rewrite primCount_counts. cbn [Primitivegroup].
    by destruct (node_groups_counts (Primitivegroup p)) as (-> & -> & ->).
  - destruct (Z.ltb_spec 0 (count_ways (Primitivegroup p))); [|lia].
    split; [done|]. split.
    + rewrite primCount_counts. cbn [Primitivegroup].
      by destruct (way_groups_counts (Primitivegroup p)) as (-> & -> & ->).
    + unfold ways_of. cbn [Primitivegroup]. apply way_groups_ways.
  - destruct (Z.ltb_spec 0 (count_rels (Primitivegroup p))); [|lia].
    split; [done|]. rewrite primCount_counts. cbn [Primitivegroup].
    by destruct (rel_groups_counts (Primitivegroup p)) as (-> & -> & ->).
Qed.

Lemma primBlockSplit_parts_witness :
  exists pn pw,
    primBlockSplit mixed_block = (Some pn, Some pw, None) /\
    primCount pn = (1, 0, 0) /\ primCount pw = (0, 1, 0).
Proof.
  pose proof (primBlockSplit_parts mixed_block 1 1 0 _ _ _ eq_refl eq_refl) as (H1 & H2 & _).
  eexists _, _. split; [reflexivity|]. split; [apply H1|apply H2].
Defined.

(** X20.  Every block that readDataBlock sends holds one kind of
    primitive: primitiveBlockKind returns a kind for it and does not raise
    its mixed-block panic.  The blocks are sent in strictly ascending order
    of kind (nodes, ways, relations), and together they hold as many nodes,
    ways and relations as the block read. *)
Theorem readDataBlock_sends_single_kind (block : PrimitiveBlock) :
  (exists kinds,
     Forall2 (fun p k => primitiveBlockKind p = Ok k) (readDataBlock_sends block) kinds /\
     StronglySorted Z.lt kinds) /\
  total_count (readDataBlock_sends block) = primCount block.
Proof.
  unfold readDataBlock_sends. rewrite primBlockSplit_eq, primCount_counts.
  destruct (count_nonneg (Primitivegroup block)) as (Hn & Hw & Hr).
  pose proof (kind_of_node_groups (Primitivegroup block)) as Kn.
  pose proof (kind_of_way_groups (Primitivegroup block)) as Kw.
  pose proof (kind_of_rel_groups (Primitivegroup block)) as Kr.
  pose proof (primitiveBlockKind_counts block) as Kb. cbv zeta in Kb.
  destruct (node_groups_counts (Primitivegroup block)) as (Nn & Nw & Nr).
  destruct (way_groups_counts (Primitivegroup block)) as (Wn & Ww & Wr).
  destruct (rel_groups_counts (Primitivegroup block)) as (Rn & Rw & Rr).
  unfold total_count.
  destruct (Z.ltb_spec 0 (count_nodes (Primitivegroup block))) as [Pn|Zn];
  destruct (Z.ltb_spec 0 (count_ways (Primitivegroup block))) as [Pw|Zw];
  destruct (Z.ltb_spec 0 (count_rels (Primitivegroup block))) as [Pr|Zr];
    cbn -[primCount count_nodes count_ways count_rels node_groups way_groups rel_groups
          primitiveBlockKind] in *;
    repeat match goal with
           | |- context [?c <=? 1] =>
             let b := eval vm_compute in (c <=? 1) in change (c <=? 1) with b
           end;
    cbn [foldr];
    rewrite ?primCount_counts; cbn [Primitivegroup];
    rewrite ?Nn, ?Nw, ?Nr, ?Wn, ?Ww, ?Wr, ?Rn, ?Rw, ?Rr;
    (split; [|f_equal; [f_equal|]; lia]).
  - exists [PKIND_NODE; PKIND_WAY; PKIND_REL].
    split; [repeat constructor; auto|]. repeat constructor; done.
  - exists [PKIND_NODE; PKIND_WAY].
    split; [repeat constructor; auto|]. repeat constructor; done.
  - exists [PKIND_NODE; PKIND_REL].
    split; [repeat constructor; auto|]. repeat constructor; done.
  - exists [PKIND_NODE]. split; [repeat constructor; auto|]. repeat constructor.
  - exists [PKIND_WAY; PKIND_REL].
    split; [repeat constructor; auto|]. repeat constructor; done.
  - exists [PKIND_WAY]. split; [repeat constructor; auto|]. repeat constructor.
  - exists [PKIND_REL]. split; [repeat constructor; auto|]. repeat constructor.
  - exists [PKIND_REL]. split; [repeat constructor; auto|]. repeat constructor.
Qed.

(** ** The Sorter over a run of blocks *)

Lemma primitiveBlockKind_range p k :
  primitiveBlockKind p = Ok k -> k = PKIND_NODE \/ k = PKIND_WAY \/ k = PKIND_REL.
Proof.
  rewrite primitiveBlockKind_counts. cbv zeta.
  repeat destruct (_ <? _); cbn [orb]; intros [= <-]; auto.
Qed.

Lemma Sorter_Append_inv s p s' r :
  Sorter.Append s p = Ok (s', r) ->
  exists kind, primitiveBlockKind p = Ok kind /\
    ((kind < Sorter.lastKind s /\ s' = s /\ r = Some (KindOutOfOrder kind (Sorter.lastKind s))) \/
     (Sorter.lastKind s <= kind /\ r = None /\ Sorter.lastKind s' = kind /\
      Sorter.actions s' =
        Sorter.actions s
        ++ (if kind =? Sorter.lastKind s then []
            else (if Sorter.lastKind s =? PKIND_NODE then [CollectNodes] else [])
                 ++ (if kind =? PKIND_WAY then [StartWaysWorkers] else [])
                 ++ (if Sorter.lastKind s =? PKIND_WAY then [CollectWays] else []))
        ++ (if kind =? PKIND_REL then [] else [Dispatch p]))).
Proof.
  unfold Sorter.Append. destruct (primitiveBlockKind p) as [kind| |]; [|done..]. rsimpl.
  intros H. exists kind. split; [done|].
  destruct (Z.eqb_spec kind (Sorter.lastKind s)) as [Ek|Nk]; cbn [negb andb] in H.
  - right. destruct (Z.eqb_spec kind PKIND_REL); cbn [negb] in H; injection H as <- <-;
      cbn [Sorter.lastKind Sorter.actions]; (split; [lia|]); (split; [done|]);
      (split; [done|]); by rewrite ?app_nil_r.
  - destruct (Z.ltb_spec kind (Sorter.lastKind s)).
    + left. by injection H as <- <-.
    + right. destruct (Z.eqb_spec kind PKIND_REL); cbn [negb] in H; injection H as <- <-;
        cbn [Sorter.lastKind Sorter.actions]; (split; [lia|]); (split; [done|]);
        (split; [done|]); by rewrite <- ?app_assoc, ?app_nil_r.
Qed.

Lemma phase_log_step s p s' r :
  phase_log (Sorter.lastKind s) (Sorter.actions s) ->
  Sorter.Append s p = Ok (s', r) ->
  phase_log (Sorter.lastKind s') (Sorter.actions s').
Proof.
  intros Hlog E. destruct (Sorter_Append_inv s p s' r E) as (kind & Hk & [H|H]).
  { destruct H as (_ & Hs & _). by rewrite Hs. }
  destruct H as (Hle & _ & HK & ->). rewrite HK.
  assert (dispatch_of kind (Dispatch p)) as Hd by (by exists p).
  destruct (primitiveBlockKind_range p kind Hk) as [-> | [-> | ->]];
    inversion Hlog as [ns Hns Hk0 Ha|ns ws Hns Hws Hk0 Ha|ns Hns Hk0 Ha|ns ws Hns Hws Hk0 Ha];
    rewrite <- Hk0 in *; try (exfalso; unfold PKIND_NODE, PKIND_WAY, PKIND_REL in *; lia);
    cbn [Z.eqb PKIND_NODE PKIND_WAY PKIND_REL Pos.eqb app]; rewrite ?app_nil_r.
  - apply log_nodes. apply Forall_app. split; [done|by constructor].
  - replace (ns ++ [CollectNodes; StartWaysWorkers; Dispatch p])
      with (ns ++ [CollectNodes; StartWaysWorkers] ++ [Dispatch p]) by done.
    apply log_ways; [done|by constructor].
  - rewrite <- !app_assoc. cbn [app].
    replace (ns ++ CollectNodes :: StartWaysWorkers :: ws ++ [Dispatch p])
      with (ns ++ [CollectNodes; StartWaysWorkers] ++ (ws ++ [Dispatch p])) by done.
    apply log_ways; [done|]. apply Forall_app. split; [done|by constructor].
  - by apply log_rels_after_nodes.
  - rewrite <- !app_assoc. cbn [app].
    by apply (log_rels_after_ways ns ws).
  - by apply log_rels_after_nodes.
  - by apply (log_rels_after_ways ns ws).
Qed.

(* The loop of FirstPass from any state of its two variables. *)
Lemma FirstPass_from {E} (received : list (BlockOrError E)) :
  forall sorter err r,
  foldM (fun '(sorter, err) block_or_error =>
           match block_or_error with
           | Err e => Ok (sorter, Some e)
           | Primitives p =>
             match err with
             | None => '(sorter', _) ← Sorter.Append sorter p; Ok (sorter', err)
             | Some _ => Ok (sorter, err)
             end
           end)
        (sorter, err) received = Ok r ->
  r.2 = from_option Some err (last (read_errors received)) /\
  (is_Some err -> r.1 = sorter) /\
  (phase_log (Sorter.lastKind sorter) (Sorter.actions sorter) ->
   phase_log (Sorter.lastKind r.1) (Sorter.actions r.1)).
Proof.
  induction received as [|x received IH]; intros sorter err r H.
  - injection H as <-. done.
  - cbn [foldM] in H. destruct x as [p|e].
    + destruct err as [e0|].
      * cbn [mbind res_bind mret res_ret] in H. destruct (IH _ _ _ H) as (H1 & H2 & H3).
        split; [done|]. split; [intros _; apply H2; eauto|done].
      * destruct (Sorter.Append sorter p) as [[s1 r1]| |] eqn:Ea; [|done..].
        cbn [mbind res_bind mret res_ret] in H. destruct (IH _ _ _ H) as (H1 & H2 & H3).
        split; [done|]. split; [by intros [? ?]|].
        intros Hlog. apply H3. by apply (phase_log_step sorter p s1 r1).
    + cbn [mbind res_bind mret res_ret] in H. destruct (IH _ _ _ H) as (H1 & H2 & H3).
      split.
      * rewrite H1. unfold read_errors. cbn [omap list_omap].
        fold (read_errors received).
        destruct (read_errors received) as [|e1 l1] eqn:El; [done|].
        rewrite last_cons_cons. destruct (last (e1 :: l1)) eqn:EL; [done|].
        by apply last_None in EL.
      * split; [intros _; apply H2; eauto|done].
Qed.

(** X21.  The loop of FirstPass never reports an error of Sorter.Append:
    the error it ends with is the last error the reader sent, and none when
    the reader sent none.  A block that Sorter.Append rejects for its kind
    is skipped, the loop going on as if it had not been received; and once
    the reader has sent an error, the Sorter is left as it is, whatever is
    received afterwards. *)
Theorem FirstPass_loop_errors {E} (sorter : Sorter.t) (received : list (BlockOrError E)) :
  (forall sorter' err,
     FirstPass_loop sorter received = Ok (sorter', err) ->
     err = last (read_errors received)) /\
  (forall p e,
     Sorter.Append sorter p = Ok (sorter, Some e) ->
     FirstPass_loop sorter (Primitives p :: received) = FirstPass_loop sorter received) /\
  (forall e sorter' err,
     FirstPass_loop sorter (Err e :: received) = Ok (sorter', err) ->
     sorter' = sorter /\ is_Some err).
Proof.
  split; [|split].
  - intros sorter' err H. unfold FirstPass_loop in H.
    destruct (FirstPass_from received sorter None _ H) as (H1 & _).
    cbn [snd] in H1. rewrite H1. by destruct (last _).
  - intros p e H. unfold FirstPass_loop. cbn [foldM]. by rewrite H.
  - intros e sorter' err H. unfold FirstPass_loop in H. cbn [foldM] in H. cbn [mbind res_bind mret res_ret] in H.
    destruct (FirstPass_from received sorter (Some e) _ H) as (H1 & H2 & _).
    cbn [fst snd] in H1, H2. split; [apply H2; eauto|].
    rewrite H1. by destruct (last _).
Qed.

(** X22.  Whatever FirstPass receives, the actions of the Sorter follow
    the order of the phases.  Starting from a new Sorter: while the last
    kind is node, only node blocks have been dispatched; the nodes are
    collected once, before the way workers are started and before any way
    block is dispatched; the ways are collected only after every dispatch of
    a way block; nothing is dispatched after a collect that ends the
    phases, and no relations block is ever dispatched. *)
Theorem Sorter_phases {E} (received : list (BlockOrError E)) (sorter' : Sorter.t)
    (err : option E) :
  FirstPass_loop sorter_start received = Ok (sorter', err) ->
  phase_log (Sorter.lastKind sorter') (Sorter.actions sorter').
Proof.
  intros H. unfold FirstPass_loop in H.
  destruct (FirstPass_from received sorter_start None _ H) as (_ & _ & H3).
  apply H3. apply log_nodes. constructor.
Qed.

Lemma Sorter_phases_witness :
  exists sorter',
    FirstPass_loop (E := unit) sorter_start
      [Primitives {| Primitivegroup := [group_Nodes [ {| Node_Id := 1; Node_Lon := 0; Node_Lat := 0 |} ]] |};
       Primitives two_ways] = Ok (sorter', None) /\
    phase_log (Sorter.lastKind sorter') (Sorter.actions sorter').
Proof.
  eexists. split; [reflexivity|].
  apply (Sorter_phases (E := unit)
           [Primitives {| Primitivegroup := [group_Nodes [ {| Node_Id := 1; Node_Lon := 0; Node_Lat := 0 |} ]] |};
            Primitives two_ways] _ None).
  reflexivity.
Defined.

(** X23.  A block with neither nodes nor ways, an empty block included,
    counts as a relations block.  Sorter.Append accepts it in every phase
    without dispatching it and moves to the relations phase; from then on
    every node block and every way block is rejected with the out-of-order
    error, the Sorter staying as it is. *)
Theorem relations_block_ends_phases (s : Sorter.t) (p : PrimitiveBlock) (r : Z) :
  primCount p = (0, 0, r) ->
  Sorter.lastKind s <= PKIND_REL ->
  primitiveBlockKind p = Ok PKIND_REL /\
  exists s', Sorter.Append s p = Ok (s', None) /\
    Sorter.lastKind s' = PKIND_REL /\
    (Dispatch p ∉ drop (length (Sorter.actions s)) (Sorter.actions s')) /\
    forall p' k, primitiveBlockKind p' = Ok k -> k < PKIND_REL ->
      Sorter.Append s' p' = Ok (s', Some (KindOutOfOrder k PKIND_REL)).
Proof.
  intros Hc Hle.
  assert (primitiveBlockKind p = Ok PKIND_REL) as Hk by (unfold primitiveBlockKind; by rewrite Hc).
  split; [done|].
  destruct (Sorter.Append s p) as [[s' r']| |] eqn:E;
    [|unfold Sorter.Append in E; rewrite Hk in E; cbn [mbind res_bind mret res_ret] in E; by destruct (_ && _)..].
  destruct (Sorter_Append_inv s p s' r' E) as (kind & Hk' & H).
  rewrite Hk in Hk'. injection Hk' as <-.
  destruct H as [(Hlt & _)|(_ & -> & HK & Ha)]; [lia|].
  exists s'. split; [done|]. split; [done|]. split.
  - rewrite Ha, drop_app_length. rewrite Z.eqb_refl, app_nil_r.
    destruct (_ =? _); [apply not_elem_of_nil|].
    repeat destruct (_ =? _); cbn [app]; rewrite ?not_elem_of_cons;
      repeat split; try done; apply not_elem_of_nil.
  - intros p' k Hp' Hlt. unfold Sorter.Append. rewrite Hp'. rsimpl. rewrite HK.
    assert ((k =? PKIND_REL) = false) as -> by (apply Z.eqb_neq; lia).
    by assert ((k <? PKIND_REL) = true) as -> by (apply Z.ltb_lt; lia).
Qed.

Lemma relations_block_ends_phases_witness :
  exists s',
    Sorter.Append sorter_start {| Primitivegroup := [] |} = Ok (s', None) /\
    Sorter.lastKind s' = PKIND_REL /\
    Sorter.Append s' two_ways = Ok (s', Some (KindOutOfOrder PKIND_WAY PKIND_REL)).
Proof.
  destruct (relations_block_ends_phases sorter_start {| Primitivegroup := [] |} 0 eq_refl)
    as (_ & s' & E & HK & _ & Hrej); [vm_compute; discriminate|].
  exists s'. split; [exact E|]. split; [exact HK|].
  apply Hrej; [reflexivity|unfold PKIND_WAY, PKIND_REL; lia].
Defined.

(** ** Node worker: processNodeRequest *)

Lemma i64_add_l a b : i64 (i64 a + b) = i64 (a + b).
Proof.
  unfold i64. f_equal.
  replace ((a + 2 ^ 63) mod 2 ^ 64 - 2 ^ 63 + b + 2 ^ 63) with ((a + 2 ^ 63) mod 2 ^ 64 + b) by lia.
  rewrite Zplus_mod_idemp_l. f_equal. lia.
Qed.

Lemma foldr_add_snoc xs x : foldr Z.add 0 (xs ++ [x]) = foldr Z.add 0 xs + x.
Proof. induction xs as [|y xs IH]; cbn [foldr app]; lia. Qed.

Lemma prefix_sums_from xs pre :
  (fun k => i64 (foldr Z.add 0 (take (S k) (pre ++ xs)))) <$> seq (length pre) (length xs)
  = match xs with
    | [] => []
    | x :: xs' =>
      i64 (foldr Z.add 0 pre + x)
      :: ((fun k => i64 (foldr Z.add 0 (take (S k) ((pre ++ [x]) ++ xs'))))
            <$> seq (length (pre ++ [x])) (length xs'))
    end.
Proof.
  destruct xs as [|x xs']; [done|].
  cbn [length seq fmap list_fmap]. f_equal.
  - rewrite take_app_ge by lia.
    replace (S (length pre) - length pre)%nat with 1%nat by lia.
    cbn [take]. by rewrite foldr_add_snoc.
  - rewrite length_app. cbn [length]. rewrite Nat.add_1_r.
    by rewrite <- app_assoc.
Qed.

Section NodeRequests.

Context (Project : float * float -> float * float).

(* The loop over the dense nodes, from any index. *)
Lemma dense_loop_spec (g : DenseNodes) (deltas : list Z) :
  forall (pre lons lats : list Z) (w : nodeWorker.t) (last_i : Z),
  Dense_Lon g = lons -> Dense_Lat g = lats ->
  (length pre + length deltas <= length lons)%nat ->
  (length pre + length deltas <= length lats)%nat ->
  last_i <= Z.of_nat (length pre) ->
  dense_loop Project g deltas (Z.of_nat (length pre)) w
    (i64 (foldr Z.add 0 pre))
    (i64 (foldr Z.add 0 (take (length pre) lons)))
    (i64 (foldr Z.add 0 (take (length pre) lats))) last_i
  = (w' ← foldM (putNode3 Project) w
            (zip (zip ((fun k => i64 (foldr Z.add 0 (take (S k) (pre ++ deltas))))
                         <$> seq (length pre) (length deltas))
                      ((fun k => i32 (i64 (foldr Z.add 0 (take (S k) lons))))
                         <$> seq (length pre) (length deltas)))
                 ((fun k => i32 (i64 (foldr Z.add 0 (take (S k) lats))))
                    <$> seq (length pre) (length deltas)));
     Ok (inr w')).
Proof.
  unfold putNode3.
  induction deltas as [|d deltas IH]; intros pre lons lats w last_i Elon Elat Hlon Hlat Hlast.
  - done.
  - cbn [dense_loop length seq fmap list_fmap zip zip_with foldM].
    assert ((Z.of_nat (length pre) <? last_i) = false) as -> by (apply Z.ltb_ge; lia).
    cbn [length] in Hlon, Hlat.
    rewrite Elon, Elat, !zget_ok by lia. rsimpl. rewrite Nat2Z.id.
    rewrite !i64_add_l.
    assert (forall xs : list Z, (length pre < length xs)%nat ->
              foldr Z.add 0 (take (length pre) xs) + nth (length pre) xs 0
              = foldr Z.add 0 (take (S (length pre)) xs)) as Hstep.
    { intros xs Hlt. erewrite (take_S_r xs) by (apply nth_elem_of; lia).
      by rewrite foldr_add_snoc. }
    rewrite !Hstep by lia.
    assert (take (S (length pre)) (pre ++ d :: deltas) = pre ++ [d]) as Epre.
    { rewrite take_app_ge by lia.
      replace (S (length pre) - length pre)%nat with 1%nat by lia. done. }
    rewrite Epre, foldr_add_snoc.
    cbn [fst snd].
    destruct (nodeWorker.putNode Project w _ _ _) as [w1| |]; [|done..]. rsimpl.
    specialize (IH (pre ++ [d]) lons lats w1 (Z.of_nat (length pre)) Elon Elat).
    rewrite length_app in IH. cbn [length] in IH.
    replace (Z.of_nat (length pre + 1)) with (Z.of_nat (length pre) + 1) in IH by lia.
    rewrite foldr_add_snoc in IH.
    replace (length pre + 1)%nat with (S (length pre)) in IH by lia.
    rewrite <- app_assoc in IH. cbn [app] in IH.
    apply IH; lia.
Qed.

Lemma prefix_sums_take (xs : list Z) n :
  (n <= length xs)%nat ->
  prefix_sums (take n xs) = (fun k => i64 (foldr Z.add 0 (take (S k) xs))) <$> seq 0 n.
Proof.
  intros Hn. unfold prefix_sums. rewrite length_take, Nat.min_l by lia.
  apply list_eq. intros i. rewrite !list_lookup_fmap.
  destruct (seq 0 n !! i) as [k|] eqn:E; [|done]. cbn.
  apply lookup_seq in E as [-> Hk]. cbn [Nat.add].
  by rewrite take_take, Nat.min_l by lia.
Qed.

Lemma processNodeGroup_spec (w : nodeWorker.t) (g : PrimitiveGroup) :
  (length (Dense_Id (Dense g)) <= length (Dense_Lon (Dense g)))%nat ->
  (length (Dense_Id (Dense g)) <= length (Dense_Lat (Dense g)))%nat ->
  processNodeGroup Project w g = (w' ← foldM (putNode3 Project) w (group_nodes g); Ok (inr w')).
Proof.
  intros Hlon Hlat. unfold processNodeGroup, group_nodes. rewrite foldM_app.
  assert (forall w0 (ns : list Node),
            foldM (fun w n => nodeWorker.putNode Project w (Node_Id n) (i32 (Node_Lon n))
                                (i32 (Node_Lat n))) w0 ns
            = foldM (putNode3 Project) w0
                ((fun n => (Node_Id n, i32 (Node_Lon n), i32 (Node_Lat n))) <$> ns)) as ->.
  { intros w0 ns. revert w0. induction ns as [|n ns IH]; intros w0; [done|].
    cbn [foldM fmap list_fmap]. unfold putNode3 at 2. cbn [fst snd].
    destruct (nodeWorker.putNode _ _ _ _ _); [|done..]. rsimpl. apply IH. }
  destruct (foldM (putNode3 Project) w _) as [w1| |]; [|done..]. rsimpl.
  pose proof (dense_loop_spec (Dense g) (Dense_Id (Dense g)) [] _ _ w1 0 eq_refl eq_refl) as H.
  cbn [length Nat.add foldr app] in H. rewrite !take_0 in H. cbn [foldr] in H.
  change (Z.of_nat 0) with 0 in H. change (i64 0) with 0 in H.
  rewrite H by lia. unfold dense_nodes, prefix_sums at 1.
  rewrite !prefix_sums_take by lia. by rewrite <- !list_fmap_compose.
Qed.

(** X24.  processNodeRequest never raises its own panic ("Last index
    should be before current index"): whenever it returns or panics, it is
    by way of putNode or of a slice index.  On a block whose dense groups
    have at least as many lon and lat deltas as id deltas, it does to the
    worker what putNode does, in order, for the nodes the block stands for:
    in every group the plain nodes, then the dense nodes with the k-th id,
    lon and lat being the int64 sum of the first k+1 deltas, lon and lat cut
    to int32. *)
Theorem processNodeRequest_decodes (w : nodeWorker.t) (b : PrimitiveBlock) :
  (forall last_i i, processNodeRequest Project w b <> Ok (inl (IndexBackwards last_i i))) /\
  (Forall (fun g => (length (Dense_Id (Dense g)) <= length (Dense_Lon (Dense g)))%nat /\
                    (length (Dense_Id (Dense g)) <= length (Dense_Lat (Dense g)))%nat)
          (Primitivegroup b) ->
   processNodeRequest Project w b =
     (w' ← foldM (putNode3 Project) w (mjoin (group_nodes <$> Primitivegroup b)); Ok (inr w'))).
Proof.
  split.
  - assert (forall g deltas i w id lon lat last_i li' i',
              last_i <= i ->
              dense_loop Project g deltas i w id lon lat last_i
              <> Ok (inl (IndexBackwards li' i'))) as Hdense.
    { intros g deltas. induction deltas as [|d deltas IH];
        intros i w0 id lon lat last_i li' i' Hle; [done|].
      cbn [dense_loop].
      assert ((i <? last_i) = false) as -> by (apply Z.ltb_ge; lia).
      destruct (zget (Dense_Lon g) i); rsimpl; [|done..].
      destruct (zget (Dense_Lat g) i); rsimpl; [|done..].
      destruct (nodeWorker.putNode _ _ _ _ _); rsimpl; [|done..].
      apply IH. lia. }
    intros last_i i. unfold processNodeRequest. revert w.
    induction (Primitivegroup b) as [|g gs IH]; intros w; [done|].
    cbn [processNodeGroups].
    destruct (processNodeGroup Project w g) as [[[li' i']|w1]| |] eqn:E; rsimpl; [|apply IH|done..].
    exfalso. revert E. unfold processNodeGroup.
    destruct (foldM _ w (Nodes g)); rsimpl; [|done..]. by apply Hdense.
  - unfold processNodeRequest. revert w.
    induction (Primitivegroup b) as [|g gs IH]; intros w Hall; [done|].
    apply Forall_cons in Hall as [[Hlon Hlat] Hall].
    cbn [processNodeGroups fmap list_fmap mjoin list_join].
    rewrite processNodeGroup_spec, foldM_app by done.
    destruct (foldM (putNode3 Project) w (group_nodes g)) as [w1| |]; [|done..]. rsimpl.
    by apply IH.
Qed.

End NodeRequests.

Lemma processNodeRequest_decodes_witness :
  mjoin (group_nodes <$> Primitivegroup dense_block) = [(10, 5, 7); (11, 4, 7); (13, 4, 8)] /\
  forall Project w,
    processNodeRequest Project w dense_block =
      (w' ← foldM (putNode3 Project) w [(10, 5, 7); (11, 4, 7); (13, 4, 8)]; Ok (inr w')).
Proof.
  split; [reflexivity|]. intros Project w.
  refine (proj2 (processNodeRequest_decodes Project w dense_block) _).
  repeat constructor.
Defined.
